(** * FlowStrategy core runtime: event router, pipeline, executor

    A shallow embedding of [core/events/router.py], [core/runtime/pipeline.py],
    [core/runtime/executor.py] and the value objects they read
    ([core/configs/enums.py], [core/configs/policies.py],
    [core/runtime/context.py], [core/ecs/frame.py], [core/exceptions.py],
    [core/events/protocol.py], [core/logging/logger.py]).

    Python objects that are mutated through shared references (the strategy
    chain, the subscriber lists, frames) live in an explicit store; callables
    supplied by users (strategies, event handlers) are identified by a number
    and their behaviour is a parameter of the semantics. *)

From stdpp Require Import base gmap strings list.
From Stdlib Require Import ZArith QArith Lia.

Local Open Scope Z_scope.
Local Open Scope list_scope.

(* ===================================================================== *)
(** ** core/configs/enums.py *)
(* ===================================================================== *)

(** [LogLevel] is an [IntFlag]: a bit mask over INFO, WARNING, ERROR. *)
Module LogLevel.
Definition NONE : Z := 0.
Definition INFO : Z := 1.
Definition WARNING : Z := 2.
Definition ERROR : Z := 4.
Definition ALL : Z := Z.lor (Z.lor INFO WARNING) ERROR.
Definition ERRORS_ONLY : Z := ERROR.
Definition NO_WARNINGS : Z := Z.lor INFO ERROR.
End LogLevel.

Module EventRule.
Inductive t := NORMAL | SILENT | DROP.
Definition value (r : t) : Z :=
  match r with NORMAL => 0 | SILENT => 1 | DROP => 2 end.
End EventRule.

Module PipelineState.
Inductive t := IDLE | RUNNING | PAUSED | TERMINATED.
Definition value (s : t) : Z :=
  match s with IDLE => 0 | RUNNING => 1 | PAUSED => 2 | TERMINATED => 3 end.
End PipelineState.

Module PipelineMode.
Inductive t := SINGLE | LOOP | CONDITIONAL.
Definition value (m : t) : Z :=
  match m with SINGLE => 0 | LOOP => 1 | CONDITIONAL => 2 end.
End PipelineMode.

Module EventPriority.
Inductive t := DEFERRED | IMMEDIATE | INTERRUPT | CRITICAL.
(** [IntEnum] values; the router compares priorities with [>=]. *)
Definition value (p : t) : Z :=
  match p with
  | DEFERRED => 10 | IMMEDIATE => 20 | INTERRUPT => 30 | CRITICAL => 40
  end.
Definition geb (p q : t) : bool := value q <=? value p.
End EventPriority.

#[global] Instance EventRule_eq_dec : EqDecision EventRule.t.
Proof. solve_decision. Defined.
#[global] Instance PipelineState_eq_dec : EqDecision PipelineState.t.
Proof. solve_decision. Defined.
#[global] Instance PipelineMode_eq_dec : EqDecision PipelineMode.t.
Proof. solve_decision. Defined.
#[global] Instance EventPriority_eq_dec : EqDecision EventPriority.t.
Proof. solve_decision. Defined.

(* ===================================================================== *)
(** ** core/configs/policies.py *)
(* ===================================================================== *)

Record LogPolicy := { allowed_mask : Z }.

Definition is_allowed (self : LogPolicy) (level : Z) : bool :=
  if allowed_mask self =? LogLevel.ALL then true
  else if allowed_mask self =? LogLevel.NONE then false
  else negb (Z.land (allowed_mask self) level =? 0).

Module LogPolicies.
Definition default : LogPolicy := {| allowed_mask := LogLevel.ALL |}.
Definition silent : LogPolicy := {| allowed_mask := LogLevel.NONE |}.
Definition infos_only : LogPolicy := {| allowed_mask := LogLevel.INFO |}.
Definition warnings_only : LogPolicy := {| allowed_mask := LogLevel.WARNING |}.
Definition errors_only : LogPolicy := {| allowed_mask := LogLevel.ERROR |}.
End LogPolicies.

Record EventPolicy := { rule : EventRule.t }.

Definition is_mute (self : EventPolicy) : bool :=
  bool_decide (rule self = EventRule.SILENT)
  || bool_decide (rule self = EventRule.DROP).

Definition is_dropped (self : EventPolicy) : bool :=
  bool_decide (rule self = EventRule.DROP).

Module EventPolicies.
Definition normal : EventPolicy := {| rule := EventRule.NORMAL |}.
Definition silent : EventPolicy := {| rule := EventRule.SILENT |}.
Definition drop : EventPolicy := {| rule := EventRule.DROP |}.
End EventPolicies.

(* ===================================================================== *)
(** ** core/interfaces/event.py: the topic type *)
(* ===================================================================== *)

(** [EventType = Union[str, Enum, Type[Any]]]: a topic is a string, an enum
    member or a class object.  Only class objects carry [__name__]; a class
    is given by the module that defines it and its name there (a class
    defined at the top level of a module other than [builtins]).  (An enum
    member is a key of its own here; a member of a [str]-mixin enum, which
    Python hashes like its value, is represented by [TStr].) *)
Inductive EventType :=
  | TStr (s : string)
  | TEnum (member : string)
  | TClass (module name : string).

#[global] Instance EventType_eq_dec : EqDecision EventType.
Proof. solve_decision. Defined.

Definition EventType_encode (t : EventType) : string + string + string * string :=
  match t with
  | TStr s => inl (inl s)
  | TEnum s => inl (inr s)
  | TClass m n => inr (m, n)
  end.

Definition EventType_decode (p : string + string + string * string)
    : EventType :=
  match p with
  | inl (inl s) => TStr s
  | inl (inr s) => TEnum s
  | inr (m, n) => TClass m n
  end.

#[global] Instance EventType_countable : Countable EventType.
Proof.
  apply (inj_countable' EventType_encode EventType_decode).
  intros []; reflexivity.
Defined.

(** [isinstance(event_type, type)] *)
Definition is_type (t : EventType) : bool :=
  match t with TClass _ _ => true | _ => false end.

(** [event_type.__name__]: present on class objects only. *)
Definition dunder_name (t : EventType) : option string :=
  match t with TClass _ n => Some n | _ => None end.

(** [str(event_type)]; for a class, [<class 'module.name'>]. *)
Definition py_str (t : EventType) : string :=
  match t with
  | TStr s => s
  | TEnum m => m
  | TClass m n =>
      String.append "<class '"
        (String.append m (String.append "." (String.append n "'>")))
  end.

(** [str(sender or alt)] for a sender that is [None] or a string: the empty
    string is falsy. *)
Definition sender_or (sender : option string) (alt : string) : string :=
  match sender with
  | Some EmptyString | None => alt
  | Some s => s
  end.

(** Event payloads are opaque to the router. *)
Definition Data := nat.

(* ===================================================================== *)
(** ** core/exceptions.py and the built-in exceptions the code can raise *)
(* ===================================================================== *)

(** Every constructor is a subclass of Python's [Exception]. *)
Inductive exn :=
  | Exception (msg : string)
  | AttributeError (attr : string)
  | IndexError
  | ZeroDivisionError
  | ValueError (msg : string)
  | OverflowError
  | StrategyExecutionError (msg : string)
  | PipelineCriticalError (msg : string).

#[global] Instance exn_eq_dec : EqDecision exn.
Proof. solve_decision. Defined.

(** [isinstance(e, StrategyExecutionError)] *)
Definition is_StrategyExecutionError (e : exn) : bool :=
  match e with StrategyExecutionError _ => true | _ => false end.

(** [isinstance(e, PipelineCriticalError)] *)
Definition is_PipelineCriticalError (e : exn) : bool :=
  match e with PipelineCriticalError _ => true | _ => false end.

Definition exn_str (e : exn) : string :=
  match e with
  | Exception m | ValueError m | StrategyExecutionError m
  | PipelineCriticalError m => m
  | AttributeError a => String.append "object has no attribute " a
  | IndexError => "pop from an empty deque"
  | ZeroDivisionError => "float division by zero"
  | OverflowError => "Python int too large to convert to C ssize_t"
  end.

(* ===================================================================== *)
(** ** core/logging/logger.py *)
(* ===================================================================== *)

Inductive Severity := SevInfo | SevWarning | SevError | SevCritical.

(** The text of every log call of the modelled modules, kept structured
    instead of formatted. *)
Inductive LogMsg :=
  (* router *)
  | MsgPub (event_name sender_name : string) (priority : EventPriority.t)
  | MsgNoSub (event_name : string)
  | MsgDispatch (event_name : string) (handlers : nat)
  | MsgHandlerError (event_name : string) (e : exn)
  | MsgFlush
  | MsgInterruptUnbound
  (* pipeline *)
  | MsgCannotRestart
  | MsgStarted (mode : PipelineMode.t)
  | MsgStateSet (state : PipelineState.t)
  | MsgPaused
  | MsgResumed
  | MsgTerminated
  | MsgFrameInterrupted (frame_index : Z)
  | MsgStrategyError (strategy : string) (e : exn)
  | MsgUnexpectedError (strategy : string) (e : exn)
  | MsgLoopCritical (e : exn)
  | MsgFrameDrop (cost : Z) (target : Q)
  | MsgStrategyAdded (strategy : string)
  | MsgStrategyInserted (index : Z) (strategy : string)
  | MsgCannotRemove (strategy : string)
  | MsgRemovedCleanupError (e : exn)
  | MsgStrategyRemoved (strategy : string)
  | MsgNameNotFound (name : string)
  | MsgOutOfBounds (index : Z)
  | MsgCleanupError (strategy : string) (e : exn)
  | MsgCleanedUp
  (* executor *)
  | MsgAttached (pipeline : string)
  | MsgCriticalIn (pipeline : string) (e : exn)
  | MsgUnhandled (pipeline : string) (e : exn)
  | MsgDetachedTerminated (pipeline : string).

Record LogRecord := {
  severity : Severity;
  source : string;
  message : LogMsg
}.

(** [SysLogger._should_log] for an [ILoggable] source, followed by the write
    to the backend: the record is appended iff the source's policy allows the
    level. *)
Definition SysLogger_emit (policy : LogPolicy) (level : Z) (sev : Severity)
    (name : string) (m : LogMsg) (log : list LogRecord) : list LogRecord :=
  if is_allowed policy level
  then log ++ [{| severity := sev; source := name; message := m |}]
  else log.

(** [SysLogger.critical]: not gated by any policy. *)
Definition SysLogger_critical (m : LogMsg) (log : list LogRecord)
    : list LogRecord :=
  log ++ [{| severity := SevCritical; source := "SYSTEM"; message := m |}].

(* ===================================================================== *)
(** ** core/ecs/frame.py *)
(* ===================================================================== *)

(** Components are keyed by their class; tags and payloads are numbers. *)
Record Frame := {
  frame_id : nat;
  _released : bool;
  _components : gmap nat nat
}.

Definition Frame_init (fid : nat) : Frame :=
  {| frame_id := fid; _released := false; _components := ∅ |}.

Definition add_component (tag c : nat) (self : Frame) : Frame :=
  {| frame_id := frame_id self; _released := _released self;
     _components := <[tag := c]> (_components self) |}.

Definition get_component (tag : nat) (self : Frame) : option nat :=
  _components self !! tag.

Definition has_component (tag : nat) (self : Frame) : bool :=
  bool_decide (is_Some (_components self !! tag)).

Definition remove_component (tag : nat) (self : Frame) : Frame :=
  {| frame_id := frame_id self; _released := _released self;
     _components := delete tag (_components self) |}.

Definition release (self : Frame) : Frame :=
  if _released self then self
  else {| frame_id := frame_id self; _released := true; _components := ∅ |}.

(* ===================================================================== *)
(** ** core/runtime/context.py *)
(* ===================================================================== *)

(** Clock readings are whole ticks; the blackboard maps a type tag to the
    stored instance. *)
Record PipelineContext := {
  _frame_index : Z;
  _delta_time : Z;
  _data_store : gmap nat nat
}.

Definition PipelineContext_init : PipelineContext :=
  {| _frame_index := 0; _delta_time := 0; _data_store := ∅ |}.

Definition PipelineContext_clear (self : PipelineContext) : PipelineContext :=
  {| _frame_index := 0; _delta_time := 0; _data_store := ∅ |}.

(* ===================================================================== *)
(** ** The router, the pipeline and the store they live in *)
(* ===================================================================== *)

(** [EventRouter.__init__] state.  [_pipeline] and [_event_hub] record
    whether the back-reference and the hub are bound (truthy).  A subscriber
    list is shared between the dictionary and any loop iterating it, so the
    dictionary is the single place it is read from. *)
Record EventRouter := {
  _pipeline : bool;
  _event_hub : bool;
  _subscribers : gmap EventType (list nat);
  _deferred_queue : list (EventType * Data);
  _event_policies : gmap EventType EventPolicy;
  r_log_policy : LogPolicy
}.

Definition EventRouter_init (pipeline event_hub : bool) : EventRouter :=
  {| _pipeline := pipeline; _event_hub := event_hub;
     _subscribers := ∅; _deferred_queue := [];
     _event_policies := ∅; r_log_policy := LogPolicies.default |}.

(** core/configs/settings.py.  The router factory is represented by the
    router it builds for the pipeline under construction. *)
Record PipelineConfig := {
  cfg_name : string;
  cfg_strategies : list nat;
  cfg_mode : PipelineMode.t;
  cfg_max_fps : Z;
  cfg_enable_fps_control : bool;
  cfg_enable_profiling : bool;
  cfg_router_factory : option EventRouter;
  cfg_event_policies : list (EventType * EventPolicy)
}.

(** [Pipeline] instance attributes.  [_strategies] is a reference to a list
    object of the store; [_last_time] is [None] while the attribute does not
    exist on the instance. *)
Record Pipeline := {
  config : PipelineConfig;
  _name : string;
  _mode : PipelineMode.t;
  event_router : EventRouter;
  context : PipelineContext;
  _state : PipelineState.t;
  _trigger_event : bool;
  _frame_interrupted : bool;
  p_log_policy : LogPolicy;
  _strategies : nat;
  _last_time : option Z
}.

#[global] Instance Q_eq_dec : EqDecision Q.
Proof. solve_decision. Defined.

(** Observable events, recorded for the statements below; they are not part
    of the program state the code reads.  A sleep is recorded with its
    length in ticks, a fraction in general. *)
Inductive Event :=
  | EvInvoke (callback : nat) (topic : EventType) (data : Data)
  | EvEnqueue (topic : EventType) (data : Data)
  | EvPop (topic : EventType) (data : Data)
  | EvExecute (strategy : nat) (input : option nat)
  | EvFailed (strategy : nat) (in_flight : option nat)
  | EvCleanup (strategy : nat)
  | EvSleep (ticks : Q)
  | EvHubPublish (topic : EventType) (data : option Data).

#[global] Instance Event_eq_dec : EqDecision Event.
Proof. solve_decision. Defined.

(** Per-strategy attributes set by the pipeline when it binds a strategy. *)
Record StrategyAttrs := {
  s_pipeline : bool;
  s_log_policy : LogPolicy
}.

(** One pipeline together with the objects it references. *)
Record World := {
  pipe : Pipeline;
  lists : gmap nat (list nat);
  frames : gmap nat Frame;
  strategy_attrs : gmap nat StrategyAttrs;
  reads : nat;
  log : list LogRecord;
  trace : list Event
}.

(** *** Field updates *)

Definition with_router (f : EventRouter -> EventRouter) (p : Pipeline)
    : Pipeline :=
  {| config := config p; _name := _name p; _mode := _mode p;
     event_router := f (event_router p); context := context p;
     _state := _state p; _trigger_event := _trigger_event p;
     _frame_interrupted := _frame_interrupted p;
     p_log_policy := p_log_policy p; _strategies := _strategies p;
     _last_time := _last_time p |}.

Definition with_context (f : PipelineContext -> PipelineContext)
    (p : Pipeline) : Pipeline :=
  {| config := config p; _name := _name p; _mode := _mode p;
     event_router := event_router p; context := f (context p);
     _state := _state p; _trigger_event := _trigger_event p;
     _frame_interrupted := _frame_interrupted p;
     p_log_policy := p_log_policy p; _strategies := _strategies p;
     _last_time := _last_time p |}.

Definition with_state (s : PipelineState.t) (p : Pipeline) : Pipeline :=
  {| config := config p; _name := _name p; _mode := _mode p;
     event_router := event_router p; context := context p;
     _state := s; _trigger_event := _trigger_event p;
     _frame_interrupted := _frame_interrupted p;
     p_log_policy := p_log_policy p; _strategies := _strategies p;
     _last_time := _last_time p |}.

Definition with_trigger_event (b : bool) (p : Pipeline) : Pipeline :=
  {| config := config p; _name := _name p; _mode := _mode p;
     event_router := event_router p; context := context p;
     _state := _state p; _trigger_event := b;
     _frame_interrupted := _frame_interrupted p;
     p_log_policy := p_log_policy p; _strategies := _strategies p;
     _last_time := _last_time p |}.

Definition with_frame_interrupted (b : bool) (p : Pipeline) : Pipeline :=
  {| config := config p; _name := _name p; _mode := _mode p;
     event_router := event_router p; context := context p;
     _state := _state p; _trigger_event := _trigger_event p;
     _frame_interrupted := b;
     p_log_policy := p_log_policy p; _strategies := _strategies p;
     _last_time := _last_time p |}.

Definition with_log_policy (lp : LogPolicy) (p : Pipeline) : Pipeline :=
  {| config := config p; _name := _name p; _mode := _mode p;
     event_router := event_router p; context := context p;
     _state := _state p; _trigger_event := _trigger_event p;
     _frame_interrupted := _frame_interrupted p;
     p_log_policy := lp; _strategies := _strategies p;
     _last_time := _last_time p |}.

Definition with_strategies (a : nat) (p : Pipeline) : Pipeline :=
  {| config := config p; _name := _name p; _mode := _mode p;
     event_router := event_router p; context := context p;
     _state := _state p; _trigger_event := _trigger_event p;
     _frame_interrupted := _frame_interrupted p;
     p_log_policy := p_log_policy p; _strategies := a;
     _last_time := _last_time p |}.

Definition with_last_time (t : option Z) (p : Pipeline) : Pipeline :=
  {| config := config p; _name := _name p; _mode := _mode p;
     event_router := event_router p; context := context p;
     _state := _state p; _trigger_event := _trigger_event p;
     _frame_interrupted := _frame_interrupted p;
     p_log_policy := p_log_policy p; _strategies := _strategies p;
     _last_time := t |}.

Definition with_subscribers (s : gmap EventType (list nat)) (r : EventRouter)
    : EventRouter :=
  {| _pipeline := _pipeline r; _event_hub := _event_hub r;
     _subscribers := s; _deferred_queue := _deferred_queue r;
     _event_policies := _event_policies r; r_log_policy := r_log_policy r |}.

Definition with_deferred_queue (q : list (EventType * Data)) (r : EventRouter)
    : EventRouter :=
  {| _pipeline := _pipeline r; _event_hub := _event_hub r;
     _subscribers := _subscribers r; _deferred_queue := q;
     _event_policies := _event_policies r; r_log_policy := r_log_policy r |}.

Definition with_event_policies (m : gmap EventType EventPolicy)
    (r : EventRouter) : EventRouter :=
  {| _pipeline := _pipeline r; _event_hub := _event_hub r;
     _subscribers := _subscribers r; _deferred_queue := _deferred_queue r;
     _event_policies := m; r_log_policy := r_log_policy r |}.

Definition with_router_log_policy (lp : LogPolicy) (r : EventRouter)
    : EventRouter :=
  {| _pipeline := _pipeline r; _event_hub := _event_hub r;
     _subscribers := _subscribers r; _deferred_queue := _deferred_queue r;
     _event_policies := _event_policies r; r_log_policy := lp |}.

Definition with_router_pipeline (b : bool) (r : EventRouter) : EventRouter :=
  {| _pipeline := b; _event_hub := _event_hub r;
     _subscribers := _subscribers r; _deferred_queue := _deferred_queue r;
     _event_policies := _event_policies r; r_log_policy := r_log_policy r |}.

Definition on_pipe (f : Pipeline -> Pipeline) (w : World) : World :=
  {| pipe := f (pipe w); lists := lists w; frames := frames w;
     strategy_attrs := strategy_attrs w; reads := reads w;
     log := log w; trace := trace w |}.

Definition on_lists (f : gmap nat (list nat) -> gmap nat (list nat))
    (w : World) : World :=
  {| pipe := pipe w; lists := f (lists w); frames := frames w;
     strategy_attrs := strategy_attrs w; reads := reads w;
     log := log w; trace := trace w |}.

Definition on_frames (f : gmap nat Frame -> gmap nat Frame) (w : World)
    : World :=
  {| pipe := pipe w; lists := lists w; frames := f (frames w);
     strategy_attrs := strategy_attrs w; reads := reads w;
     log := log w; trace := trace w |}.

Definition on_strategy_attrs
    (f : gmap nat StrategyAttrs -> gmap nat StrategyAttrs) (w : World)
    : World :=
  {| pipe := pipe w; lists := lists w; frames := frames w;
     strategy_attrs := f (strategy_attrs w); reads := reads w;
     log := log w; trace := trace w |}.

Definition on_reads (f : nat -> nat) (w : World) : World :=
  {| pipe := pipe w; lists := lists w; frames := frames w;
     strategy_attrs := strategy_attrs w; reads := f (reads w);
     log := log w; trace := trace w |}.

Definition on_log (f : list LogRecord -> list LogRecord) (w : World)
    : World :=
  {| pipe := pipe w; lists := lists w; frames := frames w;
     strategy_attrs := strategy_attrs w; reads := reads w;
     log := f (log w); trace := trace w |}.

Definition record (e : Event) (w : World) : World :=
  {| pipe := pipe w; lists := lists w; frames := frames w;
     strategy_attrs := strategy_attrs w; reads := reads w;
     log := log w; trace := trace w ++ [e] |}.

Definition on_router (f : EventRouter -> EventRouter) : World -> World :=
  on_pipe (with_router f).

(** *** Readers used throughout *)

Definition router (w : World) : EventRouter := event_router (pipe w).
Definition state (w : World) : PipelineState.t := _state (pipe w).
Definition mode (w : World) : PipelineMode.t := _mode (pipe w).
Definition frame_index (w : World) : Z := _frame_index (context (pipe w)).
Definition deferred_queue (w : World) : list (EventType * Data) :=
  _deferred_queue (router w).

(** [self._subscribers[event_type]] on the [defaultdict(list)]. *)
Definition subscribers_of (w : World) (t : EventType) : list nat :=
  default [] (_subscribers (router w) !! t).

(** The list object a reference points to. *)
Definition deref (w : World) (a : nat) : list nat :=
  default [] (lists w !! a).

(** [self.strategies] *)
Definition strategies (w : World) : list nat := deref w (_strategies (pipe w)).

(** A fresh address for a new list object. *)
Definition fresh_list (w : World) : nat := fresh (dom (lists w)).

Definition is_released (w : World) (f : nat) : bool :=
  match frames w !! f with Some fr => _released fr | None => false end.

(* ===================================================================== *)
(** ** Effects: state, exceptions, and divergence by fuel *)
(* ===================================================================== *)

(** The result of running a piece of code from a world: it returns a value,
    or raises (the world reached when the exception leaves is kept, since
    mutations made before a raise persist), or the evaluator runs out of
    fuel: handlers may re-enter the router without bound, which in Python
    does not end or ends at the interpreter's recursion limit. *)
Inductive Res (A : Type) :=
  | Ok (a : A) (w : World)
  | Raise (e : exn) (w : World)
  | OutOfFuel.

Arguments Ok {A} a w.
Arguments Raise {A} e w.
Arguments OutOfFuel {A}.

Definition M (A : Type) : Type := World -> Res A.

Definition ret {A} (a : A) : M A := fun w => Ok a w.

Definition bind {A B} (m : M A) (f : A -> M B) : M B :=
  fun w =>
    match m w with
    | Ok a w' => f a w'
    | Raise e w' => Raise e w'
    | OutOfFuel => OutOfFuel
    end.

Definition raise {A} (e : exn) : M A := fun w => Raise e w.
Definition gets {A} (f : World -> A) : M A := fun w => Ok (f w) w.
Definition modify (f : World -> World) : M unit := fun w => Ok tt (f w).

(** [try: m  except Exception as e: h e] *)
Definition try_except {A} (m : M A) (h : exn -> M A) : M A :=
  fun w =>
    match m w with
    | Raise e w' => h e w'
    | r => r
    end.

(** [try: m  finally: fin]; an exception leaving [fin] replaces the pending
    result. *)
Definition try_finally {A} (m : M A) (fin : M unit) : M A :=
  fun w =>
    match m w with
    | Ok a w' => bind fin (fun _ => ret a) w'
    | Raise e w' => bind fin (fun _ => raise e) w'
    | OutOfFuel => OutOfFuel
    end.

Declare Scope flow_scope.
Delimit Scope flow_scope with flow.
Notation "'let*' x := m 'in' f" := (bind m (fun x => f))
  (at level 10, x name, m at level 100, f at level 200, only parsing)
  : flow_scope.
Notation "m ;; f" := (bind m (fun _ => f))
  (at level 100, f at level 200, only parsing, right associativity)
  : flow_scope.
Local Open Scope flow_scope.

(** The world a result carries, if any. *)
Definition world_of {A} (r : Res A) : option World :=
  match r with
  | Ok _ w | Raise _ w => Some w
  | OutOfFuel => None
  end.

(* ===================================================================== *)
(** ** User code: strategies and event handlers *)
(* ===================================================================== *)

(** Calls on the pipeline that user code (or another component) can make. *)
Inductive PipelineCall :=
  | CallStart
  | CallTrigger
  | CallPause
  | CallResume
  | CallStop
  | CallRequestFrameInterrupt
  | CallAddStrategy (strategy : nat)
  | CallInsertStrategy (index : Z) (strategy : nat)
  | CallRemoveStrategy (strategy : nat)
  | CallRemoveStrategyByName (name : string)
  | CallRemoveStrategyByIndex (index : Z)
  | CallSetLogPolicy (policy : LogPolicy).

(** What a strategy or an event handler does besides computing its result:
    a sequence of calls on the router and the pipeline it holds.  A handler
    or strategy does not catch what these calls raise.  (Re-entrant calls of
    [step] and [process_deferred] from user code are not represented.) *)
Inductive Action :=
  | APublish (event_type : EventType) (data : Data) (sender : option string)
      (priority : EventPriority.t)
  | ASubscribe (event_type : EventType) (callback : nat)
  | ASetEventPolicy (event_type : EventType) (policy : EventPolicy)
  | APipeline (c : PipelineCall).

(** What [strategy.execute(frame)] answers after its actions. *)
Inductive ExecResult :=
  | ExecReturn (success : bool) (frame : option nat)
  | ExecRaise (e : exn).

(** The calls the router makes into itself and into handlers; they are the
    recursion points of the evaluator. *)
Inductive Call :=
  | CPublish (event_type : EventType) (data : Data) (sender : option string)
      (priority : EventPriority.t)
  | CDispatchNow (event_type : EventType) (data : Data)
  | CDispatchLoop (event_type : EventType) (data : Data) (i : nat)
  | CCallback (callback : nat) (event_type : EventType) (data : Data)
  | CActions (acts : list Action).

(* ===================================================================== *)
(** ** Semantics of the pipeline and its router *)
(* ===================================================================== *)

(** The environment of a pipeline: the clock and the user code plugged into
    it. *)
Record Env := {
  (** [time.perf_counter()]: the n-th reading of the clock. *)
  perf_counter : nat -> Z;
  (** [strategy.name] *)
  strategy_name : nat -> string;
  (** [isinstance(strategy, IPipelineAware)] *)
  pipeline_aware : nat -> bool;
  (** [strategy.execute(frame)], as seen at a given frame index. *)
  strategy_execute : nat -> Z -> option nat -> list Action * ExecResult;
  (** [strategy.cleanup()]: what it raises, if anything. *)
  strategy_cleanup : nat -> option exn;
  (** [callback(data)]: the handler's actions, then what it raises, if
      anything. *)
  callback_run : nat -> Data -> list Action * option exn
}.

Section Semantics.

Variable env : Env.

(** *** Logging through [SysLogger] with the pipeline or the router as source *)

Definition pipeline_log (level : Z) (sev : Severity) (m : LogMsg) (w : World)
    : World :=
  on_log (SysLogger_emit (p_log_policy (pipe w)) level sev (_name (pipe w)) m)
    w.

Definition pipeline_info := pipeline_log LogLevel.INFO SevInfo.
Definition pipeline_warning := pipeline_log LogLevel.WARNING SevWarning.
Definition pipeline_error := pipeline_log LogLevel.ERROR SevError.

(** [EventRouter.name]: [f"{self._pipeline.name}.Router"].  On a router
    that is not bound, [self._pipeline] is [None], which has no [name]. *)
Definition router_name (w : World) : exn + string :=
  if _pipeline (router w)
  then inr (String.append (_name (pipe w)) ".Router")
  else inl (AttributeError "name").

(** A [SysLogger] call with the router as its source: the router's policy
    is asked first, and the name is read only for a line that passes. *)
Definition router_log (level : Z) (sev : Severity) (m : LogMsg) : M unit :=
  fun w =>
    if is_allowed (r_log_policy (router w)) level then
      match router_name w with
      | inr name =>
          Ok tt
            (on_log (fun l =>
               l ++ [{| severity := sev; source := name; message := m |}]) w)
      | inl e => Raise e w
      end
    else Ok tt w.

Definition router_info := router_log LogLevel.INFO SevInfo.
Definition router_warning := router_log LogLevel.WARNING SevWarning.
Definition router_error := router_log LogLevel.ERROR SevError.

(** *** Frames *)

(** [if current_data and hasattr(current_data, "release"):
        current_data.release()] *)
Definition release_data (current_data : option nat) (w : World) : World :=
  match current_data with
  | None => w
  | Some f =>
      on_frames
        (fun fs => <[f := release (default (Frame_init f) (fs !! f))]> fs) w
  end.

(** *** Pipeline: lifecycle *)

(** [Pipeline.cleanup]: every strategy of the installed list is cleaned up
    (an error is logged, not propagated), then the list object itself is
    emptied and the context cleared. *)
Definition cleanup_one (w : World) (s : nat) : World :=
  let w1 := record (EvCleanup s) w in
  match strategy_cleanup env s with
  | Some e => pipeline_warning (MsgCleanupError (strategy_name env s) e) w1
  | None => w1
  end.

Definition cleanup (w : World) : World :=
  let w1 := foldl cleanup_one w (strategies w) in
  let w2 := on_lists (fun ls => <[_strategies (pipe w1) := []]> ls) w1 in
  let w3 := on_pipe (with_context PipelineContext_clear) w2 in
  pipeline_info MsgCleanedUp w3.

Definition start (w : World) : World :=
  if bool_decide (state w = PipelineState.TERMINATED)
  then pipeline_error MsgCannotRestart w
  else
    let w1 :=
      if bool_decide (mode w = PipelineMode.CONDITIONAL)
      then on_pipe (with_trigger_event false) w else w in
    let w2 := on_pipe (with_state PipelineState.RUNNING) w1 in
    let w3 := pipeline_info (MsgStarted (mode w2)) w2 in
    pipeline_info (MsgStateSet (state w3)) w3.

Definition trigger (w : World) : World :=
  if bool_decide (mode w = PipelineMode.CONDITIONAL)
  then on_pipe (with_trigger_event true) w
  else w.

Definition pause (w : World) : World :=
  if bool_decide (state w = PipelineState.RUNNING)
  then pipeline_info MsgPaused (on_pipe (with_state PipelineState.PAUSED) w)
  else w.

Definition resume (w : World) : World :=
  if bool_decide (state w = PipelineState.PAUSED)
  then pipeline_info MsgResumed (on_pipe (with_state PipelineState.RUNNING) w)
  else w.

Definition stop (w : World) : World :=
  if bool_decide (state w <> PipelineState.TERMINATED)
  then
    let w1 := on_pipe (with_state PipelineState.TERMINATED) w in
    cleanup (pipeline_warning MsgTerminated w1)
  else w.

Definition request_frame_interrupt (w : World) : World :=
  on_pipe (with_frame_interrupted true) w.

(** *** Pipeline: structural edits (copy, modify, replace) *)

Definition set_strategy_log_policy (policy : LogPolicy) (w : World) (s : nat)
    : World :=
  on_strategy_attrs (fun m =>
    <[s := {| s_pipeline := default false (s_pipeline <$> m !! s);
              s_log_policy := policy |}]> m) w.

Definition _bind_pipeline_context (s : nat) (w : World) : World :=
  let w1 :=
    if pipeline_aware env s
    then on_strategy_attrs (fun m =>
           <[s := {| s_pipeline := true;
                     s_log_policy :=
                       default LogPolicies.default
                         (s_log_policy <$> m !! s) |}]> m) w
    else w in
  set_strategy_log_policy (p_log_policy (pipe w1)) w1 s.

(** [self._strategies = new_chain]: the new list is a new object. *)
Definition install_chain (new_chain : list nat) (w : World) : World :=
  let a := fresh_list w in
  on_pipe (with_strategies a) (on_lists (fun ls => <[a := new_chain]> ls) w).

Definition add_strategy (s : nat) (w : World) : World :=
  let w1 := _bind_pipeline_context s w in
  let new_chain := strategies w1 ++ [s] in
  pipeline_info (MsgStrategyAdded (strategy_name env s))
    (install_chain new_chain w1).

(** The range of a C [Py_ssize_t] (on a 64-bit build). *)
Definition PY_SSIZE_T_MAX : Z := 2 ^ 63 - 1.
Definition PY_SSIZE_T_MIN : Z := - 2 ^ 63.

(** The insertion itself ([ins1] in CPython): a negative index counts from
    the end, and the position is clamped to the list. *)
Definition ins1 {A} (index : Z) (x : A) (l : list A) : list A :=
  let n := Z.of_nat (length l) in
  let i := if index <? 0 then Z.max 0 (index + n) else Z.min index n in
  take (Z.to_nat i) l ++ x :: drop (Z.to_nat i) l.

(** [list.insert(index, x)]: the index is first converted to a
    [Py_ssize_t], which fails for an integer outside its range. *)
Definition py_insert {A} (index : Z) (x : A) (l : list A) : exn + list A :=
  if (index <? PY_SSIZE_T_MIN) || (PY_SSIZE_T_MAX <? index)
  then inl OverflowError
  else inr (ins1 index x l).

(** [list.remove(x)]: the first occurrence. *)
Fixpoint py_remove (x : nat) (l : list nat) : list nat :=
  match l with
  | [] => []
  | y :: l' => if bool_decide (y = x) then l' else y :: py_remove x l'
  end.

(** When [new_chain.insert] raises, the strategy has been bound already and
    the chain is not replaced. *)
Definition insert_strategy (index : Z) (s : nat) : M unit :=
  fun w =>
    let w1 := _bind_pipeline_context s w in
    match py_insert index s (strategies w1) with
    | inr new_chain =>
        Ok tt
          (pipeline_info (MsgStrategyInserted index (strategy_name env s))
             (install_chain new_chain w1))
    | inl e => Raise e w1
    end.

Definition remove_strategy (s : nat) (w : World) : World :=
  if bool_decide (s ∈ strategies w) then
    let w1 := install_chain (py_remove s (strategies w)) w in
    let w2 := record (EvCleanup s) w1 in
    let w3 :=
      match strategy_cleanup env s with
      | Some e => pipeline_error (MsgRemovedCleanupError e) w2
      | None => w2
      end in
    pipeline_info (MsgStrategyRemoved (strategy_name env s)) w3
  else pipeline_warning (MsgCannotRemove (strategy_name env s)) w.

Definition remove_strategy_by_name (name : string) (w : World) : World :=
  match filter (fun s => strategy_name env s = name) (strategies w) with
  | target :: _ => remove_strategy target w
  | [] => pipeline_warning (MsgNameNotFound name) w
  end.

Definition remove_strategy_by_index (index : Z) (w : World) : World :=
  if (0 <=? index) && (index <? Z.of_nat (length (strategies w))) then
    match strategies w !! Z.to_nat index with
    | Some target => remove_strategy target w
    | None => w
    end
  else pipeline_warning (MsgOutOfBounds index) w.

Definition set_log_policy (policy : LogPolicy) (w : World) : World :=
  let w1 := on_pipe (with_log_policy policy) w in
  foldl (set_strategy_log_policy policy) w1 (strategies w1).

Definition pipeline_call (c : PipelineCall) : M unit :=
  match c with
  | CallStart => modify start
  | CallTrigger => modify trigger
  | CallPause => modify pause
  | CallResume => modify resume
  | CallStop => modify stop
  | CallRequestFrameInterrupt => modify request_frame_interrupt
  | CallAddStrategy s => modify (add_strategy s)
  | CallInsertStrategy i s => insert_strategy i s
  | CallRemoveStrategy s => modify (remove_strategy s)
  | CallRemoveStrategyByName n => modify (remove_strategy_by_name n)
  | CallRemoveStrategyByIndex i => modify (remove_strategy_by_index i)
  | CallSetLogPolicy p => modify (set_log_policy p)
  end.

(** *** EventRouter *)

Definition set_event_policy (event_type : EventType) (policy : EventPolicy)
    (w : World) : World :=
  on_router (fun r =>
    with_event_policies (<[event_type := policy]> (_event_policies r)) r) w.

(** [self._subscribers[event_type].append(callback)] *)
Definition subscribe (event_type : EventType) (callback : nat) (w : World)
    : World :=
  on_router (fun r =>
    with_subscribers
      (<[event_type := default [] (_subscribers r !! event_type) ++ [callback]]>
         (_subscribers r)) r) w.

(** Reading [self._subscribers[event_type]] on the [defaultdict] creates the
    entry when it is missing. *)
Definition touch_subscribers (event_type : EventType) (w : World) : World :=
  on_router (fun r =>
    with_subscribers
      (<[event_type := default [] (_subscribers r !! event_type)]>
         (_subscribers r)) r) w.

(** [self._deferred_queue.append((event_type, data))] *)
Definition enqueue (event_type : EventType) (data : Data) (w : World) : World :=
  record (EvEnqueue event_type data)
    (on_router (fun r =>
       with_deferred_queue (_deferred_queue r ++ [(event_type, data)]) r) w).

(** [self._deferred_queue.popleft()] answering [(event_type, data)] and
    leaving [rest]. *)
Definition popleft (event_type : EventType) (data : Data)
    (rest : list (EventType * Data)) (w : World) : World :=
  record (EvPop event_type data)
    (on_router (with_deferred_queue rest) w).

(** [publish_global]: forwarded to the injected hub, if any. *)
Definition publish_global (event_type : EventType) (data : option Data)
    (w : World) : World :=
  if _event_hub (router w) then record (EvHubPublish event_type data) w else w.

(** The decorator [trace_publish], applied to [publish]. *)
Definition trace_publish
    (func : EventType -> Data -> option string -> EventPriority.t -> M unit)
    (event_type : EventType) (data : Data) (sender : option string)
    (priority : EventPriority.t) : M unit :=
  fun w =>
    let event_policy :=
      default EventPolicies.normal (_event_policies (router w) !! event_type) in
    if is_dropped event_policy then Ok tt w
    else if is_mute event_policy then func event_type data sender priority w
    else
      let should_log := is_allowed (r_log_policy (router w)) LogLevel.INFO in
      let is_high_priority :=
        EventPriority.geb priority EventPriority.INTERRUPT in
      ((if should_log || is_high_priority then
          let sender_name := sender_or sender "External" in
          let event_name :=
            match dunder_name event_type with
            | Some n => n
            | None => py_str event_type
            end in
          router_info (MsgPub event_name sender_name priority)
        else ret tt) ;;
       func event_type data sender priority) w.

(** The body of [EventRouter.publish] under the decorator.  [call] is the
    router calling back into itself. *)
Definition publish_body (call : Call -> M unit)
    (event_type : EventType) (data : Data) (sender : option string)
    (priority : EventPriority.t) : M unit :=
  if bool_decide (priority = EventPriority.CRITICAL) then
    raise (Exception (String.append "CRITICAL Signal: "
             (String.append (py_str event_type)
                (String.append " from " (sender_or sender "Unknown")))))
  else if EventPriority.geb priority EventPriority.IMMEDIATE then
    call (CDispatchNow event_type data) ;;
    if bool_decide (priority = EventPriority.INTERRUPT) then
      fun w =>
        if _pipeline (router w)
        then Ok tt (request_frame_interrupt w)
        else router_warning MsgInterruptUnbound w
    else ret tt
  else modify (enqueue event_type data).

(** [publish] as decorated by [@trace_publish]. *)
Definition publish_decorated (call : Call -> M unit) :=
  trace_publish (publish_body call).

(** The decorator [trace_dispatch], applied to [_dispatch_now].  Both log
    lines format [event_type.__name__]. *)
Definition trace_dispatch (func : EventType -> Data -> M unit)
    (event_type : EventType) (data : Data) : M unit :=
  fun w =>
    if is_allowed (r_log_policy (router w)) LogLevel.INFO then
      let subscribers := default [] (_subscribers (router w) !! event_type) in
      match dunder_name event_type with
      | None => Raise (AttributeError "__name__") w
      | Some n =>
          (match subscribers with
           | [] => router_warning (MsgNoSub n)
           | _ => router_info (MsgDispatch n (length subscribers))
           end ;;
           func event_type data) w
      end
    else func event_type data w.

(** [callback(data)] *)
Definition run_callback (call : Call -> M unit) (callback : nat)
    (event_type : EventType) (data : Data) : M unit :=
  let '(script, raised) := callback_run env callback data in
  modify (record (EvInvoke callback event_type data)) ;;
  call (CActions script) ;;
  match raised with
  | Some e => raise e
  | None => ret tt
  end.

(** [try: callback(data)  except Exception as e: SysLogger.error(...)]; the
    error line formats [event_type.__name__]. *)
Definition guarded_callback (call : Call -> M unit) (callback : nat)
    (event_type : EventType) (data : Data) : M unit :=
  try_except
    (call (CCallback callback event_type data))
    (fun e =>
       match dunder_name event_type with
       | None => raise (AttributeError "__name__")
       | Some n => router_error (MsgHandlerError n e)
       end).

(** One turn of [for callback in self._subscribers[event_type]]: the list
    iterator holds an index into the live list object, so what it yields at
    position [i] is read from the list as it is now. *)
Definition dispatch_loop (call : Call -> M unit) (event_type : EventType)
    (data : Data) (i : nat) : M unit :=
  fun w =>
    match subscribers_of w event_type !! i with
    | None => Ok tt w
    | Some callback =>
        (guarded_callback call callback event_type data ;;
         call (CDispatchLoop event_type data (S i))) w
    end.

(** The body of [_dispatch_now] under its decorator. *)
Definition _dispatch_now_body (call : Call -> M unit)
    (event_type : EventType) (data : Data) : M unit :=
  modify (touch_subscribers event_type) ;;
  call (CDispatchLoop event_type data 0%nat).

(** [_dispatch_now] as decorated by [@trace_dispatch]. *)
Definition _dispatch_now_decorated (call : Call -> M unit) :=
  trace_dispatch (_dispatch_now_body call).

Definition do_action (call : Call -> M unit) (a : Action) : M unit :=
  match a with
  | APublish t d s p => call (CPublish t d s p)
  | ASubscribe t cb => modify (subscribe t cb)
  | ASetEventPolicy t p => modify (set_event_policy t p)
  | APipeline c => pipeline_call c
  end.

Definition run_actions (call : Call -> M unit) (acts : list Action) : M unit :=
  match acts with
  | [] => ret tt
  | a :: rest => do_action call a ;; call (CActions rest)
  end.

(** The evaluator ties the knot: every call costs one unit of fuel. *)
Fixpoint exec (fuel : nat) (c : Call) : M unit :=
  match fuel with
  | O => fun _ => OutOfFuel
  | S fuel' =>
      match c with
      | CPublish t d s p => publish_decorated (exec fuel') t d s p
      | CDispatchNow t d => _dispatch_now_decorated (exec fuel') t d
      | CDispatchLoop t d i => dispatch_loop (exec fuel') t d i
      | CCallback cb t d => run_callback (exec fuel') cb t d
      | CActions acts => run_actions (exec fuel') acts
      end
  end.

(** [EventRouter.publish] and [EventRouter._dispatch_now] as called from
    outside. *)
Definition publish (fuel : nat) (event_type : EventType) (data : Data)
    (sender : option string) (priority : EventPriority.t) : M unit :=
  exec fuel (CPublish event_type data sender priority).

Definition _dispatch_now (fuel : nat) (event_type : EventType) (data : Data)
    : M unit :=
  exec fuel (CDispatchNow event_type data).

(** [EventRouter.process_deferred]: the number of entries is read once,
    before the loop. *)
Fixpoint drain (fuel : nat) (count : nat) : M unit :=
  match count with
  | O => ret tt
  | S count' =>
      fun w =>
        match deferred_queue w with
        | [] => Raise IndexError w
        | (etype, data) :: rest =>
            (_dispatch_now fuel etype data ;; drain fuel count')
              (popleft etype data rest w)
        end
  end.

Definition process_deferred (fuel : nat) : M unit :=
  fun w =>
    match deferred_queue w with
    | [] => Ok tt w
    | _ :: _ =>
        ((if is_allowed (r_log_policy (router w)) LogLevel.INFO
          then router_info MsgFlush else ret tt) ;;
         fun w1 => drain fuel (length (deferred_queue w1)) w1) w
    end.

(** *** Pipeline.step *)

(** [strategy.execute(current_data)]: the strategy's calls, then its answer. *)
Definition run_strategy (fuel : nat) (strategy : nat)
    (current_data : option nat) : M (bool * option nat) :=
  fun w =>
    let '(script, result) :=
      strategy_execute env strategy (frame_index w) current_data in
    (modify (record (EvExecute strategy current_data)) ;;
     exec fuel (CActions script) ;;
     match result with
     | ExecReturn success frame => ret (success, frame)
     | ExecRaise e => raise e
     end) w.

(** How the [for] loop of [step] is left, with the locals the rest of
    [step] reads. *)
Inductive WalkExit := Fallthrough | ReturnedTrue.

Record WalkResult := {
  exit : WalkExit;
  current_data : option nat;
  did_work : bool
}.

(** [for strategy in current_chain: ...] from position [i] on.
    [current_chain] is the reference loaded before the loop; the iterator
    reads the list object behind it at every turn.  The enclosing
    [except Exception] of [step] guards only statements that do not raise
    here (flag tests, releases, log calls), so the loop itself answers. *)
Fixpoint walk (fuel : nat) (current_chain : nat) (i : nat)
    (current_data : option nat) (did_work : bool) : M WalkResult :=
  match fuel with
  | O => fun _ => OutOfFuel
  | S fuel' =>
    fun w =>
      match deref w current_chain !! i with
      | None =>
          Ok {| exit := Fallthrough; current_data := current_data;
                did_work := did_work |} w
      | Some strategy =>
          if bool_decide (state w = PipelineState.TERMINATED) then
            Ok {| exit := ReturnedTrue; current_data := current_data;
                  did_work := did_work |} (release_data current_data w)
          else if _frame_interrupted (pipe w) then
            Ok {| exit := Fallthrough; current_data := current_data;
                  did_work := did_work |}
               (if cfg_enable_profiling (config (pipe w))
                then pipeline_warning (MsgFrameInterrupted (frame_index w)) w
                else w)
          else
            match run_strategy fuel' strategy current_data w with
            | Ok (success, data') w1 =>
                if negb success then
                  Ok {| exit := Fallthrough; current_data := data';
                        did_work := did_work |}
                     (release_data data' (record (EvFailed strategy data') w1))
                else walk fuel' current_chain (S i) data' true w1
            | Raise e w1 =>
                let m :=
                  if is_StrategyExecutionError e
                  then MsgStrategyError (strategy_name env strategy) e
                  else MsgUnexpectedError (strategy_name env strategy) e in
                Ok {| exit := Fallthrough; current_data := current_data;
                      did_work := did_work |}
                   (release_data current_data
                      (record (EvFailed strategy current_data)
                         (pipeline_error m w1)))
            | OutOfFuel => OutOfFuel
            end
      end
  end.

(** One second of [time.perf_counter()] in clock ticks. *)
Definition ticks_per_second : Z := 1000000000.

Definition read_clock : M Z :=
  fun w => Ok (perf_counter env (reads w)) (on_reads S w).

(** [x > y] on fractions. *)
Definition Qgtb (x y : Q) : bool := negb (Qle_bool x y).

(** [_handle_frame_pacing]: [1.0 / max_fps] divides by zero for a zero
    rate.  The target interval, one second over the rate, and the time left
    to sleep are fractions of ticks, computed exactly (the rounding of
    floating point is not represented); sleeping is recorded. *)
Definition _handle_frame_pacing (duration : Z) : M unit :=
  fun w =>
    let cfg := config (pipe w) in
    if cfg_max_fps cfg =? 0 then Raise ZeroDivisionError w
    else
      let target_interval :=
        (inject_Z ticks_per_second / inject_Z (cfg_max_fps cfg))%Q in
      let w1 :=
        if Qgtb (inject_Z duration) target_interval && cfg_enable_profiling cfg
        then pipeline_warning (MsgFrameDrop duration target_interval) w
        else w in
      let remaining := (target_interval - inject_Z duration)%Q in
      if cfg_enable_fps_control cfg && Qgtb remaining 0
      then Ok tt (record (EvSleep remaining) w1)
      else Ok tt w1.

(** The [finally] block of [step]. *)
Definition step_finally (fuel : nat) (loop_start_time : Z)
    (current_data : option nat) : M unit :=
  process_deferred fuel ;;
  modify (release_data current_data) ;;
  let* loop_end_time := read_clock in
  _handle_frame_pacing (loop_end_time - loop_start_time).

(** Reading [self._last_time]. *)
Definition read_last_time : M Z :=
  fun w =>
    match _last_time (pipe w) with
    | Some t => Ok t w
    | None => Raise (AttributeError "_last_time") w
    end.

Definition advance_context (dt : Z) (c : PipelineContext) : PipelineContext :=
  {| _frame_index := _frame_index c + 1; _delta_time := dt;
     _data_store := _data_store c |}.

(** What [step] does once the loop is left: the [finally] block, then the
    SINGLE-mode stop and the return (skipped when the [try] body returned). *)
Definition step_tail (fuel : nat) (loop_start_time : Z) (r : WalkResult)
    : M bool :=
  step_finally fuel loop_start_time (current_data r) ;;
  match exit r with
  | ReturnedTrue => ret true
  | Fallthrough =>
      modify (fun w =>
        if bool_decide (mode w = PipelineMode.SINGLE) then stop w else w) ;;
      ret (did_work r)
  end.

Definition step (fuel : nat) : M bool :=
  fun w =>
    if bool_decide (state w <> PipelineState.RUNNING) then Ok false w
    else if bool_decide (mode w = PipelineMode.CONDITIONAL)
            && negb (_trigger_event (pipe w)) then Ok false w
    else
      (modify (fun w =>
         if bool_decide (mode w = PipelineMode.CONDITIONAL)
         then on_pipe (with_trigger_event false) w else w) ;;
       let* loop_start_time := read_clock in
       let* last_time := read_last_time in
       let dt :=
         if loop_start_time - last_time <? 0 then 0
         else loop_start_time - last_time in
       modify (on_pipe (with_last_time (Some loop_start_time))) ;;
       modify (on_pipe (with_context (advance_context dt))) ;;
       modify (on_pipe (with_frame_interrupted false)) ;;
       let* current_chain := gets (fun w => _strategies (pipe w)) in
       let* r := walk fuel current_chain 0%nat None false in
       step_tail fuel loop_start_time r) w.

(** *** Pipeline.__init__ *)

Definition Pipeline_init (cfg : PipelineConfig) : exn + World :=
  match cfg_router_factory cfg with
  | None => inl (ValueError "config is missing 'router_factory'")
  | Some router0 =>
      let p :=
        {| config := cfg; _name := cfg_name cfg; _mode := cfg_mode cfg;
           event_router := router0; context := PipelineContext_init;
           _state := PipelineState.IDLE; _trigger_event := false;
           _frame_interrupted := false; p_log_policy := LogPolicies.default;
           _strategies := 0%nat; _last_time := None |} in
      let w0 :=
        {| pipe := p; lists := {[ 0%nat := [] ]}; frames := ∅;
           strategy_attrs := ∅; reads := 0%nat; log := []; trace := [] |} in
      let w1 :=
        foldl
          (fun w '(event_type, policy) =>
             set_event_policy event_type policy w)
          w0 (cfg_event_policies cfg) in
      inr (foldl (fun w s => add_strategy s w) w1 (cfg_strategies cfg))
  end.

End Semantics.

(* ===================================================================== *)
(** ** core/events/protocol.py *)
(* ===================================================================== *)

Module SystemEvent.
Inductive t := PIPELINE_CONTROL | SYSTEM_ALERT | FRAME_PROCESSED.
End SystemEvent.

Module ErrorCode.
Inductive t :=
  | GENERIC_ERROR | INIT_FAILED | MISSING_DEPENDENCY
  | RESOURCE_NOT_FOUND | DEVICE_OPEN_FAILED | VIDEO_SIGNAL_LOSS
  | PERFORMANCE_DEGRADED | MEMORY_WARNING
  | MODEL_LOAD_FAILED | INFERENCE_ERROR.
End ErrorCode.

Module AlertLevel.
Inductive t := INFO | WARNING | ERROR | CRITICAL.
End AlertLevel.

Record SystemAlertPayload := {
  level : AlertLevel.t;
  error_code : ErrorCode.t;
  alert_source : string;
  alert_message : string;
  details : list (string * string)
}.

(* ===================================================================== *)
(** ** core/runtime/executor.py *)
(* ===================================================================== *)

(** [_pipelines] holds references to pipeline objects; [ex_event_hub] tells
    whether a hub was injected. *)
Record PipelineExecutor := {
  ex_name : string;
  ex_event_hub : bool;
  _pipelines : list nat;
  _running : bool;
  ex_log_policy : LogPolicy
}.

(** The executor, the pipeline objects it refers to (each with its own
    store), what the executor has published on the hub, its log lines and
    the number of idle sleeps. *)
Record System := {
  executor : PipelineExecutor;
  objects : gmap nat World;
  hub_published : list (SystemEvent.t * SystemAlertPayload);
  sys_log : list LogRecord;
  naps : nat
}.

Definition set_object (pid : nat) (w : World) (sys : System) : System :=
  {| executor := executor sys; objects := <[pid := w]> (objects sys);
     hub_published := hub_published sys; sys_log := sys_log sys;
     naps := naps sys |}.

Definition on_sys_log (f : list LogRecord -> list LogRecord) (sys : System)
    : System :=
  {| executor := executor sys; objects := objects sys;
     hub_published := hub_published sys; sys_log := f (sys_log sys);
     naps := naps sys |}.

Definition set_pipelines (l : list nat) (sys : System) : System :=
  {| executor :=
       {| ex_name := ex_name (executor sys);
          ex_event_hub := ex_event_hub (executor sys);
          _pipelines := l; _running := _running (executor sys);
          ex_log_policy := ex_log_policy (executor sys) |};
     objects := objects sys; hub_published := hub_published sys;
     sys_log := sys_log sys; naps := naps sys |}.

Definition executor_log (lvl : Z) (sev : Severity) (m : LogMsg) (sys : System)
    : System :=
  on_sys_log
    (SysLogger_emit (ex_log_policy (executor sys)) lvl sev
       (ex_name (executor sys)) m) sys.

(** [_report_critical_error] *)
Definition _report_critical_error (pipe_name msg : string) (sys : System)
    : System :=
  if ex_event_hub (executor sys) then
    let payload :=
      {| level := AlertLevel.CRITICAL;
         error_code := ErrorCode.GENERIC_ERROR;
         alert_source :=
           String.append (ex_name (executor sys)) (String.append "/" pipe_name);
         alert_message := msg;
         details := [] |} in
    {| executor := executor sys; objects := objects sys;
       hub_published :=
         hub_published sys ++ [(SystemEvent.SYSTEM_ALERT, payload)];
       sys_log := sys_log sys; naps := naps sys |}
  else sys.

Section Executor.

Variable env : Env.

(** The locals of one turn of the [while] loop. *)
Record Sweep := {
  sys_of : System;
  pipelines_to_remove : list nat;
  any_work_done : bool
}.

(** [for pipe in current_pipelines: ...] *)
Fixpoint sweep_loop (fuel : nat) (current_pipelines : list nat) (acc : Sweep)
    : option Sweep :=
  match current_pipelines with
  | [] => Some acc
  | pid :: rest =>
      let sys := sys_of acc in
      match objects sys !! pid with
      | None => sweep_loop fuel rest acc
      | Some w =>
          if bool_decide (state w = PipelineState.TERMINATED) then
            sweep_loop fuel rest
              {| sys_of := sys;
                 pipelines_to_remove := pipelines_to_remove acc ++ [pid];
                 any_work_done := any_work_done acc |}
          else
            match step env fuel w with
            | Ok did_work w' =>
                sweep_loop fuel rest
                  {| sys_of := set_object pid w' sys;
                     pipelines_to_remove := pipelines_to_remove acc;
                     any_work_done :=
                       if did_work then true else any_work_done acc |}
            | Raise e w' =>
                if is_PipelineCriticalError e then
                  let sys1 :=
                    on_sys_log
                      (SysLogger_critical (MsgCriticalIn (_name (pipe w')) e))
                      (set_object pid w' sys) in
                  let sys2 :=
                    _report_critical_error (_name (pipe w')) (exn_str e) sys1 in
                  sweep_loop fuel rest
                    {| sys_of := set_object pid (stop env w') sys2;
                       pipelines_to_remove := pipelines_to_remove acc;
                       any_work_done := any_work_done acc |}
                else
                  sweep_loop fuel rest
                    {| sys_of :=
                         executor_log LogLevel.ERROR SevError
                           (MsgUnhandled (_name (pipe w')) e)
                           (set_object pid w' sys);
                       pipelines_to_remove := pipelines_to_remove acc;
                       any_work_done := any_work_done acc |}
            | OutOfFuel => None
            end
      end
  end.

(** [for p in pipelines_to_remove: if p in self._pipelines: ...] *)
Definition detach (sys : System) (p : nat) : System :=
  if bool_decide (p ∈ _pipelines (executor sys)) then
    let name := default "" ((fun w => _name (pipe w)) <$> objects sys !! p) in
    executor_log LogLevel.WARNING SevWarning (MsgDetachedTerminated name)
      (set_pipelines (py_remove p (_pipelines (executor sys))) sys)
  else sys.

(** One turn of the [while self._running] loop of [_loop]. *)
Definition sweep (fuel : nat) (sys : System) : option System :=
  let current_pipelines := _pipelines (executor sys) in
  match sweep_loop fuel current_pipelines
          {| sys_of := sys; pipelines_to_remove := [];
             any_work_done := false |} with
  | None => None
  | Some acc =>
      let sys1 := foldl detach (sys_of acc) (pipelines_to_remove acc) in
      Some
        (if any_work_done acc then sys1
         else {| executor := executor sys1; objects := objects sys1;
                 hub_published := hub_published sys1;
                 sys_log := sys_log sys1; naps := S (naps sys1) |})
  end.

(** [turns] turns of the loop, as long as the running flag is set. *)
Fixpoint _loop (fuel : nat) (turns : nat) (sys : System) : option System :=
  match turns with
  | O => Some sys
  | S turns' =>
      if _running (executor sys) then
        match sweep fuel sys with
        | Some sys' => _loop fuel turns' sys'
        | None => None
        end
      else Some sys
  end.

End Executor.

(* ===================================================================== *)
(** ** Notions used in the statements *)
(* ===================================================================== *)

(** [respects R m]: whenever [m] ends (by returning or by raising), the
    world it ends in is related to the one it started from. *)
Definition respects {A} (R : World -> World -> Prop) (m : M A) : Prop :=
  forall w w', world_of (m w) = Some w' -> R w w'.

(** The handler invocations recorded in a trace, in order. *)
Definition invocations (tr : list Event) : list (nat * EventType * Data) :=
  omap (fun e =>
          match e with
          | EvInvoke cb t d => Some (cb, t, d)
          | _ => None
          end) tr.

(** The strategies executed according to a trace, in order. *)
Definition executions (tr : list Event) : list nat :=
  omap (fun e => match e with EvExecute s _ => Some s | _ => None end) tr.

(** The events appended to the deferred queue according to a trace. *)
Definition enqueued (tr : list Event) : list (EventType * Data) :=
  omap (fun e => match e with EvEnqueue t d => Some (t, d) | _ => None end) tr.

(** The events taken from the deferred queue according to a trace. *)
Definition popped (tr : list Event) : list (EventType * Data) :=
  omap (fun e => match e with EvPop t d => Some (t, d) | _ => None end) tr.

(** Between the two worlds nothing was taken from the deferred queue, and the
    queue grew at its tail by what was enqueued. *)
Definition queue_grows (w w' : World) : Prop :=
  exists tr, trace w' = trace w ++ tr /\ popped tr = [] /\
             deferred_queue w' = deferred_queue w ++ enqueued tr.

(** The two gates at the top of [step]: the state is RUNNING and, in
    CONDITIONAL mode, the trigger is set. *)
Definition gates_pass (w : World) : Prop :=
  state w = PipelineState.RUNNING /\
  (mode w = PipelineMode.CONDITIONAL -> _trigger_event (pipe w) = true).

(** The lifecycle methods of a pipeline, and [step]. *)
Inductive LifecycleOp :=
  | DoStart | DoPause | DoResume | DoStop | DoTrigger | DoStep.

Definition lifecycle (env : Env) (fuel : nat) (op : LifecycleOp) : M unit :=
  match op with
  | DoStart => modify start
  | DoPause => modify pause
  | DoResume => modify resume
  | DoStop => modify (stop env)
  | DoTrigger => modify trigger
  | DoStep => bind (step env fuel) (fun _ => ret tt)
  end.

(** A sequence of lifecycle calls, one after the other. *)
Fixpoint lifecycle_seq (env : Env) (fuel : nat) (ops : list LifecycleOp)
    : M unit :=
  match ops with
  | [] => ret tt
  | op :: rest =>
      bind (lifecycle env fuel op) (fun _ => lifecycle_seq env fuel rest)
  end.

(** Anything a client can do with a pipeline and its router. *)
Inductive Op :=
  | OpPipeline (c : PipelineCall)
  | OpRouter (a : Action)
  | OpProcessDeferred
  | OpStep.

Definition run_op (env : Env) (fuel : nat) (op : Op) : M unit :=
  match op with
  | OpPipeline c => pipeline_call env c
  | OpRouter a => exec env fuel (CActions [a])
  | OpProcessDeferred => process_deferred env fuel
  | OpStep => bind (step env fuel) (fun _ => ret tt)
  end.

(** The worlds a pipeline built from [cfg] can be in: the one its constructor
    leaves, and any world an operation ends in (by returning or raising). *)
Inductive reachable (env : Env) (cfg : PipelineConfig) : World -> Prop :=
  | reachable_init w :
      Pipeline_init env cfg = inr w -> reachable env cfg w
  | reachable_op w op fuel w' :
      reachable env cfg w ->
      world_of (run_op env fuel op w) = Some w' ->
      reachable env cfg w'.

(** The world a pipeline call ends in, whether it returns or raises. *)
Definition after_call (env : Env) (c : PipelineCall) (w : World) : World :=
  match pipeline_call env c w with
  | Ok _ w' | Raise _ w' => w'
  | OutOfFuel => w
  end.

(** Every pipeline call changes the pipeline record only in its state, its
    trigger and interrupt flags, its log policy, its chain reference and its
    context; the router, the configuration, the mode, the name and the
    timing anchor stay. *)
Definition same_fixed_fields (p p' : Pipeline) : Prop :=
  config p' = config p /\ _name p' = _name p /\ _mode p' = _mode p /\
  event_router p' = event_router p /\ _last_time p' = _last_time p.

(** The timing anchor [_last_time] is the same in both worlds. *)
Definition keeps_anchor (w w' : World) : Prop :=
  _last_time (pipe w') = _last_time (pipe w).

(** What [step] has done to the world when it reaches the read of
    [_last_time]: the trigger is consumed and the clock has been read. *)
Definition at_anchor_read (w : World) : World :=
  on_reads S
    (if bool_decide (mode w = PipelineMode.CONDITIONAL)
     then on_pipe (with_trigger_event false) w else w).





(** The trace of the second world extends the trace of the first by events
    among which no strategy is executed. *)
Definition extends_quietly (w w' : World) : Prop :=
  exists tr, trace w' = trace w ++ tr /\ executions tr = [].

(** Every list object of the first world is the same in the second. *)
Definition keeps_lists (w w' : World) : Prop :=
  forall a, a ∈ dom (lists w) -> lists w' !! a = lists w !! a.

(** Every list object of the first world is the same in the second, or has
    been emptied. *)
Definition only_clears (w w' : World) : Prop :=
  forall a, a ∈ dom (lists w) ->
    lists w' !! a = lists w !! a \/ lists w' !! a = Some [].

(** The structural edits of the strategy chain. *)
Definition is_edit (c : PipelineCall) : Prop :=
  match c with
  | CallAddStrategy _ | CallInsertStrategy _ _ | CallRemoveStrategy _
  | CallRemoveStrategyByName _ | CallRemoveStrategyByIndex _ => True
  | _ => False
  end.



(** The router's back-reference to its pipeline is the same in both
    worlds. *)
Definition keeps_binding (w w' : World) : Prop :=
  _pipeline (router w') = _pipeline (router w).

(** The exceptions that can leave the router's dispatch: a failed
    [__name__] lookup in one of its log lines, or the name of a router that
    is not bound. *)
Definition escapes_dispatch (e : exn) : Prop :=
  e = AttributeError "__name__" \/ e = AttributeError "name".

(** The exceptions that can leave [step]: the failed read of [_last_time];
    while flushing deferred events, a failed [__name__] lookup, the name of
    a router that is not bound, or a pop from the emptied queue; and the
    division in the pacing code. *)
Definition escapes_step (e : exn) : Prop :=
  e = AttributeError "_last_time" \/ e = AttributeError "__name__" \/
  e = AttributeError "name" \/ e = IndexError \/ e = ZeroDivisionError.

(** The world in which the loop of [step] starts, for a step that passed
    the gates and read [last_time] from [_last_time]. *)
Definition frame_start (env : Env) (last_time : Z) (w : World) : World :=
  let now := perf_counter env (reads w) in
  let dt := if now - last_time <? 0 then 0 else now - last_time in
  on_pipe (with_frame_interrupted false)
    (on_pipe (with_context (advance_context dt))
       (on_pipe (with_last_time (Some now)) (at_anchor_read w))).

(** *** Sample configurations used to exercise the statements *)

Module Sample.

Definition Ball : EventType := TClass "app.events" "BallDetected".
Definition Tick : EventType := TStr "tick".

(** Strategy 1 produces frame 7; strategy 2 passes its frame on; strategy 3
    reports failure and hands its frame back; strategy 4 publishes a
    CRITICAL event; strategy 5 raises; strategy 6 stops the pipeline;
    strategy 10 publishes a deferred event on the string topic and reports
    failure without a frame; strategy 11 reports failure without a frame.
    Handler 1 subscribes handler 2 to the topic
    it listens on; handler 3 publishes a deferred event; the other handlers
    do nothing. *)
Definition env : Env :=
  {| perf_counter := fun n => Z.of_nat n * 1000;
     strategy_name := fun s =>
       match s with
       | 1%nat => "Capture" | 2%nat => "Detect" | 3%nat => "Reject"
       | 4%nat => "Alarm" | 5%nat => "Faulty" | 6%nat => "Halt"
       | 10%nat => "Discard" | 11%nat => "Drop"
       | _ => "Other"
       end;
     pipeline_aware := fun _ => true;
     strategy_execute := fun s _ input =>
       match s with
       | 1%nat => ([], ExecReturn true (Some 7%nat))
       | 3%nat => ([], ExecReturn false input)
       | 4%nat =>
           ([APublish Ball 0%nat (Some "S4") EventPriority.CRITICAL],
            ExecReturn true input)
       | 5%nat => ([], ExecRaise (StrategyExecutionError "boom"))
       | 6%nat => ([APipeline CallStop], ExecReturn true input)
       | 10%nat =>
           ([APublish Tick 0%nat None EventPriority.DEFERRED],
            ExecReturn false None)
       | 11%nat => ([], ExecReturn false None)
       | _ => ([], ExecReturn true input)
       end;
     strategy_cleanup := fun _ => None;
     callback_run := fun cb _ =>
       match cb with
       | 1%nat => ([ASubscribe Ball 2%nat], None)
       | 3%nat =>
           ([APublish Ball 1%nat None EventPriority.DEFERRED], None)
       | _ => ([], None)
       end |}.

Definition make_config (mode : PipelineMode.t) (chain : list nat)
    : PipelineConfig :=
  {| cfg_name := "pipe"; cfg_strategies := chain; cfg_mode := mode;
     cfg_max_fps := 60; cfg_enable_fps_control := false;
     cfg_enable_profiling := false;
     cfg_router_factory := Some (EventRouter_init true true);
     cfg_event_policies := [] |}.

(** An empty pipeline object, used where construction fails. *)
Definition blank : World :=
  {| pipe :=
       {| config := make_config PipelineMode.LOOP []; _name := "";
          _mode := PipelineMode.LOOP;
          event_router := EventRouter_init false false;
          context := PipelineContext_init;
          _state := PipelineState.IDLE; _trigger_event := false;
          _frame_interrupted := false; p_log_policy := LogPolicies.default;
          _strategies := 0%nat; _last_time := None |};
     lists := ∅; frames := ∅; strategy_attrs := ∅; reads := 0%nat;
     log := []; trace := [] |}.

(** [Pipeline(config)] *)
Definition built (mode : PipelineMode.t) (chain : list nat) : World :=
  match Pipeline_init env (make_config mode chain) with
  | inr w => w
  | inl _ => blank
  end.

(** [Pipeline(config)] followed by [start()]. *)
Definition started (mode : PipelineMode.t) (chain : list nat) : World :=
  start (built mode chain).

(** A started pipeline on which the attribute [_last_time] has been
    assigned from outside. *)
Definition anchored (mode : PipelineMode.t) (chain : list nat) : World :=
  on_pipe (with_last_time (Some 0)) (started mode chain).

(** The world a call ends in. *)
Definition after {A} (r : Res A) : World :=
  match r with
  | Ok _ w | Raise _ w => w
  | OutOfFuel => blank
  end.

(** A router with one subscriber on the class topic, after a deferred
    publish on the string topic and one on the class topic. *)
Definition queued : World :=
  after (publish env 5 Ball 1%nat None EventPriority.DEFERRED
    (after (publish env 5 Tick 0%nat None EventPriority.DEFERRED
       (subscribe Ball 4%nat (started PipelineMode.LOOP []))))).




(** An executor with a hub, driving pipeline 0 (capture, alarm, detect:
    the alarm strategy publishes at CRITICAL priority) and pipeline 1
    (capture, detect). *)
Definition system : System :=
  {| executor :=
       {| ex_name := "MainExecutor"; ex_event_hub := true;
          _pipelines := [0%nat; 1%nat]; _running := true;
          ex_log_policy := LogPolicies.default |};
     objects :=
       {[ 0%nat := anchored PipelineMode.LOOP [1%nat; 4%nat; 2%nat];
          1%nat := anchored PipelineMode.LOOP [1%nat; 2%nat] ]};
     hub_published := []; sys_log := []; naps := 0%nat |}.

(** The state and frame index of an attached pipeline object. *)
Definition object_state (sys : System) (pid : nat) : option PipelineState.t :=
  state <$> objects sys !! pid.

Definition object_frame_index (sys : System) (pid : nat) : option Z :=
  frame_index <$> objects sys !! pid.

Definition object_errors (sys : System) (pid : nat) : list LogMsg :=
  match objects sys !! pid with
  | Some w =>
      omap (fun r =>
              match severity r with
              | SevError => Some (message r)
              | _ => None
              end) (log w)
  | None => []
  end.

End Sample.
(* ===================================================================== *)
(** * Further parts of the runtime *)
(* ===================================================================== *)

(** ** core/events/router.py: the remaining methods *)

(** [EventRouter.mute_log_for] *)
Definition mute_log_for (event_type : EventType) : World -> World :=
  set_event_policy event_type EventPolicies.silent.

(** [EventRouter.set_log_policy] *)
Definition router_set_log_policy (policy : LogPolicy) : World -> World :=
  on_router (with_router_log_policy policy).

(** The policy [trace_publish] finds for a topic:
    [self._event_policies.get(event_type, EventPolicy.normal())]. *)
Definition policy_of (w : World) (event_type : EventType) : EventPolicy :=
  default EventPolicies.normal (_event_policies (router w) !! event_type).

(** Whether [trace_publish] has a [PUB] line to write for a topic: its
    event rule is NORMAL and the router's log policy allows INFO. *)
Definition pub_line_due (w : World) (event_type : EventType) : bool :=
  bool_decide (rule (policy_of w event_type) = EventRule.NORMAL)
  && is_allowed (r_log_policy (router w)) LogLevel.INFO.

(** The name [trace_publish] prints for a topic. *)
Definition event_name_of (event_type : EventType) : string :=
  match dunder_name event_type with
  | Some n => n
  | None => py_str event_type
  end.

(** ** core/runtime/pipeline.py: the constructor's loop over the policies *)

(** [for event_type, policy in config.event_policies.items(): ...], on the
    policy table alone. *)
Definition install_policies (l : list (EventType * EventPolicy))
    (m : gmap EventType EventPolicy) : gmap EventType EventPolicy :=
  foldl (fun m '(t, p) => <[t := p]> m) m l.

(** ** core/runtime/context.py: the blackboard *)

(** [data_type in self._data_store] *)
Definition has_data (data_type : nat) (self : PipelineContext) : bool :=
  bool_decide (is_Some (_data_store self !! data_type)).

(** [self._data_store[type(data_obj)] = data_obj]; [data_type] is the class
    of [data_obj]. *)
Definition set_data (data_type data_obj : nat) (self : PipelineContext)
    : PipelineContext :=
  {| _frame_index := _frame_index self; _delta_time := _delta_time self;
     _data_store := <[data_type := data_obj]> (_data_store self) |}.

(** [get_data]: a missing entry is created by calling [data_type()], which
    answers an instance or raises; [construct] is that call. *)
Definition get_data (construct : nat -> exn + nat) (data_type : nat)
    (self : PipelineContext) : (exn + nat) * PipelineContext :=
  match _data_store self !! data_type with
  | Some v => (inr v, self)
  | None =>
      match construct data_type with
      | inr v => (inr v, set_data data_type v self)
      | inl e => (inl e, self)
      end
  end.

(** ** core/runtime/layout.py and [Pipeline.layout] *)

Record PipelineLayout := {
  _index_to_name : gmap nat string;
  _name_to_index : gmap string (list nat);
  _ordered_items : list (nat * string)
}.

(** [enumerate(l)], counting from [start]. *)
Fixpoint enumerate_from {A} (start : nat) (l : list A) : list (nat * A) :=
  match l with
  | [] => []
  | x :: rest => (start, x) :: enumerate_from (S start) rest
  end.

(** One turn of [for idx, strategy in enumerate(current)]: [name_map] is a
    [defaultdict(list)]. *)
Definition layout_turn (env : Env) (acc : PipelineLayout)
    (item : nat * nat) : PipelineLayout :=
  let '(idx, strategy) := item in
  let s_name := strategy_name env strategy in
  {| _index_to_name := <[idx := s_name]> (_index_to_name acc);
     _name_to_index :=
       <[s_name := default [] (_name_to_index acc !! s_name) ++ [idx]]>
         (_name_to_index acc);
     _ordered_items := _ordered_items acc ++ [(idx, s_name)] |}.

Definition layout_of (env : Env) (current : list nat) : PipelineLayout :=
  foldl (layout_turn env)
    {| _index_to_name := ∅; _name_to_index := ∅; _ordered_items := [] |}
    (enumerate_from 0 current).

(** [Pipeline.layout] *)
Definition layout (env : Env) (w : World) : PipelineLayout :=
  layout_of env (strategies w).

(** ** core/runtime/executor.py: attaching and finding pipelines *)

(** [PipelineExecutor.__init__] *)
Definition PipelineExecutor_init (name : string) (event_hub : bool)
    : PipelineExecutor :=
  {| ex_name := name; ex_event_hub := event_hub; _pipelines := [];
     _running := false; ex_log_policy := LogPolicies.default |}.

(** [pipe.name] for an attached pipeline object. *)
Definition pipeline_name (sys : System) (pid : nat) : string :=
  default EmptyString ((fun w => _name (pipe w)) <$> objects sys !! pid).

(** [PipelineExecutor.add_pipeline] *)
Definition add_pipeline (pid : nat) (sys : System) : System :=
  executor_log LogLevel.INFO SevInfo (MsgAttached (pipeline_name sys pid))
    (set_pipelines (_pipelines (executor sys) ++ [pid]) sys).

(** [for p in self._pipelines: if p.name == name: return p] *)
Fixpoint find_by_name (sys : System) (name : string) (l : list nat)
    : option nat :=
  match l with
  | [] => None
  | p :: rest =>
      if bool_decide (pipeline_name sys p = name) then Some p
      else find_by_name sys name rest
  end.

(** [PipelineExecutor.get_pipeline] *)
Definition get_pipeline (name : string) (sys : System) : option nat :=
  find_by_name sys name (_pipelines (executor sys)).

(** ** core/factories/pipeline_factory.py *)

(** [PipelineFactory.create_pipeline]; [default_log_policy] is the class
    attribute [_default_log_policy], [event_hub] tells whether a hub is
    passed, and the router factory is the closure building
    [EventRouter(pipeline_ref, event_hub)]. *)
Definition create_pipeline (env : Env) (default_log_policy : LogPolicy)
    (name : string) (chain : list nat) (event_hub : bool)
    (mode : PipelineMode.t) : exn + World :=
  let config :=
    {| cfg_name := name; cfg_strategies := chain; cfg_mode := mode;
       cfg_max_fps := 60; cfg_enable_fps_control := false;
       cfg_enable_profiling := false;
       cfg_router_factory := Some (EventRouter_init true event_hub);
       cfg_event_policies := [] |} in
  match Pipeline_init env config with
  | inl e => inl e
  | inr w => inr (set_log_policy default_log_policy w)
  end.

(* ===================================================================== *)
(** ** core/events/hub.py *)
(* ===================================================================== *)

(** The log lines of the hub. *)
Inductive HubLogMsg :=
  | MsgHubInitialized
  | MsgHubDispatchError (event_type : EventType) (e : exn).

Record HubLogRecord := {
  hub_severity : Severity;
  hub_source : string;
  hub_message : HubLogMsg
}.

(** [EventHub] instance attributes. *)
Record EventHub := {
  hub_subscribers : gmap EventType (list nat);
  hub_log_policy : LogPolicy
}.

(** The hub, its log lines and the callbacks it has invoked, in order. *)
Record HubWorld := {
  hub : EventHub;
  hub_log : list HubLogRecord;
  hub_invoked : list (nat * EventType * Data)
}.

(** What a hub callback does besides computing: calls on the hub it was
    invoked by. *)
Inductive HubAction :=
  | HubSubscribe (event_type : EventType) (callback : nat)
  | HubPublish (event_type : EventType) (data : Data)
  | HubClear
  | HubSetLogPolicy (policy : LogPolicy).

(** [callback(data)] for the callbacks on the hub: the calls it makes, then
    what it raises, if anything. *)
Definition HubEnv := nat -> Data -> list HubAction * option exn.

(** [EventHub.__init__]: the first line is logged with the hub as source,
    under its default policy. *)
Definition EventHub_init : HubWorld :=
  {| hub := {| hub_subscribers := ∅; hub_log_policy := LogPolicies.default |};
     hub_log :=
       if is_allowed LogPolicies.default LogLevel.INFO
       then [{| hub_severity := SevInfo; hub_source := "EventHub";
                hub_message := MsgHubInitialized |}]
       else [];
     hub_invoked := [] |}.

Definition on_hub (f : EventHub -> EventHub) (h : HubWorld) : HubWorld :=
  {| hub := f (hub h); hub_log := hub_log h; hub_invoked := hub_invoked h |}.

(** [EventHub.set_log_policy] *)
Definition hub_set_log_policy (policy : LogPolicy) : HubWorld -> HubWorld :=
  on_hub (fun h =>
    {| hub_subscribers := hub_subscribers h; hub_log_policy := policy |}).

(** [EventHub.subscribe] *)
Definition hub_subscribe (event_type : EventType) (callback : nat)
    : HubWorld -> HubWorld :=
  on_hub (fun h =>
    {| hub_subscribers :=
         <[event_type :=
             default [] (hub_subscribers h !! event_type) ++ [callback]]>
           (hub_subscribers h);
       hub_log_policy := hub_log_policy h |}).

(** [EventHub.clear] *)
Definition hub_clear : HubWorld -> HubWorld :=
  on_hub (fun h =>
    {| hub_subscribers := ∅; hub_log_policy := hub_log_policy h |}).

(** [SysLogger.error("EventHub", ...)]: the source is a string, so no
    policy is consulted. *)
Definition hub_dispatch_error (event_type : EventType) (e : exn)
    (h : HubWorld) : HubWorld :=
  {| hub := hub h;
     hub_log := hub_log h ++
       [{| hub_severity := SevError; hub_source := "EventHub";
           hub_message := MsgHubDispatchError event_type e |}];
     hub_invoked := hub_invoked h |}.

Section Hub.

Variable henv : HubEnv.

(** [publish] is the hub called back from a callback; [None] stands for an
    evaluation that ran out of fuel. *)
Definition hub_do_action
    (publish : EventType -> Data -> HubWorld -> option HubWorld)
    (a : HubAction) (h : HubWorld) : option HubWorld :=
  match a with
  | HubSubscribe t cb => Some (hub_subscribe t cb h)
  | HubPublish t d => publish t d h
  | HubClear => Some (hub_clear h)
  | HubSetLogPolicy p => Some (hub_set_log_policy p h)
  end.

Fixpoint hub_run_actions
    (publish : EventType -> Data -> HubWorld -> option HubWorld)
    (acts : list HubAction) (h : HubWorld) : option HubWorld :=
  match acts with
  | [] => Some h
  | a :: rest =>
      match hub_do_action publish a h with
      | Some h' => hub_run_actions publish rest h'
      | None => None
      end
  end.

(** [try: cb(data)  except Exception as e: SysLogger.error(...)] *)
Definition hub_invoke
    (publish : EventType -> Data -> HubWorld -> option HubWorld)
    (cb : nat) (event_type : EventType) (data : Data) (h : HubWorld)
    : option HubWorld :=
  let '(script, raised) := henv cb data in
  let h1 :=
    {| hub := hub h; hub_log := hub_log h;
       hub_invoked := hub_invoked h ++ [(cb, event_type, data)] |} in
  match hub_run_actions publish script h1 with
  | Some h2 =>
      match raised with
      | Some e => Some (hub_dispatch_error event_type e h2)
      | None => Some h2
      end
  | None => None
  end.

(** [for cb in callbacks: ...] *)
Fixpoint hub_for_each
    (publish : EventType -> Data -> HubWorld -> option HubWorld)
    (callbacks : list nat) (event_type : EventType) (data : Data)
    (h : HubWorld) : option HubWorld :=
  match callbacks with
  | [] => Some h
  | cb :: rest =>
      match hub_invoke publish cb event_type data h with
      | Some h' => hub_for_each publish rest event_type data h'
      | None => None
      end
  end.

(** [EventHub.publish]: the callbacks are copied before the loop. *)
Fixpoint hub_publish (fuel : nat) (event_type : EventType) (data : Data)
    (h : HubWorld) : option HubWorld :=
  match fuel with
  | O => None
  | S fuel' =>
      let callbacks :=
        default [] (hub_subscribers (hub h) !! event_type) in
      hub_for_each (hub_publish fuel') callbacks event_type data h
  end.

End Hub.

(* ===================================================================== *)
(** ** Notions used in the statements about these parts *)
(* ===================================================================== *)

(** Every strategy of the chain carries the log policy of the pipeline. *)
Definition policies_agree (w : World) : Prop :=
  forall s, s ∈ strategies w ->
    s_log_policy <$> (strategy_attrs w !! s) = Some (p_log_policy (pipe w)).

Definition keeps_policies_agreeing (w w' : World) : Prop :=
  policies_agree w -> policies_agree w'.

(** The pipeline records agree except for the chain reference. *)
Definition same_but_chain (p p' : Pipeline) : Prop :=
  same_fixed_fields p p' /\ context p' = context p /\ _state p' = _state p /\
  _trigger_event p' = _trigger_event p /\
  _frame_interrupted p' = _frame_interrupted p /\
  p_log_policy p' = p_log_policy p.

(** Between the two worlds only the log has grown. *)
Definition only_logs (w w' : World) : Prop :=
  pipe w' = pipe w /\ lists w' = lists w /\ frames w' = frames w /\
  strategy_attrs w' = strategy_attrs w /\ reads w' = reads w /\
  trace w' = trace w.

(** The handler makes no call on the router or the pipeline: it computes
    and possibly raises. *)
Definition quiet_handler (env : Env) (d : Data) (cb : nat) : Prop :=
  (callback_run env cb d).1 = [].

(** An interrupt requested in the first world is still pending in the
    second. *)
Definition keeps_interrupt (w w' : World) : Prop :=
  _frame_interrupted (pipe w) = true -> _frame_interrupted (pipe w') = true.

(** The sleeps recorded in a trace, in order. *)
Definition sleeps (tr : list Event) : list Q :=
  omap (fun e => match e with EvSleep t => Some t | _ => None end) tr.

(** Between the two worlds the clock has not been read, the configuration
    is the same and nothing has slept. *)
Definition keeps_time (w w' : World) : Prop :=
  reads w' = reads w /\ config (pipe w') = config (pipe w) /\
  exists tr, trace w' = trace w ++ tr /\ sleeps tr = [].

(** What is left of the target interval, one second over [max_fps], after
    a frame that took [duration] ticks. *)
Definition rest_of_interval (cfg : PipelineConfig) (duration : Z) : Q :=
  (inject_Z ticks_per_second / inject_Z (cfg_max_fps cfg)
   - inject_Z duration)%Q.

(** The sleeps of a frame that took [duration] ticks: with frame-rate
    control on and time left in the interval, one sleep for the time
    left. *)
Definition pacing_sleep (cfg : PipelineConfig) (duration : Z) : list Q :=
  if cfg_enable_fps_control cfg && Qgtb (rest_of_interval cfg duration) 0
  then [rest_of_interval cfg duration] else [].


(** Between the two worlds the deferred queue has been used as a FIFO:
    what was queued, followed by what was enqueued meanwhile, is what was
    taken meanwhile, followed by what is queued now. *)
Definition queue_conserved (w w' : World) : Prop :=
  exists tr, trace w' = trace w ++ tr /\
             deferred_queue w ++ enqueued tr = popped tr ++ deferred_queue w'.

(** The attached pipeline object is TERMINATED. *)
Definition terminated_in (sys : System) (pid : nat) : Prop :=
  state <$> objects sys !! pid = Some PipelineState.TERMINATED.

#[global] Instance terminated_in_dec sys pid : Decision (terminated_in sys pid).
Proof. unfold terminated_in. apply _. Defined.

(** What one visit of the executor's loop does to a pipeline object: a
    terminated one is left alone, any other is stepped. *)
Definition visited (env : Env) (fuel : nat) (w : World) : option World :=
  if bool_decide (state w = PipelineState.TERMINATED) then Some w
  else world_of (step env fuel w).

(** The visit found work done: the pipeline was live and its step answered
    [True]. *)
Definition worked (env : Env) (fuel : nat) (sys : System) (pid : nat) : bool :=
  match objects sys !! pid with
  | Some w =>
      negb (bool_decide (state w = PipelineState.TERMINATED))
      && match step env fuel w with Ok true _ => true | _ => false end
  | None => false
  end.

(** The callback does not publish on the hub. *)
Definition publishes_nothing (henv : HubEnv) (data : Data) (cb : nat) : Prop :=
  forall t d, HubPublish t d ∉ (henv cb data).1.

(** The error lines a dispatch over [callbacks] writes: one for each
    callback that raises, in order. *)
Definition hub_errors (henv : HubEnv) (event_type : EventType) (data : Data)
    (callbacks : list nat) : list HubLogRecord :=
  omap (fun cb =>
          match (henv cb data).2 with
          | Some e =>
              Some {| hub_severity := SevError; hub_source := "EventHub";
                      hub_message := MsgHubDispatchError event_type e |}
          | None => None
          end) callbacks.

(** The positions at which [name] occurs in [names], in increasing order. *)
Definition indices_of (name : string) (names : list string) : list nat :=
  (filter (fun p => p.2 = name) (enumerate_from 0 names)).*1.

(** *** Further sample configurations *)

Module Scene.

(** The sample environment with three changes: strategy 7 publishes an
    INTERRUPT event on the ball topic before passing its frame on, the
    cleanup of strategy 2 raises, and handler 5 raises. *)
Definition env : Env :=
  {| perf_counter := perf_counter Sample.env;
     strategy_name := fun s =>
       match s with
       | 7%nat => "Interrupter"
       | _ => strategy_name Sample.env s
       end;
     pipeline_aware := pipeline_aware Sample.env;
     strategy_execute := fun s fi input =>
       match s with
       | 7%nat =>
           ([APublish Sample.Ball 0%nat (Some "S7") EventPriority.INTERRUPT],
            ExecReturn true input)
       | _ => strategy_execute Sample.env s fi input
       end;
     strategy_cleanup := fun s =>
       match s with
       | 2%nat => Some (Exception "busy")
       | _ => None
       end;
     callback_run := fun cb d =>
       match cb with
       | 5%nat => ([], Some (ValueError "bad payload"))
       | _ => callback_run Sample.env cb d
       end |}.

(** A started pipeline whose router has handlers 4 and 5 on the ball
    topic. *)
Definition listening : World :=
  subscribe Sample.Ball 5%nat
    (subscribe Sample.Ball 4%nat (Sample.started PipelineMode.LOOP [])).

(** The chain capture, interrupter, detect on a running pipeline with its
    timing anchor set. *)
Definition interrupting : World :=
  Sample.anchored PipelineMode.LOOP [1%nat; 7%nat; 2%nat].

(** A running LOOP pipeline with frame-rate control switched on (60 frames
    per second) and its timing anchor set. *)
Definition paced : World :=
  match Pipeline_init Sample.env
          {| cfg_name := "paced"; cfg_strategies := [1%nat; 2%nat];
             cfg_mode := PipelineMode.LOOP; cfg_max_fps := 60;
             cfg_enable_fps_control := true; cfg_enable_profiling := false;
             cfg_router_factory := Some (EventRouter_init true true);
             cfg_event_policies := [] |} with
  | inr w => on_pipe (with_last_time (Some 0)) (start w)
  | inl _ => Sample.blank
  end.

(** An executor driving a terminated pipeline (0), a running one with its
    anchor set (1) and a paused one (2). *)
Definition fleet : System :=
  {| executor :=
       {| ex_name := "MainExecutor"; ex_event_hub := true;
          _pipelines := [0%nat; 1%nat; 2%nat]; _running := true;
          ex_log_policy := LogPolicies.default |};
     objects :=
       {[ 0%nat := stop Sample.env (Sample.started PipelineMode.LOOP [1%nat]);
          1%nat := Sample.anchored PipelineMode.LOOP [1%nat; 2%nat];
          2%nat := pause (Sample.started PipelineMode.LOOP [1%nat]) ]};
     hub_published := []; sys_log := []; naps := 0%nat |}.

(** An executor whose pipelines are one idle and one paused. *)
Definition resting : System :=
  {| executor :=
       {| ex_name := "MainExecutor"; ex_event_hub := true;
          _pipelines := [0%nat; 1%nat]; _running := true;
          ex_log_policy := LogPolicies.default |};
     objects :=
       {[ 0%nat := Sample.built PipelineMode.LOOP [1%nat];
          1%nat := pause (Sample.started PipelineMode.LOOP [1%nat]) ]};
     hub_published := []; sys_log := []; naps := 0%nat |}.

(** Hub callbacks: callback 1 subscribes callback 3 to the alert topic and
    raises; the others do nothing. *)
Definition Alert : EventType := TStr "SYSTEM_ALERT".

Definition henv : HubEnv := fun cb _ =>
  match cb with
  | 1%nat => ([HubSubscribe Alert 3%nat], Some (Exception "handler failed"))
  | _ => ([], None)
  end.

(** A hub whose log policy is silent, with callbacks 1 and 2 on the alert
    topic. *)
Definition alerting : HubWorld :=
  hub_subscribe Alert 2%nat
    (hub_subscribe Alert 1%nat
       (hub_set_log_policy LogPolicies.silent EventHub_init)).

End Scene.


(* ===================================================================== *)
(** ** Reasoning principles *)
(* ===================================================================== *)

(** *** Relating the world before and after a computation *)

Section Respects.

Variable R : World -> World -> Prop.
Hypothesis R_refl : forall w, R w w.
Hypothesis R_trans : forall a b c, R a b -> R b c -> R a c.

Lemma respects_ret {A} (a : A) : respects R (ret a).
Proof. intros w w' [= <-]. apply R_refl. Qed.

Lemma respects_raise {A} (e : exn) : respects R (@raise A e).
Proof. intros w w' [= <-]. apply R_refl. Qed.

Lemma respects_gets {A} (f : World -> A) : respects R (gets f).
Proof. intros w w' [= <-]. apply R_refl. Qed.

Lemma respects_modify (f : World -> World) :
  (forall w, R w (f w)) -> respects R (modify f).
Proof. intros H w w' [= <-]. apply H. Qed.

Lemma respects_bind {A B} (m : M A) (f : A -> M B) :
  respects R m -> (forall a, respects R (f a)) -> respects R (bind m f).
Proof.
  intros Hm Hf w w'. unfold bind.
  destruct (m w) as [a w1|e w1|] eqn:E; simpl; intros H.
  - eapply R_trans; [apply Hm; rewrite E; reflexivity|].
    eapply Hf; eassumption.
  - injection H as <-. apply Hm. rewrite E. reflexivity.
  - discriminate.
Qed.

Lemma respects_bind_at {A B} (m : M A) (f : A -> M B) w w' :
  respects R m -> (forall a, respects R (f a)) ->
  world_of (bind m f w) = Some w' -> R w w'.
Proof. intros Hm Hf. apply respects_bind; assumption. Qed.

Lemma respects_try_except {A} (m : M A) (h : exn -> M A) :
  respects R m -> (forall e, respects R (h e)) -> respects R (try_except m h).
Proof.
  intros Hm Hh w w'. unfold try_except.
  destruct (m w) as [a w1|e w1|] eqn:E; simpl; intros H.
  - injection H as <-. apply Hm. rewrite E. reflexivity.
  - eapply R_trans; [apply Hm; rewrite E; reflexivity|].
    eapply Hh; eassumption.
  - discriminate.
Qed.

Lemma respects_ext {A} (m m' : M A) :
  (forall w, m w = m' w) -> respects R m -> respects R m'.
Proof. intros E H w w'. rewrite <- E. apply H. Qed.

End Respects.

(** A pipeline call always ends, in the world [after_call] names. *)
Lemma pipeline_call_world env c w :
  world_of (pipeline_call env c w) = Some (after_call env c w).
Proof.
  unfold after_call. destruct c; try reflexivity.
  simpl. unfold insert_strategy. destruct (py_insert _ _ _); reflexivity.
Qed.

(** What [insert_strategy] leaves: the strategy bound, and the edited copy
    installed unless the index overflows. *)
Lemma after_call_insert env i s w :
  (py_insert i s (strategies (_bind_pipeline_context env s w))
   = inl OverflowError /\
   after_call env (CallInsertStrategy i s) w = _bind_pipeline_context env s w)
  \/
  (exists l,
     py_insert i s (strategies (_bind_pipeline_context env s w)) = inr l /\
     after_call env (CallInsertStrategy i s) w
     = pipeline_info (MsgStrategyInserted i (strategy_name env s))
         (install_chain l (_bind_pipeline_context env s w))).
Proof.
  unfold after_call. simpl. unfold insert_strategy.
  destruct (py_insert _ _ _) as [e|l] eqn:E.
  - left. split; [|reflexivity]. unfold py_insert in E.
    destruct (_ || _); [congruence|discriminate].
  - right. exists l. split; reflexivity.
Qed.

(** *** The router's evaluator preserves what its primitives preserve *)

Section ExecRespects.

Variable env : Env.
Variable R : World -> World -> Prop.
Hypothesis R_refl : forall w, R w w.
Hypothesis R_trans : forall a b c, R a b -> R b c -> R a c.
Hypothesis R_log : forall f w, R w (on_log f w).
Hypothesis R_invoke : forall cb t d w, R w (record (EvInvoke cb t d) w).
Hypothesis R_interrupt : forall w, R w (request_frame_interrupt w).
Hypothesis R_enqueue : forall t d w, R w (enqueue t d w).
Hypothesis R_touch : forall t w, R w (touch_subscribers t w).
Hypothesis R_subscribe : forall t cb w, R w (subscribe t cb w).
Hypothesis R_policy : forall t p w, R w (set_event_policy t p w).
Hypothesis R_call : forall c w, R w (after_call env c w).

Lemma respects_router_log level sev m : respects R (router_log level sev m).
Proof.
  intros w w'. unfold router_log.
  destruct (is_allowed _ _); [|intros [= <-]; apply R_refl].
  destruct (router_name w); intros [= <-]; [apply R_refl|apply R_log].
Qed.

Lemma respects_pipeline_call c : respects R (pipeline_call env c).
Proof.
  intros w w'. rewrite pipeline_call_world. intros [= <-]. apply R_call.
Qed.

Lemma respects_trace_publish func t d s p :
  respects R (func t d s p) -> respects R (trace_publish func t d s p).
Proof.
  intros Hf w w'. unfold trace_publish.
  destruct (is_dropped _).
  { intros [= <-]. apply R_refl. }
  destruct (is_mute _); [apply Hf|].
  destruct (_ || _).
  - apply (respects_bind_at R R_trans (router_info _) (fun _ => func t d s p));
      [apply respects_router_log|intros _; exact Hf].
  - apply (respects_bind_at R R_trans (ret tt) (fun _ => func t d s p));
      [apply respects_ret, R_refl|intros _; exact Hf].
Qed.

Lemma respects_publish_body call t d s p :
  (forall c, respects R (call c)) -> respects R (publish_body call t d s p).
Proof.
  intros Hc. unfold publish_body.
  case_bool_decide; [apply respects_raise; assumption|].
  destruct (EventPriority.geb _ _).
  - apply respects_bind; auto. intros _.
    case_bool_decide; [|apply respects_ret; assumption].
    intros w w'. destruct (_pipeline (router w)).
    + intros [= <-]. apply R_interrupt.
    + apply respects_router_log.
  - apply respects_modify. apply R_enqueue.
Qed.

Lemma respects_trace_dispatch func t d :
  respects R (func t d) -> respects R (trace_dispatch func t d).
Proof.
  intros Hf w w'. unfold trace_dispatch.
  destruct (is_allowed _ _); [|apply Hf].
  destruct (dunder_name t).
  - destruct (default _ _).
    + apply (respects_bind_at R R_trans (router_warning _) (fun _ => func t d));
        [apply respects_router_log|intros _; exact Hf].
    + apply (respects_bind_at R R_trans (router_info _) (fun _ => func t d));
        [apply respects_router_log|intros _; exact Hf].
  - intros [= <-]. apply R_refl.
Qed.

Lemma respects_run_callback call cb t d :
  (forall c, respects R (call c)) -> respects R (run_callback env call cb t d).
Proof.
  intros Hc. unfold run_callback. destruct (callback_run env cb d) as [script raised].
  apply respects_bind; auto.
  { apply respects_modify. apply R_invoke. }
  intros _. apply respects_bind; auto. intros _.
  destruct raised; [apply respects_raise|apply respects_ret]; assumption.
Qed.

Lemma respects_guarded_callback call cb t d :
  (forall c, respects R (call c)) -> respects R (guarded_callback call cb t d).
Proof.
  intros Hc. unfold guarded_callback. apply respects_try_except; auto.
  intros e. destruct (dunder_name t).
  - apply respects_router_log.
  - apply respects_raise, R_refl.
Qed.

Lemma respects_dispatch_loop call t d i :
  (forall c, respects R (call c)) -> respects R (dispatch_loop call t d i).
Proof.
  intros Hc w w'. unfold dispatch_loop.
  destruct (subscribers_of w t !! i) as [cb|].
  - apply respects_bind; auto. apply respects_guarded_callback; assumption.
  - intros [= <-]. apply R_refl.
Qed.

Lemma respects_run_actions call acts :
  (forall c, respects R (call c)) -> respects R (run_actions env call acts).
Proof.
  intros Hc. destruct acts as [|a rest]; simpl.
  - apply respects_ret; assumption.
  - apply respects_bind; auto.
    destruct a; simpl; auto using respects_pipeline_call;
      apply respects_modify; auto.
Qed.

Lemma respects_exec fuel c : respects R (exec env fuel c).
Proof.
  revert c. induction fuel as [|fuel IH]; intros c.
  - intros w w' [=].
  - destruct c; simpl.
    + apply respects_trace_publish, respects_publish_body, IH.
    + apply respects_trace_dispatch. unfold _dispatch_now_body.
      apply respects_bind; auto. apply respects_modify, R_touch.
    + apply respects_dispatch_loop, IH.
    + apply respects_run_callback, IH.
    + apply respects_run_actions, IH.
Qed.

(** The same for the parts of [Pipeline.step]. *)

Hypothesis R_pop : forall t d q w, R w (popleft t d q w).
Hypothesis R_release : forall cd w, R w (release_data cd w).
Hypothesis R_execute : forall s i w, R w (record (EvExecute s i) w).
Hypothesis R_failed : forall s i w, R w (record (EvFailed s i) w).
Hypothesis R_sleep : forall t w, R w (record (EvSleep t) w).
Hypothesis R_reads : forall w, R w (on_reads S w).

Lemma respects_drain fuel count : respects R (drain env fuel count).
Proof.
  induction count as [|count IH]; simpl.
  - apply respects_ret; assumption.
  - intros w w'. destruct (deferred_queue w) as [|[t d] rest].
    + intros [= <-]. apply R_refl.
    + intros H. eapply R_trans; [apply R_pop|].
      assert (Hb : respects R
                (bind (_dispatch_now env fuel t d) (fun _ => drain env fuel count))).
      { apply respects_bind; auto. apply respects_exec. }
      apply Hb. exact H.
Qed.

Lemma respects_process_deferred fuel : respects R (process_deferred env fuel).
Proof.
  intros w w'. unfold process_deferred.
  destruct (deferred_queue w) as [|x q] eqn:E.
  - intros [= <-]. apply R_refl.
  - destruct (is_allowed _ _).
    + apply (respects_bind_at R R_trans (router_info MsgFlush)
               (fun _ w1 => drain env fuel (length (deferred_queue w1)) w1));
        [apply respects_router_log|intros _ w1 w2; apply respects_drain].
    + apply (respects_bind_at R R_trans (ret tt)
               (fun _ w1 => drain env fuel (length (deferred_queue w1)) w1));
        [apply respects_ret, R_refl|intros _ w1 w2; apply respects_drain].
Qed.

Lemma respects_run_strategy fuel s cd : respects R (run_strategy env fuel s cd).
Proof.
  intros w w'. unfold run_strategy.
  destruct (strategy_execute env s (frame_index w) cd) as [script result].
  apply respects_bind; auto.
  { apply respects_modify, R_execute. }
  intros _. apply respects_bind; auto.
  { apply respects_exec. }
  intros _. destruct result; [apply respects_ret|apply respects_raise]; auto.
Qed.

Lemma respects_walk fuel chain i cd dw : respects R (walk env fuel chain i cd dw).
Proof.
  revert i cd dw. induction fuel as [|fuel IH]; intros i cd dw w w'; simpl.
  - intros [=].
  - destruct (deref w chain !! i) as [s|].
    2:{ intros [= <-]. apply R_refl. }
    case_bool_decide.
    { intros [= <-]. apply R_release. }
    destruct (_frame_interrupted (pipe w)).
    { destruct (cfg_enable_profiling _); intros [= <-];
        [apply R_log|apply R_refl]. }
    destruct (run_strategy env fuel s cd w) as [[ok d'] w1|e w1|] eqn:E.
    + assert (R w w1) by (eapply respects_run_strategy; rewrite E; reflexivity).
      destruct ok; simpl.
      * intros H'. eapply R_trans; [eassumption|]. eapply IH; exact H'.
      * intros [= <-]. eapply R_trans; [eassumption|].
        eapply R_trans; [apply R_failed|apply R_release].
    + assert (R w w1) by (eapply respects_run_strategy; rewrite E; reflexivity).
      intros [= <-]. eapply R_trans; [eassumption|].
      eapply R_trans; [apply R_log|].
      eapply R_trans; [apply R_failed|apply R_release].
    + intros [=].
Qed.

Lemma respects_read_clock : respects R (read_clock env).
Proof. intros w w' [= <-]. apply R_reads. Qed.

Lemma respects_handle_frame_pacing duration :
  respects R (_handle_frame_pacing duration).
Proof.
  intros w w'. unfold _handle_frame_pacing.
  destruct (_ =? 0).
  { intros [= <-]. apply R_refl. }
  destruct (_ && cfg_enable_profiling _);
    destruct (_ && _); intros [= <-];
    repeat first [apply R_refl | apply R_log | apply R_sleep
                 | eapply R_trans; [apply R_log|] ].
Qed.

Lemma respects_step_finally fuel t0 cd :
  respects R (step_finally env fuel t0 cd).
Proof.
  unfold step_finally.
  apply respects_bind; auto using respects_process_deferred.
  intros _. apply respects_bind; auto using respects_modify.
  intros _. apply respects_bind; auto using respects_read_clock.
  intros t1. apply respects_handle_frame_pacing.
Qed.

End ExecRespects.

(** *** What the pipeline calls leave alone *)

(** Case analysis on a pipeline call, down to the method it runs. *)
Ltac by_call c :=
  destruct c; unfold after_call, pipeline_call, modify; cbv beta iota.

(** The two ways [insert_strategy] ends. *)
Ltac by_insert :=
  unfold insert_strategy; cbv beta zeta;
  match goal with
  | |- context [py_insert ?i ?s ?l] => destruct (py_insert i s l)
  end; cbv beta iota.

Section PipelineCalls.

Variable env : Env.

Lemma pipe_foldl_cleanup_one l w :
  pipe (foldl (cleanup_one env) w l) = pipe w.
Proof.
  revert w. induction l as [|s l IH]; intros w; simpl; [reflexivity|].
  rewrite IH. unfold cleanup_one. destruct (strategy_cleanup env s); reflexivity.
Qed.

Lemma lists_foldl_cleanup_one l w :
  lists (foldl (cleanup_one env) w l) = lists w.
Proof.
  revert w. induction l as [|s l IH]; intros w; simpl; [reflexivity|].
  rewrite IH. unfold cleanup_one. destruct (strategy_cleanup env s); reflexivity.
Qed.

Lemma pipe_foldl_set_strategy_log_policy p l w :
  pipe (foldl (set_strategy_log_policy p) w l) = pipe w.
Proof.
  revert w. induction l as [|s l IH]; intros w; simpl; [reflexivity|].
  rewrite IH. reflexivity.
Qed.

Lemma pipe_cleanup w :
  pipe (cleanup env w) = with_context PipelineContext_clear (pipe w).
Proof.
  unfold cleanup. simpl. rewrite pipe_foldl_cleanup_one. reflexivity.
Qed.

Lemma pipe_bind_pipeline_context s w :
  pipe (_bind_pipeline_context env s w) = pipe w.
Proof.
  unfold _bind_pipeline_context. destruct (pipeline_aware env s); reflexivity.
Qed.

Lemma pipe_remove_strategy s w :
  pipe (remove_strategy env s w) = pipe w \/
  exists a, pipe (remove_strategy env s w) = with_strategies a (pipe w).
Proof.
  unfold remove_strategy. case_bool_decide; [right|left; reflexivity].
  eexists. destruct (strategy_cleanup env s); reflexivity.
Qed.

Lemma same_fixed_fields_refl p : same_fixed_fields p p.
Proof. repeat split. Qed.

Lemma same_fixed_fields_trans p q r :
  same_fixed_fields p q -> same_fixed_fields q r -> same_fixed_fields p r.
Proof.
  unfold same_fixed_fields. intros (?&?&?&?&?) (?&?&?&?&?).
  repeat split; congruence.
Qed.

Lemma pipeline_call_fixed_fields c w :
  same_fixed_fields (pipe w) (pipe (after_call env c w)).
Proof.
  by_call c.
  - unfold start. repeat case_bool_decide; repeat split.
  - unfold trigger. case_bool_decide; repeat split.
  - unfold pause. case_bool_decide; repeat split.
  - unfold resume. case_bool_decide; repeat split.
  - unfold stop. case_bool_decide; [|repeat split].
    rewrite pipe_cleanup. repeat split.
  - repeat split.
  - unfold add_strategy, _bind_pipeline_context.
    destruct (pipeline_aware env strategy); repeat split.
  - by_insert; unfold _bind_pipeline_context;
      destruct (pipeline_aware env strategy); repeat split.
  - destruct (pipe_remove_strategy strategy w) as [->|[a ->]]; repeat split.
  - unfold remove_strategy_by_name.
    destruct (filter _ _) as [|t ?]; [repeat split|].
    destruct (pipe_remove_strategy t w) as [->|[a ->]]; repeat split.
  - unfold remove_strategy_by_index.
    destruct (_ && _); [|repeat split].
    destruct (_ !! _) as [t|]; [|repeat split].
    destruct (pipe_remove_strategy t w) as [->|[a ->]]; repeat split.
  - unfold set_log_policy. rewrite pipe_foldl_set_strategy_log_policy.
    repeat split.
Qed.

End PipelineCalls.

(** *** The timing anchor *)

Section Anchor.

Variable env : Env.

Lemma keeps_anchor_refl w : keeps_anchor w w.
Proof. reflexivity. Qed.

Lemma keeps_anchor_trans a b c :
  keeps_anchor a b -> keeps_anchor b c -> keeps_anchor a c.
Proof. unfold keeps_anchor. congruence. Qed.

Lemma pipeline_call_keeps_anchor c w :
  keeps_anchor w (after_call env c w).
Proof. apply pipeline_call_fixed_fields. Qed.

Lemma exec_keeps_anchor fuel c : respects keeps_anchor (exec env fuel c).
Proof.
  apply respects_exec;
    first [ exact keeps_anchor_refl | exact keeps_anchor_trans
          | exact pipeline_call_keeps_anchor | intros; reflexivity ].
Qed.

Lemma process_deferred_keeps_anchor fuel :
  respects keeps_anchor (process_deferred env fuel).
Proof.
  apply respects_process_deferred;
    first [ exact keeps_anchor_refl | exact keeps_anchor_trans
          | exact pipeline_call_keeps_anchor | intros; reflexivity ].
Qed.

(** The gates of [step] are decided. *)
Lemma gates_pass_dec w : {gates_pass w} + {~ gates_pass w}.
Proof.
  unfold gates_pass.
  destruct (decide (state w = PipelineState.RUNNING)); [|right; tauto].
  destruct (decide (mode w = PipelineMode.CONDITIONAL)); [|left; tauto].
  destruct (_trigger_event (pipe w)); [left; tauto|right].
  intros [_ H]. specialize (H e0). discriminate.
Qed.

Lemma step_gated fuel w : ~ gates_pass w -> step env fuel w = Ok false w.
Proof.
  intros H. unfold step.
  case_bool_decide; [reflexivity|].
  destruct (bool_decide (mode w = PipelineMode.CONDITIONAL)) eqn:Em;
    [|exfalso; apply H; split;
      [destruct (decide (state w = PipelineState.RUNNING)); tauto
      |intros Hm; apply bool_decide_eq_false in Em; tauto]].
  destruct (_trigger_event (pipe w)) eqn:Et; [|reflexivity].
  exfalso. apply H. split; [|auto].
  destruct (decide (state w = PipelineState.RUNNING)); tauto.
Qed.

(** Without the anchor, a step that passes the gates stops at the read of
    [_last_time]. *)
Lemma step_unanchored fuel w :
  _last_time (pipe w) = None -> gates_pass w ->
  step env fuel w = Raise (AttributeError "_last_time") (at_anchor_read w).
Proof.
  intros Hl [Hs Ht]. unfold step.
  rewrite bool_decide_false by (intros H; apply H, Hs).
  destruct (bool_decide (mode w = PipelineMode.CONDITIONAL)) eqn:Em.
  - apply bool_decide_eq_true in Em. rewrite (Ht Em). simpl.
    unfold bind, modify, read_clock, read_last_time, at_anchor_read. simpl.
    rewrite bool_decide_true by exact Em. simpl. rewrite Hl. reflexivity.
  - simpl. unfold bind, modify, read_clock, read_last_time, at_anchor_read.
    simpl. rewrite Em. simpl. rewrite Hl. reflexivity.
Qed.

(** With the anchor, a step that passes the gates runs the loop from
    [frame_start] and then the tail. *)
Lemma step_anchored fuel w t0 :
  _last_time (pipe w) = Some t0 -> gates_pass w ->
  step env fuel w
  = bind (walk env fuel (_strategies (pipe w)) 0%nat None false)
      (step_tail env fuel (perf_counter env (reads w)))
      (frame_start env t0 w).
Proof.
  intros Hl [Hs Ht]. unfold step.
  rewrite bool_decide_false by (intros H; apply H, Hs).
  unfold frame_start, at_anchor_read.
  destruct (bool_decide (mode w = PipelineMode.CONDITIONAL)) eqn:Em.
  - apply bool_decide_eq_true in Em. rewrite (Ht Em). simpl.
    unfold bind at 1. unfold modify at 1.
    rewrite bool_decide_true by exact Em.
    unfold bind at 1. unfold read_clock at 1.
    unfold bind at 1. unfold read_last_time at 1. simpl. rewrite Hl.
    reflexivity.
  - simpl.
    unfold bind at 1. unfold modify at 1. rewrite Em.
    unfold bind at 1. unfold read_clock at 1.
    unfold bind at 1. unfold read_last_time at 1. simpl. rewrite Hl.
    reflexivity.
Qed.

Lemma at_anchor_read_keeps_anchor w : keeps_anchor w (at_anchor_read w).
Proof. unfold at_anchor_read. case_bool_decide; reflexivity. Qed.

Lemma set_event_policy_keeps_anchor t p w :
  keeps_anchor w (set_event_policy t p w).
Proof. reflexivity. Qed.

Lemma Pipeline_init_unanchored cfg w :
  Pipeline_init env cfg = inr w -> _last_time (pipe w) = None.
Proof.
  unfold Pipeline_init. destruct (cfg_router_factory cfg) as [r0|]; [|discriminate].
  intros [= <-].
  set (w0 := {| pipe := _ |}).
  assert (H0 : _last_time (pipe w0) = None) by reflexivity.
  clearbody w0.
  assert (H1 : forall l w, _last_time (pipe w) = None ->
             _last_time (pipe (foldl (fun w '(t, p) => set_event_policy t p w) w l)) = None).
  { induction l as [|[t p] l IH]; intros w Hw; simpl; [exact Hw|].
    apply IH. exact Hw. }
  assert (H2 : forall l w, _last_time (pipe w) = None ->
             _last_time (pipe (foldl (fun w s => add_strategy env s w) w l)) = None).
  { induction l as [|s l IH]; intros w Hw; simpl; [exact Hw|].
    apply IH. rewrite <- Hw.
    apply (pipeline_call_keeps_anchor (CallAddStrategy s)). }
  apply H2, H1, H0.
Qed.

Lemma reachable_unanchored cfg w :
  reachable env cfg w -> _last_time (pipe w) = None.
Proof.
  induction 1 as [w Hi|w op fuel w' Hr IH Hop].
  - eapply Pipeline_init_unanchored; eassumption.
  - rewrite <- IH. destruct op; simpl in Hop.
    + rewrite pipeline_call_world in Hop. injection Hop as <-.
      apply pipeline_call_keeps_anchor.
    + eapply exec_keeps_anchor; eassumption.
    + eapply process_deferred_keeps_anchor; eassumption.
    + destruct (gates_pass_dec w) as [Hg|Hg].
      * unfold bind in Hop. rewrite (step_unanchored fuel w IH Hg) in Hop.
        injection Hop as <-. apply at_anchor_read_keeps_anchor.
      * unfold bind in Hop. rewrite (step_gated fuel w Hg) in Hop.
        injection Hop as <-. reflexivity.
Qed.

End Anchor.

(** *** Which exceptions leave the router and the pipeline *)

Section Escapes.

Variable env : Env.

(** A log line of the router raises only for the missing name. *)
Lemma router_log_raises level sev m w e w' :
  router_log level sev m w = Raise e w' -> e = AttributeError "name".
Proof.
  unfold router_log, router_name. destruct (is_allowed _ _); [|discriminate].
  destruct (_pipeline _); [discriminate|].
  intros [= <- _]. reflexivity.
Qed.

(** A log line of the router leaves everything but the log as it was. *)
Lemma router_log_world level sev m w :
  (exists l, router_log level sev m w = Ok tt (on_log (fun _ => l) w)) \/
  router_log level sev m w = Raise (AttributeError "name") w.
Proof.
  unfold router_log, router_name. destruct (is_allowed _ _).
  - destruct (_pipeline _).
    + left. eexists. reflexivity.
    + right. reflexivity.
  - left. exists (log w). destruct w; reflexivity.
Qed.

Ltac log_cases E :=
  unfold router_info, router_warning, router_error;
  match goal with
  | |- context [router_log ?l ?s ?m ?w] =>
      destruct (router_log l s m w) as [[] ?|? ?|] eqn:E
  end.

(** Whatever a handler raises is caught by the dispatch loop; what leaves
    [_dispatch_now] is a failure of its own log lines. *)
Lemma dispatch_raises fuel :
  forall t d w e w',
    (exec env fuel (CDispatchNow t d) w = Raise e w' -> escapes_dispatch e) /\
    (forall i, exec env fuel (CDispatchLoop t d i) w = Raise e w' ->
     escapes_dispatch e).
Proof.
  induction fuel as [|fuel IH]; intros t d w e w'; simpl.
  - split; [|intros i]; discriminate.
  - split.
    + unfold _dispatch_now_decorated, trace_dispatch, _dispatch_now_body.
      destruct (is_allowed _ _).
      * destruct (dunder_name t); [|intros [= <- _]; left; reflexivity].
        unfold bind at 1.
        destruct (default _ _); log_cases El;
          try discriminate;
          try (intros [= <- _]; right; eapply router_log_raises; exact El);
          unfold bind, modify; intros H; eapply IH; exact H.
      * unfold bind, modify; intros H; eapply IH; exact H.
    + intros i. unfold dispatch_loop.
      destruct (subscribers_of w t !! i) as [cb|]; [|discriminate].
      unfold bind, guarded_callback, try_except.
      destruct (exec env fuel (CCallback cb t d) w) as [[] w1|e1 w1|].
      * intros H; eapply IH; exact H.
      * destruct (dunder_name t); [|intros [= <- _]; left; reflexivity].
        log_cases El.
        -- intros H; eapply IH; exact H.
        -- intros [= <- _]. right. eapply router_log_raises; exact El.
        -- discriminate.
      * discriminate.
Qed.

Lemma drain_raises fuel count w e w' :
  drain env fuel count w = Raise e w' ->
  escapes_dispatch e \/ e = IndexError.
Proof.
  revert w. induction count as [|count IH]; intros w; simpl.
  - discriminate.
  - destruct (deferred_queue w) as [|[t d] rest].
    + intros [= <- _]. right; reflexivity.
    + unfold bind, _dispatch_now.
      destruct (exec env fuel (CDispatchNow t d) _) as [[] w1|e1 w1|] eqn:E.
      * apply IH.
      * intros [= <- _]. left.
        exact (proj1 (dispatch_raises fuel t d _ _ _) E).
      * discriminate.
Qed.

Lemma process_deferred_raises fuel w e w' :
  process_deferred env fuel w = Raise e w' ->
  escapes_dispatch e \/ e = IndexError.
Proof.
  unfold process_deferred. destruct (deferred_queue w); [discriminate|].
  unfold bind at 1. destruct (is_allowed _ _).
  - log_cases El.
    + apply drain_raises.
    + intros [= <- _]. left. right. eapply router_log_raises; exact El.
    + discriminate.
  - apply drain_raises.
Qed.

(** The loop over the chain catches whatever a strategy raises. *)
Lemma walk_never_raises fuel chain i cd dw w e w' :
  walk env fuel chain i cd dw w <> Raise e w'.
Proof.
  revert i cd dw w. induction fuel as [|fuel IH]; intros i cd dw w; simpl.
  - discriminate.
  - destruct (deref w chain !! i); [|discriminate].
    case_bool_decide; [discriminate|].
    destruct (_frame_interrupted (pipe w)); [discriminate|].
    destruct (run_strategy env fuel n cd w) as [[ok d'] w1|e1 w1|];
      [|discriminate|discriminate].
    destruct ok; simpl; [apply IH|discriminate].
Qed.

Lemma step_finally_raises fuel t0 cd w e w' :
  step_finally env fuel t0 cd w = Raise e w' -> escapes_step e.
Proof.
  unfold step_finally, bind.
  destruct (process_deferred env fuel w) as [[] w1|e1 w1|] eqn:E.
  - unfold modify, read_clock, _handle_frame_pacing. simpl.
    destruct (_ =? 0).
    + intros [= <- _]. unfold escapes_step. tauto.
    + destruct (_ && _); discriminate.
  - intros [= <- _]. apply process_deferred_raises in E.
    unfold escapes_step, escapes_dispatch in *. tauto.
  - discriminate.
Qed.

Lemma step_raises fuel w e w' :
  step env fuel w = Raise e w' -> escapes_step e.
Proof.
  unfold step. case_bool_decide; [discriminate|].
  destruct (_ && _); [discriminate|].
  unfold bind at 1. unfold modify at 1.
  unfold bind at 1. unfold read_clock at 1.
  unfold bind at 1. unfold read_last_time at 1. simpl.
  destruct (_last_time _); [|intros [= <- _]; unfold escapes_step; tauto].
  unfold bind, modify, gets. simpl.
  match goal with
  | |- context [walk env fuel ?a ?i ?c ?dw ?w0] =>
      destruct (walk env fuel a i c dw w0) as [r w1|e1 w1|] eqn:E
  end.
  - unfold step_tail, bind, modify.
    destruct (step_finally env fuel _ _ w1) as [[] w2|e2 w2|] eqn:F.
    + destruct (exit r); discriminate.
    + intros [= <- _]. eapply step_finally_raises; exact F.
    + discriminate.
  - exfalso. eapply walk_never_raises; exact E.
  - discriminate.
Qed.

Lemma step_never_raises_critical fuel w e w' :
  step env fuel w = Raise e w' -> is_PipelineCriticalError e = false.
Proof.
  intros H. apply step_raises in H.
  destruct H as [->|[->|[->|[->| ->]]]]; reflexivity.
Qed.

(** Hence the [except PipelineCriticalError] clause of the executor is never
    entered: a sweep publishes nothing on the hub. *)
Lemma sweep_loop_never_reports fuel l acc acc' :
  sweep_loop env fuel l acc = Some acc' ->
  hub_published (sys_of acc') = hub_published (sys_of acc).
Proof.
  revert acc. induction l as [|pid l IH]; intros acc; simpl.
  - intros [= <-]. reflexivity.
  - destruct (objects (sys_of acc) !! pid) as [w|]; [|apply IH].
    case_bool_decide.
    { intros H'. apply IH in H'. exact H'. }
    destruct (step env fuel w) as [b w1|e w1|] eqn:E.
    + intros H'. apply IH in H'. exact H'.
    + rewrite (step_never_raises_critical _ _ _ _ E).
      intros H'. apply IH in H'. exact H'.
    + discriminate.
Qed.

Lemma hub_published_foldl_detach l sys :
  hub_published (foldl detach sys l) = hub_published sys.
Proof.
  revert sys. induction l as [|p l IH]; intros sys; simpl; [reflexivity|].
  rewrite IH. unfold detach. case_bool_decide; reflexivity.
Qed.

Lemma sweep_never_reports fuel sys sys' :
  sweep env fuel sys = Some sys' -> hub_published sys' = hub_published sys.
Proof.
  unfold sweep.
  destruct (sweep_loop env fuel _ _) as [acc|] eqn:E; [|discriminate].
  apply sweep_loop_never_reports in E. simpl in E.
  intros [= <-]. destruct (any_work_done acc); simpl;
    rewrite hub_published_foldl_detach; exact E.
Qed.

End Escapes.

(** *** The frame index and the lifecycle state *)

Section FrameIndex.

Variable env : Env.







Lemma release_data_pipe cd w : pipe (release_data cd w) = pipe w.
Proof. destruct cd; reflexivity. Qed.












Lemma stop_terminates w : state (stop env w) = PipelineState.TERMINATED.
Proof.
  unfold stop. case_bool_decide as Hs.
  - unfold state. rewrite pipe_cleanup. reflexivity.
  - destruct (decide (state w = PipelineState.TERMINATED)); tauto.
Qed.


End FrameIndex.

(** *** Traces and frames across the router and the tail of a step *)

Section TraceFrames.

Variable env : Env.

Lemma executions_app a b : executions (a ++ b) = executions a ++ executions b.
Proof. apply omap_app. Qed.

Lemma trace_foldl_cleanup_one l w :
  trace (foldl (cleanup_one env) w l) = trace w ++ map EvCleanup l.
Proof.
  revert w. induction l as [|s l IH]; intros w; simpl.
  - rewrite app_nil_r. reflexivity.
  - rewrite IH. unfold cleanup_one.
    destruct (strategy_cleanup env s); simpl; rewrite <- app_assoc; reflexivity.
Qed.

Lemma executions_cleanups l : executions (map EvCleanup l) = [].
Proof. induction l; simpl; auto. Qed.

Lemma trace_foldl_set_strategy_log_policy p l w :
  trace (foldl (set_strategy_log_policy p) w l) = trace w.
Proof.
  revert w. induction l as [|s l IH]; intros w; simpl; [reflexivity|].
  rewrite IH. reflexivity.
Qed.



Lemma extends_quietly_refl w : extends_quietly w w.
Proof. exists []. rewrite app_nil_r. split; reflexivity. Qed.

Lemma extends_quietly_trans a b c :
  extends_quietly a b -> extends_quietly b c -> extends_quietly a c.
Proof.
  intros (t1 & E1 & Q1) (t2 & E2 & Q2). exists (t1 ++ t2).
  rewrite E2, E1, <- app_assoc. split; [reflexivity|].
  rewrite executions_app, Q1, Q2. reflexivity.
Qed.

Lemma extends_quietly_same w w' : trace w' = trace w -> extends_quietly w w'.
Proof. intros E. exists []. rewrite app_nil_r. split; [exact E|reflexivity]. Qed.

Lemma extends_quietly_by w w' tr :
  trace w' = trace w ++ tr -> executions tr = [] -> extends_quietly w w'.
Proof. intros E Q. exists tr. split; assumption. Qed.


Lemma stop_extends_quietly w : extends_quietly w (stop env w).
Proof.
  unfold stop. case_bool_decide; [|apply extends_quietly_refl].
  eapply extends_quietly_by; [|apply executions_cleanups].
  unfold cleanup. simpl. rewrite trace_foldl_cleanup_one. reflexivity.
Qed.

Lemma remove_strategy_extends_quietly s w :
  extends_quietly w (remove_strategy env s w).
Proof.
  unfold remove_strategy.
  case_bool_decide; [|apply extends_quietly_same; reflexivity].
  apply (extends_quietly_by _ _ [EvCleanup s]); [|reflexivity].
  destruct (strategy_cleanup env s); reflexivity.
Qed.

Lemma pipeline_call_extends_quietly c w :
  extends_quietly w (after_call env c w).
Proof.
  by_call c.
  - apply extends_quietly_same. unfold start. repeat case_bool_decide; reflexivity.
  - apply extends_quietly_same. unfold trigger. case_bool_decide; reflexivity.
  - apply extends_quietly_same. unfold pause. case_bool_decide; reflexivity.
  - apply extends_quietly_same. unfold resume. case_bool_decide; reflexivity.
  - apply stop_extends_quietly.
  - apply extends_quietly_same. reflexivity.
  - apply extends_quietly_same. unfold add_strategy, _bind_pipeline_context.
    destruct (pipeline_aware env strategy); reflexivity.
  - by_insert; apply extends_quietly_same; unfold _bind_pipeline_context;
      destruct (pipeline_aware env strategy); reflexivity.
  - apply remove_strategy_extends_quietly.
  - unfold remove_strategy_by_name. destruct (filter _ _) as [|t ?];
      [apply extends_quietly_same; reflexivity
      |apply remove_strategy_extends_quietly].
  - unfold remove_strategy_by_index. destruct (_ && _);
      [|apply extends_quietly_same; reflexivity].
    destruct (_ !! _);
      [apply remove_strategy_extends_quietly|apply extends_quietly_refl].
  - apply extends_quietly_same. unfold set_log_policy.
    rewrite trace_foldl_set_strategy_log_policy. reflexivity.
Qed.

Lemma release_data_trace cd w : trace (release_data cd w) = trace w.
Proof. destruct cd; reflexivity. Qed.

Ltac quiet :=
  intros;
  first [ apply extends_quietly_same; rewrite ?release_data_trace; reflexivity
        | eapply extends_quietly_by; [reflexivity|reflexivity] ].

Lemma exec_extends_quietly fuel c : respects extends_quietly (exec env fuel c).
Proof.
  apply respects_exec;
    first [ exact extends_quietly_refl | exact extends_quietly_trans
          | exact pipeline_call_extends_quietly | quiet ].
Qed.




(** Frames. *)

















End TraceFrames.

(** *** The chain as a shared list object *)

Section Chains.

Variable env : Env.

Lemma lists_foldl_set_strategy_log_policy p l w :
  lists (foldl (set_strategy_log_policy p) w l) = lists w.
Proof.
  revert w. induction l as [|s l IH]; intros w; simpl; [reflexivity|].
  rewrite IH. reflexivity.
Qed.

Lemma lists_bind_pipeline_context s w :
  lists (_bind_pipeline_context env s w) = lists w.
Proof.
  unfold _bind_pipeline_context. destruct (pipeline_aware env s); reflexivity.
Qed.

Lemma keeps_lists_refl w : keeps_lists w w.
Proof. intros a _. reflexivity. Qed.

Lemma keeps_lists_same w w' : lists w' = lists w -> keeps_lists w w'.
Proof. intros E a _. rewrite E. reflexivity. Qed.

(** Installing a chain allocates: no existing list object changes, the new
    reference is not one of them, and it holds the new chain. *)
Lemma install_chain_keeps_lists l w : keeps_lists w (install_chain l w).
Proof.
  intros a Ha. unfold install_chain. simpl.
  apply lookup_insert_ne. intros E. rewrite <- E in Ha.
  exact (is_fresh (dom (lists w)) Ha).
Qed.

Lemma install_chain_fresh l w :
  _strategies (pipe (install_chain l w)) ∉ dom (lists w).
Proof. exact (is_fresh (dom (lists w))). Qed.

Lemma install_chain_strategies l w : strategies (install_chain l w) = l.
Proof.
  unfold strategies, deref, install_chain. simpl.
  rewrite lookup_insert_eq. reflexivity.
Qed.

Lemma add_strategy_keeps_lists s w : keeps_lists w (add_strategy env s w).
Proof.
  intros a Ha.
  change (lists (install_chain
                   (strategies (_bind_pipeline_context env s w) ++ [s])
                   (_bind_pipeline_context env s w)) !! a = lists w !! a).
  rewrite <- (lists_bind_pipeline_context s w).
  apply install_chain_keeps_lists.
  rewrite lists_bind_pipeline_context. exact Ha.
Qed.

Lemma insert_strategy_keeps_lists i s w :
  keeps_lists w (after_call env (CallInsertStrategy i s) w).
Proof.
  destruct (after_call_insert env i s w) as [(_ & ->)|(l & _ & ->)].
  - apply keeps_lists_same, lists_bind_pipeline_context.
  - intros a Ha.
    change (lists (install_chain l (_bind_pipeline_context env s w)) !! a
            = lists w !! a).
    rewrite <- (lists_bind_pipeline_context s w).
    apply install_chain_keeps_lists.
    rewrite lists_bind_pipeline_context. exact Ha.
Qed.

Lemma remove_strategy_keeps_lists s w :
  keeps_lists w (remove_strategy env s w).
Proof.
  unfold remove_strategy. case_bool_decide; [|apply keeps_lists_same; reflexivity].
  intros a Ha.
  destruct (strategy_cleanup env s);
    change (lists (install_chain (py_remove s (strategies w)) w) !! a
            = lists w !! a);
    apply install_chain_keeps_lists, Ha.
Qed.

Lemma edit_keeps_lists c w :
  is_edit c -> keeps_lists w (after_call env c w).
Proof.
  destruct c; try (intros []; fail); intros _;
    try apply insert_strategy_keeps_lists;
    unfold after_call, pipeline_call, modify; cbv beta iota.
  - apply add_strategy_keeps_lists.
  - apply remove_strategy_keeps_lists.
  - unfold remove_strategy_by_name. destruct (filter _ _) as [|t ?];
      [apply keeps_lists_same; reflexivity|apply remove_strategy_keeps_lists].
  - unfold remove_strategy_by_index. destruct (_ && _);
      [|apply keeps_lists_same; reflexivity].
    destruct (_ !! _);
      [apply remove_strategy_keeps_lists|apply keeps_lists_refl].
Qed.

(** What each edit installs. *)
Lemma add_strategy_strategies s w :
  strategies (add_strategy env s w) = strategies w ++ [s].
Proof.
  unfold add_strategy.
  change (strategies (install_chain
            (strategies (_bind_pipeline_context env s w) ++ [s])
            (_bind_pipeline_context env s w)) = strategies w ++ [s]).
  rewrite install_chain_strategies. unfold strategies, deref.
  rewrite lists_bind_pipeline_context, pipe_bind_pipeline_context.
  reflexivity.
Qed.

Lemma strategies_bind_pipeline_context s w :
  strategies (_bind_pipeline_context env s w) = strategies w.
Proof.
  unfold strategies, deref.
  rewrite lists_bind_pipeline_context, pipe_bind_pipeline_context.
  reflexivity.
Qed.

Lemma py_insert_in_range {A} i (x : A) l :
  PY_SSIZE_T_MIN <= i <= PY_SSIZE_T_MAX -> py_insert i x l = inr (ins1 i x l).
Proof.
  intros [H1 H2]. unfold py_insert.
  destruct (i <? PY_SSIZE_T_MIN) eqn:E1; [apply Z.ltb_lt in E1; lia|].
  destruct (PY_SSIZE_T_MAX <? i) eqn:E2; [apply Z.ltb_lt in E2; lia|].
  reflexivity.
Qed.

Lemma py_insert_overflow {A} i (x : A) l :
  i < PY_SSIZE_T_MIN \/ PY_SSIZE_T_MAX < i -> py_insert i x l = inl OverflowError.
Proof.
  intros H. unfold py_insert.
  destruct (i <? PY_SSIZE_T_MIN) eqn:E1; [reflexivity|].
  destruct (PY_SSIZE_T_MAX <? i) eqn:E2; [reflexivity|].
  apply Z.ltb_ge in E1, E2. lia.
Qed.

(** With an index in the range of [Py_ssize_t], [insert_strategy] returns
    and installs the chain with the strategy inserted. *)
Lemma insert_strategy_strategies i s w :
  PY_SSIZE_T_MIN <= i <= PY_SSIZE_T_MAX ->
  exists w', insert_strategy env i s w = Ok tt w' /\
             strategies w' = ins1 i s (strategies w).
Proof.
  intros Hi. unfold insert_strategy.
  rewrite (py_insert_in_range i s _ Hi). eexists. split; [reflexivity|].
  change (strategies (install_chain
            (ins1 i s (strategies (_bind_pipeline_context env s w)))
            (_bind_pipeline_context env s w)) = ins1 i s (strategies w)).
  rewrite install_chain_strategies, strategies_bind_pipeline_context.
  reflexivity.
Qed.

(** With an index outside it, [insert_strategy] raises after binding the
    strategy: the chain reference and every list object are as before. *)
Lemma insert_strategy_overflow i s w :
  i < PY_SSIZE_T_MIN \/ PY_SSIZE_T_MAX < i ->
  insert_strategy env i s w
  = Raise OverflowError (_bind_pipeline_context env s w) /\
  pipe (_bind_pipeline_context env s w) = pipe w /\
  lists (_bind_pipeline_context env s w) = lists w.
Proof.
  intros Hi. unfold insert_strategy.
  rewrite (py_insert_overflow i s _ Hi).
  split; [reflexivity|]. split.
  - apply pipe_bind_pipeline_context.
  - apply lists_bind_pipeline_context.
Qed.

Lemma remove_strategy_strategies s w :
  strategies (remove_strategy env s w) = py_remove s (strategies w).
Proof.
  unfold remove_strategy. case_bool_decide as Hin.
  - destruct (strategy_cleanup env s);
      change (strategies (install_chain (py_remove s (strategies w)) w)
              = py_remove s (strategies w));
      apply install_chain_strategies.
  - change (strategies w = py_remove s (strategies w)).
    induction (strategies w) as [|y l IH]; simpl; [reflexivity|].
    case_bool_decide as Hy.
    + exfalso. apply Hin. subst. left.
    + f_equal. apply IH. intros H. apply Hin. right. exact H.
Qed.

(** Emptying. *)

Lemma only_clears_refl w : only_clears w w.
Proof. intros a _. left. reflexivity. Qed.

Lemma only_clears_dom w w' a :
  only_clears w w' -> a ∈ dom (lists w) -> a ∈ dom (lists w').
Proof.
  intros H Ha. apply elem_of_dom.
  destruct (H a Ha) as [E|E]; rewrite E; [|eexists; reflexivity].
  apply elem_of_dom. exact Ha.
Qed.

Lemma only_clears_trans a b c :
  only_clears a b -> only_clears b c -> only_clears a c.
Proof.
  intros H1 H2 x Hx.
  pose proof (only_clears_dom _ _ _ H1 Hx) as Hx'.
  destruct (H1 x Hx) as [E1|E1], (H2 x Hx') as [E2|E2].
  - left. congruence.
  - right. exact E2.
  - right. congruence.
  - right. exact E2.
Qed.

Lemma keeps_lists_only_clears w w' : keeps_lists w w' -> only_clears w w'.
Proof. intros H a Ha. left. apply H, Ha. Qed.

Lemma only_clears_same w w' : lists w' = lists w -> only_clears w w'.
Proof. intros E. apply keeps_lists_only_clears, keeps_lists_same, E. Qed.

(** [stop] empties the installed list object and no other. *)
Lemma lists_stop w :
  state w <> PipelineState.TERMINATED ->
  lists (stop env w) = <[_strategies (pipe w) := []]> (lists w).
Proof.
  intros Hs. unfold stop. rewrite bool_decide_true by exact Hs.
  unfold cleanup. simpl.
  rewrite pipe_foldl_cleanup_one, lists_foldl_cleanup_one. reflexivity.
Qed.

Lemma stop_only_clears w : only_clears w (stop env w).
Proof.
  destruct (decide (state w = PipelineState.TERMINATED)) as [Ht|Hn].
  - unfold stop. rewrite bool_decide_false by tauto. apply only_clears_refl.
  - intros a Ha. rewrite (lists_stop w Hn).
    destruct (decide (_strategies (pipe w) = a)) as [->|Hne].
    + right. apply lookup_insert_eq.
    + left. apply lookup_insert_ne, Hne.
Qed.

Lemma pipeline_call_only_clears c w : only_clears w (after_call env c w).
Proof.
  destruct c;
    try (apply keeps_lists_only_clears, edit_keeps_lists; exact I);
    unfold after_call, pipeline_call, modify; cbv beta iota.
  - apply only_clears_same. unfold start. repeat case_bool_decide; reflexivity.
  - apply only_clears_same. unfold trigger. case_bool_decide; reflexivity.
  - apply only_clears_same. unfold pause. case_bool_decide; reflexivity.
  - apply only_clears_same. unfold resume. case_bool_decide; reflexivity.
  - apply stop_only_clears.
  - apply only_clears_same. reflexivity.
  - apply only_clears_same. unfold set_log_policy.
    rewrite lists_foldl_set_strategy_log_policy. reflexivity.
Qed.

Lemma release_data_lists cd w : lists (release_data cd w) = lists w.
Proof. destruct cd; reflexivity. Qed.

Ltac lists_same :=
  intros; apply only_clears_same; rewrite ?release_data_lists; reflexivity.

Lemma exec_only_clears fuel c : respects only_clears (exec env fuel c).
Proof.
  apply respects_exec;
    first [ exact only_clears_refl | exact only_clears_trans
          | exact pipeline_call_only_clears | lists_same ].
Qed.

Lemma step_tail_only_clears fuel t0 r :
  respects only_clears (step_tail env fuel t0 r).
Proof.
  unfold step_tail.
  apply respects_bind; [ exact only_clears_trans | | ].
  - apply respects_step_finally;
      first [ exact only_clears_refl | exact only_clears_trans
            | exact pipeline_call_only_clears | lists_same ].
  - intros ?. destruct (exit r).
    + apply respects_bind; [ exact only_clears_trans | | ].
      * apply respects_modify. intros w. case_bool_decide;
          [apply stop_only_clears|apply only_clears_refl].
      * intros ?. apply respects_ret. exact only_clears_refl.
    + apply respects_ret. exact only_clears_refl.
Qed.

(** One call of [strategy.execute]: exactly one execution is recorded, and
    list objects are kept or emptied. *)
Lemma run_strategy_effect fuel s cd w w1 :
  world_of (run_strategy env fuel s cd w) = Some w1 ->
  only_clears w w1 /\
  exists tr, trace w1 = trace w ++ EvExecute s cd :: tr /\ executions tr = [].
Proof.
  unfold run_strategy.
  destruct (strategy_execute env s (frame_index w) cd) as [script result].
  unfold bind at 1. unfold modify at 1.
  set (w0 := record (EvExecute s cd) w).
  intros H.
  assert (Hc : respects only_clears
            (bind (exec env fuel (CActions script))
               (fun _ => match result with
                         | ExecReturn success frame => ret (success, frame)
                         | ExecRaise e => raise e
                         end))).
  { apply respects_bind; [exact only_clears_trans|apply exec_only_clears|].
    intros ?. destruct result;
      [apply respects_ret|apply respects_raise]; exact only_clears_refl. }
  assert (Hq : respects extends_quietly
            (bind (exec env fuel (CActions script))
               (fun _ => match result with
                         | ExecReturn success frame => ret (success, frame)
                         | ExecRaise e => raise e
                         end))).
  { apply respects_bind; [exact extends_quietly_trans
                         |apply exec_extends_quietly|].
    intros ?. destruct result;
      [apply respects_ret|apply respects_raise]; exact extends_quietly_refl. }
  split.
  - apply (only_clears_trans w w0 w1); [apply only_clears_same; reflexivity|].
    apply Hc, H.
  - destruct (Hq w0 w1 H) as (tr & E & Q). exists tr.
    split; [|exact Q]. rewrite E. unfold w0. simpl.
    rewrite <- app_assoc. reflexivity.
Qed.


End Chains.

Section ChainOfStep.

Variable env : Env.



End ChainOfStep.

(** *** The binding of the router to its pipeline *)

Section Binding.

Variable env : Env.

Lemma keeps_binding_refl w : keeps_binding w w.
Proof. reflexivity. Qed.

Lemma keeps_binding_trans a b c :
  keeps_binding a b -> keeps_binding b c -> keeps_binding a c.
Proof. unfold keeps_binding. congruence. Qed.

Lemma pipeline_call_keeps_binding c w :
  keeps_binding w (after_call env c w).
Proof.
  unfold keeps_binding, router.
  destruct (pipeline_call_fixed_fields env c w) as (_ & _ & _ & -> & _).
  reflexivity.
Qed.

Lemma exec_keeps_binding fuel c : respects keeps_binding (exec env fuel c).
Proof.
  apply respects_exec;
    first [ exact keeps_binding_refl | exact keeps_binding_trans
          | exact pipeline_call_keeps_binding
          | intros; reflexivity ].
Qed.

(** On a bound router every log line is written or filtered, no more. *)
Lemma router_log_bound level sev m w :
  _pipeline (router w) = true ->
  exists l, router_log level sev m w = Ok tt (on_log (fun _ => l) w).
Proof.
  intros Hb. unfold router_log, router_name. rewrite Hb.
  destruct (is_allowed _ _).
  - eexists. reflexivity.
  - exists (log w). destruct w; reflexivity.
Qed.

End Binding.

(** *** The deferred queue *)

Section DeferredQueue.

Variable env : Env.

Lemma popped_app a b : popped (a ++ b) = popped a ++ popped b.
Proof. apply omap_app. Qed.

Lemma enqueued_app a b : enqueued (a ++ b) = enqueued a ++ enqueued b.
Proof. apply omap_app. Qed.

Lemma popped_cleanups l : popped (map EvCleanup l) = [].
Proof. induction l; simpl; auto. Qed.

Lemma enqueued_cleanups l : enqueued (map EvCleanup l) = [].
Proof. induction l; simpl; auto. Qed.

Lemma queue_grows_refl w : queue_grows w w.
Proof. exists []. rewrite !app_nil_r. repeat split. Qed.

Lemma queue_grows_trans a b c :
  queue_grows a b -> queue_grows b c -> queue_grows a c.
Proof.
  intros (t1 & E1 & P1 & Q1) (t2 & E2 & P2 & Q2). exists (t1 ++ t2).
  rewrite E2, E1, <- app_assoc. split; [reflexivity|].
  rewrite popped_app, P1, P2. split; [reflexivity|].
  rewrite Q2, Q1, enqueued_app, <- app_assoc. reflexivity.
Qed.

Lemma queue_grows_same w w' :
  trace w' = trace w -> deferred_queue w' = deferred_queue w ->
  queue_grows w w'.
Proof.
  intros Et Eq. exists []. rewrite !app_nil_r. repeat split; assumption.
Qed.

(** A pipeline call records cleanups only. *)
Lemma pipeline_call_trace c w :
  exists l, trace (after_call env c w) = trace w ++ map EvCleanup l.
Proof.
  assert (Hnil : forall w', trace w' = trace w ->
            exists l, trace w' = trace w ++ map EvCleanup l).
  { intros w' E. exists []. simpl. rewrite app_nil_r. exact E. }
  assert (Hrm : forall s,
            exists l, trace (remove_strategy env s w) = trace w ++ map EvCleanup l).
  { intros s. unfold remove_strategy. case_bool_decide; [|apply Hnil; reflexivity].
    exists [s]. destruct (strategy_cleanup env s); reflexivity. }
  by_call c.
  - apply Hnil. unfold start. repeat case_bool_decide; reflexivity.
  - apply Hnil. unfold trigger. case_bool_decide; reflexivity.
  - apply Hnil. unfold pause. case_bool_decide; reflexivity.
  - apply Hnil. unfold resume. case_bool_decide; reflexivity.
  - unfold stop. case_bool_decide; [|apply Hnil; reflexivity].
    eexists. unfold cleanup. simpl. rewrite trace_foldl_cleanup_one. reflexivity.
  - apply Hnil. reflexivity.
  - apply Hnil. unfold add_strategy, _bind_pipeline_context.
    destruct (pipeline_aware env strategy); reflexivity.
  - by_insert; apply Hnil; unfold _bind_pipeline_context;
      destruct (pipeline_aware env strategy); reflexivity.
  - apply Hrm.
  - unfold remove_strategy_by_name. destruct (filter _ _) as [|t ?];
      [apply Hnil; reflexivity|apply Hrm].
  - unfold remove_strategy_by_index. destruct (_ && _);
      [|apply Hnil; reflexivity].
    destruct (_ !! _); [apply Hrm|apply Hnil; reflexivity].
  - apply Hnil. unfold set_log_policy.
    rewrite trace_foldl_set_strategy_log_policy. reflexivity.
Qed.

Lemma pipeline_call_queue_grows c w : queue_grows w (after_call env c w).
Proof.
  destruct (pipeline_call_trace c w) as (l & E).
  exists (map EvCleanup l). split; [exact E|].
  rewrite popped_cleanups, enqueued_cleanups, app_nil_r.
  split; [reflexivity|].
  unfold deferred_queue, router.
  destruct (pipeline_call_fixed_fields env c w) as (_ & _ & _ & Er & _).
  rewrite Er. reflexivity.
Qed.

Lemma enqueue_queue_grows t d w : queue_grows w (enqueue t d w).
Proof. exists [EvEnqueue t d]. repeat split. Qed.

Lemma invoke_queue_grows cb t d w :
  queue_grows w (record (EvInvoke cb t d) w).
Proof.
  exists [EvInvoke cb t d]. simpl. rewrite app_nil_r. repeat split.
Qed.

Lemma exec_queue_grows fuel c : respects queue_grows (exec env fuel c).
Proof.
  apply respects_exec;
    first [ exact queue_grows_refl | exact queue_grows_trans
          | exact pipeline_call_queue_grows | exact enqueue_queue_grows
          | exact invoke_queue_grows
          | intros; apply queue_grows_same; reflexivity ].
Qed.

(** On a router bound to its pipeline, a dispatch on a class topic does not
    raise: the topic and the router have names for the log lines, and what
    handlers raise is caught. *)
Lemma dispatch_class_never_raises fuel :
  forall t d w e w',
    is_type t = true -> _pipeline (router w) = true ->
    exec env fuel (CDispatchNow t d) w <> Raise e w' /\
    (forall i, exec env fuel (CDispatchLoop t d i) w <> Raise e w').
Proof.
  induction fuel as [|fuel IH]; intros t d w e w' Ht Hb; simpl.
  - split; [|intros i]; discriminate.
  - assert (Hn : exists n, dunder_name t = Some n)
      by (destruct t; try discriminate; eexists; reflexivity).
    destruct Hn as (n & Hn). split.
    + unfold _dispatch_now_decorated, trace_dispatch, _dispatch_now_body.
      rewrite Hn.
      destruct (is_allowed _ _).
      * unfold bind at 1.
        destruct (default _ _); unfold router_warning, router_info;
          match goal with
          | |- context [router_log ?lv ?sv ?m w] =>
              destruct (router_log_bound lv sv m w Hb) as (l' & El);
              rewrite El
          end;
          unfold bind, modify; apply IH; first [exact Ht|exact Hb].
      * unfold bind, modify; apply IH; first [exact Ht|exact Hb].
    + intros i. unfold dispatch_loop.
      destruct (subscribers_of w t !! i) as [cb|]; [|discriminate].
      unfold bind, guarded_callback, try_except. rewrite Hn.
      destruct (exec env fuel (CCallback cb t d) w) as [[] w1|e1 w1|] eqn:E.
      * apply IH; [exact Ht|].
        rewrite <- Hb. eapply exec_keeps_binding. rewrite E. reflexivity.
      * assert (Hb1 : _pipeline (router w1) = true).
        { rewrite <- Hb. eapply exec_keeps_binding. rewrite E. reflexivity. }
        destruct (router_log_bound LogLevel.ERROR SevError
                    (MsgHandlerError n e1) w1 Hb1) as (l & El).
        unfold router_error. rewrite El. apply IH; [exact Ht|exact Hb1].
      * discriminate.
Qed.

(** [drain] takes [count] events from the front of the queue, in order, and
    leaves what follows them together with what was enqueued meanwhile. *)
Lemma drain_spec fuel :
  forall count w pre rest,
    deferred_queue w = pre ++ rest -> length pre = count ->
    (forall t d, (t, d) ∈ pre -> is_type t = true) ->
    _pipeline (router w) = true ->
    (forall e w', drain env fuel count w <> Raise e w') /\
    (forall w', drain env fuel count w = Ok tt w' ->
       exists tr, trace w' = trace w ++ tr /\ popped tr = pre /\
                  deferred_queue w' = rest ++ enqueued tr).
Proof.
  induction count as [|count IH]; intros w pre rest Hq Hlen Hty Hb; simpl.
  - destruct pre; [|discriminate]. split; [discriminate|].
    intros w' [= <-]. exists []. rewrite !app_nil_r. repeat split. exact Hq.
  - destruct pre as [|[t d] pre]; [discriminate|].
    simpl in Hq. rewrite Hq. injection Hlen as Hlen.
    assert (Ht : is_type t = true) by (apply (Hty t d); left).
    assert (Hty' : forall t' d', (t', d') ∈ pre -> is_type t' = true)
      by (intros t' d' Hin; apply (Hty t' d'); right; exact Hin).
    set (w0 := popleft t d (pre ++ rest) w).
    unfold bind, _dispatch_now.
    destruct (exec env fuel (CDispatchNow t d) w0) as [[] w1|e1 w1|] eqn:E.
    + destruct (exec_queue_grows fuel (CDispatchNow t d) w0 w1)
        as (tr1 & Et1 & P1 & Q1); [rewrite E; reflexivity|].
      assert (Hq1 : deferred_queue w1 = pre ++ (rest ++ enqueued tr1)).
      { rewrite Q1. unfold w0, deferred_queue, router. simpl.
        rewrite <- app_assoc. reflexivity. }
      assert (Hb1 : _pipeline (router w1) = true).
      { rewrite <- Hb.
        apply (exec_keeps_binding env fuel (CDispatchNow t d) w0 w1).
        rewrite E. reflexivity. }
      destruct (IH w1 pre (rest ++ enqueued tr1) Hq1 Hlen Hty' Hb1)
        as (Hr & Hok).
      split; [exact Hr|].
      intros w' Hw'. destruct (Hok w' Hw') as (tr2 & Et2 & P2 & Q2).
      exists (EvPop t d :: tr1 ++ tr2). split.
      { rewrite Et2, Et1. unfold w0. simpl. rewrite <- !app_assoc. reflexivity. }
      split.
      { simpl. rewrite popped_app, P1, P2. reflexivity. }
      simpl. rewrite enqueued_app, Q2, <- app_assoc. reflexivity.
    + exfalso.
      exact (proj1 (dispatch_class_never_raises fuel t d w0 e1 w1 Ht Hb) E).
    + split; discriminate.
Qed.

(** The one-pass property of [process_deferred] for class topics on a
    router bound to its pipeline: it does not raise, and when it returns it
    has taken exactly the events that were queued when it began, in order
    (each handed to [_dispatch_now] right after being taken), and the queue
    holds exactly the events enqueued during the call. *)
Lemma process_deferred_one_pass fuel w :
  (forall t d, (t, d) ∈ deferred_queue w -> is_type t = true) ->
  _pipeline (router w) = true ->
  (forall e w', process_deferred env fuel w <> Raise e w') /\
  (forall w', process_deferred env fuel w = Ok tt w' ->
     exists tr, trace w' = trace w ++ tr /\
                popped tr = deferred_queue w /\
                deferred_queue w' = enqueued tr).
Proof.
  intros Hty Hb. unfold process_deferred.
  destruct (deferred_queue w) as [|x q] eqn:Eq.
  - split; [discriminate|]. intros w' [= <-].
    exists []. rewrite app_nil_r. repeat split. exact Eq.
  - assert (E1 : exists w1,
              (if is_allowed (r_log_policy (router w)) LogLevel.INFO
               then router_info MsgFlush else ret tt) w = Ok tt w1 /\
              trace w1 = trace w /\ deferred_queue w1 = x :: q /\
              _pipeline (router w1) = true).
    { destruct (is_allowed _ _).
      - destruct (router_log_bound LogLevel.INFO SevInfo MsgFlush w Hb)
          as (l & El).
        eexists. split; [exact El|]. repeat split; assumption.
      - exists w. split; [reflexivity|]. repeat split; assumption. }
    destruct E1 as (w1 & E1 & Et1 & Eq1 & Hb1).
    unfold bind. rewrite E1.
    destruct (drain_spec fuel (length (deferred_queue w1)) w1 (x :: q) [])
      as (Hr & Hok).
    + rewrite app_nil_r. exact Eq1.
    + rewrite Eq1. reflexivity.
    + exact Hty.
    + exact Hb1.
    + split; [exact Hr|].
      intros w' Hw'. destruct (Hok w' Hw') as (tr & Et & P & Q).
      exists tr. rewrite Et, Et1. repeat split; assumption.
Qed.

End DeferredQueue.

(* ===================================================================== *)
(** ** The router *)
(* ===================================================================== *)

(** C10. On a topic whose event policy is DROP, [publish] is a no-op at every
    priority, CRITICAL included: it returns normally and leaves the whole
    world as it was: nothing logged, nothing dispatched, nothing queued, the
    interrupt flag untouched, nothing raised. *)
Theorem drop_publish_is_noop env fuel w event_type data sender priority :
  rule <$> (_event_policies (router w) !! event_type) = Some EventRule.DROP ->
  publish env (S fuel) event_type data sender priority w = Ok tt w.
Proof.
  intros H. unfold publish. simpl.
  unfold publish_decorated, trace_publish.
  destruct (_event_policies (router w) !! event_type) as [p|]; [|discriminate].
  simpl in *. injection H as H. unfold is_dropped. rewrite H.
  reflexivity.
Qed.

Lemma drop_publish_is_noop_witness :
  let w :=
    set_event_policy Sample.Ball EventPolicies.drop
      (subscribe Sample.Ball 2%nat
         (Sample.started PipelineMode.LOOP [1%nat])) in
  rule <$> (_event_policies (router w) !! Sample.Ball) = Some EventRule.DROP /\
  publish Sample.env 1 Sample.Ball 0%nat None EventPriority.CRITICAL w = Ok tt w.
Proof.
  intros w.
  assert (H : rule <$> (_event_policies (router w) !! Sample.Ball)
              = Some EventRule.DROP) by (vm_compute; reflexivity).
  split; [exact H|].
  exact (drop_publish_is_noop Sample.env 0 w Sample.Ball 0%nat None
           EventPriority.CRITICAL H).
Defined.

(** C5. A publish at CRITICAL priority never invokes a subscriber, whatever
    the topic, its subscribers and its policy: the call ends at once (it
    raises, or returns when the policy is DROP), no event of any kind is
    recorded, and the pipeline with its router (subscriber lists, deferred
    queue, interrupt flag) is unchanged. *)
Theorem critical_publish_invokes_nobody env fuel w event_type data sender :
  match publish env (S fuel) event_type data sender EventPriority.CRITICAL w with
  | Ok _ w' | Raise _ w' =>
      invocations (trace w') = invocations (trace w) /\
      trace w' = trace w /\ pipe w' = pipe w
  | OutOfFuel => False
  end.
Proof.
  unfold publish. simpl. unfold publish_decorated, trace_publish.
  destruct (is_dropped _); [auto|].
  destruct (is_mute _).
  - unfold publish_body. simpl. auto.
  - unfold bind. destruct (_ || _).
    + unfold router_info.
      match goal with
      | |- context [router_log ?lv ?sv ?m w] =>
          destruct (router_log_world lv sv m w) as [(l & ->)| ->]
      end.
      * unfold publish_body. simpl. auto.
      * auto.
    + unfold publish_body. simpl. auto.
Qed.

(** C4 (the code departs from the claim).  [_dispatch_now] iterates the live
    subscriber list, not a copy.  Topic BallDetected has the single
    subscriber 1 when the IMMEDIATE publish starts; handler 1 subscribes
    handler 2 to the same topic; the running dispatch then invokes handler 2
    as well. *)
Theorem dispatch_invokes_subscriber_added_meanwhile :
  let w := subscribe Sample.Ball 1%nat (Sample.started PipelineMode.LOOP []) in
  subscribers_of w Sample.Ball = [1%nat] /\
  match publish Sample.env 10 Sample.Ball 0%nat None EventPriority.IMMEDIATE w
  with
  | Ok _ w' =>
      invocations (trace w')
      = [(1%nat, Sample.Ball, 0%nat); (2%nat, Sample.Ball, 0%nat)]
  | _ => False
  end.
Proof. vm_compute. split; reflexivity. Qed.

(** The same holds at INTERRUPT priority. *)
Example interrupt_dispatch_invokes_subscriber_added_meanwhile :
  let w := subscribe Sample.Ball 1%nat (Sample.started PipelineMode.LOOP []) in
  match publish Sample.env 10 Sample.Ball 0%nat None EventPriority.INTERRUPT w
  with
  | Ok _ w' =>
      invocations (trace w')
      = [(1%nat, Sample.Ball, 0%nat); (2%nat, Sample.Ball, 0%nat)] /\
      _frame_interrupted (pipe w') = true
  | _ => False
  end.
Proof. vm_compute. split; reflexivity. Qed.

(** C6 (the code departs from the claim).  With the default log policy the
    decorator of [_dispatch_now] formats [event_type.__name__], which a
    string topic does not have.  After a deferred publish on the string
    topic and one on the class topic, which has a subscriber,
    [process_deferred] takes the first event from the queue and raises
    [AttributeError] before any handler runs; the second event stays queued,
    undispatched. *)
Theorem process_deferred_stops_at_string_topic fuel :
  deferred_queue Sample.queued
  = [(Sample.Tick, 0%nat); (Sample.Ball, 1%nat)] /\
  subscribers_of Sample.queued Sample.Ball = [4%nat] /\
  match process_deferred Sample.env (S fuel) Sample.queued with
  | Raise e w' =>
      e = AttributeError "__name__" /\
      popped (trace w') = [(Sample.Tick, 0%nat)] /\
      invocations (trace w') = [] /\
      deferred_queue w' = [(Sample.Ball, 1%nat)]
  | _ => False
  end.
Proof. vm_compute. repeat split; reflexivity. Qed.

(* ===================================================================== *)
(** ** The pipeline state machine *)
(* ===================================================================== *)

Lemma lifecycle_terminated env fuel op w :
  state w = PipelineState.TERMINATED ->
  exists w', lifecycle env fuel op w = Ok tt w' /\
             state w' = PipelineState.TERMINATED.
Proof.
  intros H. destruct op; simpl; unfold modify, bind.
  - eexists; split; [reflexivity|]. unfold start. rewrite bool_decide_true by done.
    exact H.
  - eexists; split; [reflexivity|]. unfold pause.
    rewrite bool_decide_false by congruence. exact H.
  - eexists; split; [reflexivity|]. unfold resume.
    rewrite bool_decide_false by congruence. exact H.
  - eexists; split; [reflexivity|]. unfold stop.
    rewrite bool_decide_false by (intros [] ; exact H). exact H.
  - eexists; split; [reflexivity|]. unfold trigger.
    destruct (bool_decide _); exact H.
  - exists w. unfold step. rewrite bool_decide_true by congruence.
    split; [reflexivity|exact H].
Qed.

(** C7. TERMINATED is absorbing: from a terminated pipeline, every sequence
    of calls to [start], [pause], [resume], [stop], [trigger] and [step] runs
    to its end without raising and leaves the state TERMINATED. *)
Theorem terminated_is_absorbing env fuel ops w :
  state w = PipelineState.TERMINATED ->
  exists w', lifecycle_seq env fuel ops w = Ok tt w' /\
             state w' = PipelineState.TERMINATED.
Proof.
  revert w. induction ops as [|op ops IH]; intros w H; simpl.
  - exists w. split; [reflexivity|exact H].
  - destruct (lifecycle_terminated env fuel op w H) as (w1 & E & H1).
    unfold bind. rewrite E. apply IH, H1.
Qed.

Lemma terminated_is_absorbing_witness :
  let w := stop Sample.env (Sample.started PipelineMode.LOOP [1%nat; 2%nat]) in
  state w = PipelineState.TERMINATED /\
  exists w',
    lifecycle_seq Sample.env 0
      [DoStart; DoResume; DoTrigger; DoStep; DoPause; DoStop; DoStart] w
    = Ok tt w' /\ state w' = PipelineState.TERMINATED.
Proof.
  intros w.
  assert (H : state w = PipelineState.TERMINATED) by (vm_compute; reflexivity).
  split; [exact H|].
  exact (terminated_is_absorbing Sample.env 0
           [DoStart; DoResume; DoTrigger; DoStep; DoPause; DoStop; DoStart] w H).
Defined.

(** C2. The constructor does not create [_last_time] and no operation other
    than [step] itself could: in every world a pipeline built from a
    configuration can reach, the attribute is missing.  So a [step] that
    passes the RUNNING gate (and the trigger gate in CONDITIONAL mode) raises
    [AttributeError] at the read of [_last_time]: the frame index, the
    trace (no strategy executed), the log, the router (no deferred event
    flushed) and the chain are as before, the attribute is still missing
    afterwards, and no [step] ever returns after doing work: when [step]
    returns at all, it returns [False] from a gate with the world untouched. *)
Theorem last_time_never_initialized env cfg w :
  reachable env cfg w ->
  _last_time (pipe w) = None /\
  forall fuel,
    (gates_pass w ->
     exists w',
       step env fuel w = Raise (AttributeError "_last_time") w' /\
       frame_index w' = frame_index w /\
       trace w' = trace w /\ log w' = log w /\
       router w' = router w /\ lists w' = lists w /\
       _last_time (pipe w') = None) /\
    (forall b w', step env fuel w = Ok b w' -> b = false /\ w' = w).
Proof.
  intros Hr. pose proof (reachable_unanchored env cfg w Hr) as Hl.
  split; [exact Hl|]. intros fuel. split.
  - intros Hg. exists (at_anchor_read w).
    split; [apply step_unanchored; assumption|].
    unfold at_anchor_read. case_bool_decide; simpl; repeat split; exact Hl.
  - intros b w' E. destruct (gates_pass_dec w) as [Hg|Hg].
    + rewrite (step_unanchored env fuel w Hl Hg) in E. discriminate.
    + rewrite (step_gated env fuel w Hg) in E. injection E as <- <-. auto.
Qed.

Lemma last_time_never_initialized_witness :
  let cfg := Sample.make_config PipelineMode.LOOP [1%nat; 2%nat] in
  let w := Sample.started PipelineMode.LOOP [1%nat; 2%nat] in
  reachable Sample.env cfg w /\
  _last_time (pipe w) = None /\
  forall fuel,
    (gates_pass w ->
     exists w',
       step Sample.env fuel w = Raise (AttributeError "_last_time") w' /\
       frame_index w' = frame_index w /\
       trace w' = trace w /\ log w' = log w /\
       router w' = router w /\ lists w' = lists w /\
       _last_time (pipe w') = None) /\
    (forall b w', step Sample.env fuel w = Ok b w' -> b = false /\ w' = w).
Proof.
  intros cfg w.
  assert (Hr : reachable Sample.env cfg w).
  { apply (reachable_op Sample.env cfg
             (Sample.built PipelineMode.LOOP [1%nat; 2%nat])
             (OpPipeline CallStart) 0 w).
    - apply reachable_init. vm_compute. reflexivity.
    - vm_compute. reflexivity. }
  split; [exact Hr|].
  exact (last_time_never_initialized Sample.env cfg w Hr).
Defined.

(** The started sample pipeline does pass the gates, so its first step is
    the failing one. *)
Example first_step_raises :
  exists w',
    step Sample.env 10 (Sample.started PipelineMode.LOOP [1%nat; 2%nat])
    = Raise (AttributeError "_last_time") w' /\
    frame_index w' = 0 /\ trace w' = [].
Proof. eexists. split; [vm_compute; reflexivity|]. split; reflexivity. Qed.

(* ===================================================================== *)
(** ** The step algorithm *)
(* ===================================================================== *)


(** The same happens in LOOP mode when a strategy stops the pipeline during
    the step. *)
Example stopping_strategy_resets_frame_index :
  match step Sample.env 20
          (Sample.anchored PipelineMode.LOOP [1%nat; 6%nat; 2%nat]) with
  | Ok did_work w' =>
      did_work = true /\ executions (trace w') = [1%nat; 6%nat] /\
      state w' = PipelineState.TERMINATED /\ frame_index w' = 0
  | _ => False
  end.
Proof. vm_compute. repeat split; reflexivity. Qed.






(** The same seen on whole steps: the chains capture-reject-detect and
    capture-faulty-detect stop after their second strategy; frame 7 is
    released, the step returns and the pipeline is still RUNNING. *)
Example failing_strategy_truncates_step :
  match step Sample.env 20
          (Sample.anchored PipelineMode.LOOP [1%nat; 3%nat; 2%nat]) with
  | Ok did_work w' =>
      did_work = true /\ executions (trace w') = [1%nat; 3%nat] /\
      is_released w' 7%nat = true /\ state w' = PipelineState.RUNNING
  | _ => False
  end.
Proof. vm_compute. repeat split; reflexivity. Qed.

Example raising_strategy_truncates_step :
  match step Sample.env 20
          (Sample.anchored PipelineMode.LOOP [1%nat; 5%nat; 2%nat]) with
  | Ok did_work w' =>
      did_work = true /\ executions (trace w') = [1%nat; 5%nat] /\
      is_released w' 7%nat = true /\ state w' = PipelineState.RUNNING
  | _ => False
  end.
Proof. vm_compute. repeat split; reflexivity. Qed.

(* ===================================================================== *)
(** ** The strategy chain *)
(* ===================================================================== *)




(** An edit made by a strategy during the step does not reach the loop in
    flight: the chain capture, extend, detect, whose second strategy appends
    a strategy to the chain, executes its three strategies and not the
    appended one, which is part of the chain installed for the next step. *)
Example edit_during_step_is_not_seen :
  let env :=
    {| perf_counter := perf_counter Sample.env;
       strategy_name := strategy_name Sample.env;
       pipeline_aware := pipeline_aware Sample.env;
       strategy_execute := fun s fi input =>
         match s with
         | 8%nat => ([APipeline (CallAddStrategy 9%nat)], ExecReturn true input)
         | _ => strategy_execute Sample.env s fi input
         end;
       strategy_cleanup := strategy_cleanup Sample.env;
       callback_run := callback_run Sample.env |} in
  match step env 20 (Sample.anchored PipelineMode.LOOP [1%nat; 8%nat; 2%nat])
  with
  | Ok _ w' =>
      executions (trace w') = [1%nat; 8%nat; 2%nat] /\
      strategies w' = [1%nat; 8%nat; 2%nat; 9%nat]
  | _ => False
  end.
Proof. vm_compute. split; reflexivity. Qed.

(* ===================================================================== *)
(** ** The executor *)
(* ===================================================================== *)

(** C1 (the code departs from the claim).  The router raises a plain
    [Exception] for a CRITICAL publish, not the [PipelineCriticalError] the
    executor looks for, and [step] catches every [Exception] raised by
    [strategy.execute], so the signal never leaves [step].  In the
    sample system the second strategy of pipeline 0 publishes at CRITICAL
    priority in every step: [step] returns [True], and after three sweeps of
    the executor nothing has been published on the hub, pipeline 0 is still
    RUNNING and attached, its log shows the signal as an unexpected strategy
    error, and the executor has logged nothing. *)
Theorem critical_publish_is_swallowed_by_step :
  match publish Sample.env 5 Sample.Ball 0%nat (Some "S4")
          EventPriority.CRITICAL
          (Sample.started PipelineMode.LOOP [1%nat; 4%nat; 2%nat]) with
  | Raise e _ =>
      e = Exception
            "CRITICAL Signal: <class 'app.events.BallDetected'> from S4" /\
      is_PipelineCriticalError e = false
  | _ => False
  end /\
  match step Sample.env 20
          (Sample.anchored PipelineMode.LOOP [1%nat; 4%nat; 2%nat]) with
  | Ok did_work w' =>
      did_work = true /\ state w' = PipelineState.RUNNING /\
      executions (trace w') = [1%nat; 4%nat]
  | _ => False
  end /\
  match _loop Sample.env 20 3 Sample.system with
  | Some sys' =>
      hub_published sys' = [] /\
      Sample.object_state sys' 0%nat = Some PipelineState.RUNNING /\
      _pipelines (executor sys') = [0%nat; 1%nat] /\
      Sample.object_errors sys' 0%nat
      = replicate 3
          (MsgUnexpectedError "Alarm"
             (Exception
                "CRITICAL Signal: <class 'app.events.BallDetected'> from S4")) /\
      sys_log sys' = [] /\
      Sample.object_frame_index sys' 1%nat = Some 3%Z
  | None => False
  end.
Proof. vm_compute. repeat split; reflexivity. Qed.

(** The clause [except PipelineCriticalError] is dead in general: no run of
    the executor loop publishes an alert. *)
Lemma loop_never_reports env fuel turns sys sys' :
  _loop env fuel turns sys = Some sys' ->
  hub_published sys' = hub_published sys.
Proof.
  revert sys. induction turns as [|turns IH]; intros sys; simpl.
  - intros [= <-]. reflexivity.
  - destruct (_running (executor sys)); [|intros [= <-]; reflexivity].
    destruct (sweep env fuel sys) as [sys1|] eqn:E; [|discriminate].
    intros H. rewrite (IH _ H). eapply sweep_never_reports; exact E.
Qed.
(* ===================================================================== *)
(** * Further properties of the runtime *)
(* ===================================================================== *)

(** ** Pipeline: lifecycle *)

Section Lifecycle.

Variable env : Env.

Lemma pipe_pause_resume w :
  state w = PipelineState.RUNNING -> pipe (resume (pause w)) = pipe w.
Proof.
  intros Hs. unfold pause. rewrite bool_decide_true by exact Hs.
  unfold resume. rewrite bool_decide_true by reflexivity.
  destruct w as [p ls fs sa rd lg tr]. destruct p. simpl in *.
  unfold state in Hs. simpl in Hs. subst. reflexivity.
Qed.

(** X1.  [pause] followed by [resume] gives the pipeline back: on a RUNNING
    pipeline, [pause] moves it to PAUSED and keeps the context and the
    chain, a [step] while paused returns [False] and changes nothing, and
    after [resume] the pipeline record, the list objects, the frames and
    the trace are those from before the pause (only log lines were added).
    On a pipeline that is not RUNNING [pause] does nothing at all, and
    [resume] does nothing on a pipeline that is not PAUSED (so it does not
    start an IDLE one). *)
Theorem pause_then_resume_restores_the_pipeline fuel w :
  (state w = PipelineState.RUNNING ->
     state (pause w) = PipelineState.PAUSED /\
     context (pipe (pause w)) = context (pipe w) /\
     strategies (pause w) = strategies w /\
     step env fuel (pause w) = Ok false (pause w) /\
     pipe (resume (pause w)) = pipe w /\
     lists (resume (pause w)) = lists w /\
     frames (resume (pause w)) = frames w /\
     trace (resume (pause w)) = trace w) /\
  (state w <> PipelineState.RUNNING -> pause w = w) /\
  (state w <> PipelineState.PAUSED -> resume w = w).
Proof.
  split; [|split].
  - intros Hs.
    assert (Hp : state (pause w) = PipelineState.PAUSED).
    { unfold pause. rewrite bool_decide_true by exact Hs. reflexivity. }
    split; [exact Hp|].
    split. { unfold pause. rewrite bool_decide_true by exact Hs. reflexivity. }
    split. { unfold pause. rewrite bool_decide_true by exact Hs. reflexivity. }
    split.
    { apply step_gated. intros [H _]. rewrite Hp in H. discriminate. }
    split; [apply pipe_pause_resume, Hs|].
    unfold pause. rewrite bool_decide_true by exact Hs.
    unfold resume. rewrite bool_decide_true by reflexivity.
    repeat split.
  - intros Hs. unfold pause. rewrite bool_decide_false by exact Hs. reflexivity.
  - intros Hs. unfold resume. rewrite bool_decide_false by exact Hs. reflexivity.
Qed.

(** X2.  In CONDITIONAL mode [start] clears the trigger: a [trigger] sent
    before [start] is lost, and the first [step] after such a start
    returns [False] without doing anything; a [trigger] sent after [start]
    opens the gates. *)
Theorem trigger_before_start_is_lost fuel w :
  mode w = PipelineMode.CONDITIONAL ->
  state w <> PipelineState.TERMINATED ->
  state (start (trigger w)) = PipelineState.RUNNING /\
  step env fuel (start (trigger w)) = Ok false (start (trigger w)) /\
  gates_pass (trigger (start w)).
Proof.
  intros Hm Hs.
  assert (E : start (trigger w)
              = pipeline_info (MsgStateSet PipelineState.RUNNING)
                  (pipeline_info (MsgStarted PipelineMode.CONDITIONAL)
                     (on_pipe (with_state PipelineState.RUNNING)
                        (on_pipe (with_trigger_event false)
                           (on_pipe (with_trigger_event true) w))))).
  { unfold trigger. rewrite bool_decide_true by exact Hm.
    unfold start.
    rewrite bool_decide_false by (intros H; apply Hs; exact H).
    rewrite bool_decide_true by exact Hm.
    unfold mode in *. simpl. rewrite Hm. reflexivity. }
  split; [rewrite E; reflexivity|].
  split.
  - apply step_gated. intros [_ H]. rewrite E in H.
    specialize (H Hm). discriminate.
  - unfold start.
    rewrite bool_decide_false by (intros H; apply Hs; exact H).
    rewrite bool_decide_true by exact Hm.
    unfold trigger. rewrite bool_decide_true by exact Hm.
    split; [reflexivity|]. intros _. reflexivity.
Qed.

(** X3.  [stop] on a pipeline that is not TERMINATED calls [cleanup] on
    every strategy of the chain exactly once, in chain order, whether or
    not some of these calls raise; afterwards the chain is empty, the state
    is TERMINATED and the context is reset.  A second [stop] does
    nothing. *)
Theorem stop_cleans_up_every_strategy_once w :
  state w <> PipelineState.TERMINATED ->
  trace (stop env w) = trace w ++ map EvCleanup (strategies w) /\
  strategies (stop env w) = [] /\
  state (stop env w) = PipelineState.TERMINATED /\
  context (pipe (stop env w)) = PipelineContext_init /\
  stop env (stop env w) = stop env w.
Proof.
  intros Hs.
  assert (Ht : state (stop env w) = PipelineState.TERMINATED)
    by apply stop_terminates.
  split.
  { unfold stop. rewrite bool_decide_true by exact Hs.
    unfold cleanup. simpl. rewrite trace_foldl_cleanup_one. reflexivity. }
  split.
  { unfold strategies, deref. rewrite (lists_stop env w Hs).
    unfold stop. rewrite bool_decide_true by exact Hs.
    rewrite pipe_cleanup. simpl. rewrite lookup_insert_eq. reflexivity. }
  split; [exact Ht|].
  split.
  { unfold stop. rewrite bool_decide_true by exact Hs.
    rewrite pipe_cleanup. reflexivity. }
  unfold stop at 1. rewrite bool_decide_false; [reflexivity|].
  intros H. apply H, Ht.
Qed.

End Lifecycle.

Lemma pause_then_resume_restores_the_pipeline_witness :
  let w := Sample.started PipelineMode.LOOP [1%nat; 2%nat] in
  state w = PipelineState.RUNNING /\
  state (pause w) = PipelineState.PAUSED /\
  context (pipe (pause w)) = context (pipe w) /\
  strategies (pause w) = strategies w /\
  step Sample.env 5 (pause w) = Ok false (pause w) /\
  pipe (resume (pause w)) = pipe w /\
  lists (resume (pause w)) = lists w /\
  frames (resume (pause w)) = frames w /\
  trace (resume (pause w)) = trace w.
Proof.
  intros w.
  assert (H : state w = PipelineState.RUNNING) by (vm_compute; reflexivity).
  split; [exact H|].
  exact (proj1 (pause_then_resume_restores_the_pipeline Sample.env 5 w) H).
Defined.

Lemma trigger_before_start_is_lost_witness :
  let w := Sample.built PipelineMode.CONDITIONAL [1%nat; 2%nat] in
  mode w = PipelineMode.CONDITIONAL /\
  state w <> PipelineState.TERMINATED /\
  state (start (trigger w)) = PipelineState.RUNNING /\
  step Sample.env 5 (start (trigger w)) = Ok false (start (trigger w)) /\
  gates_pass (trigger (start w)).
Proof.
  intros w.
  assert (Hm : mode w = PipelineMode.CONDITIONAL) by (vm_compute; reflexivity).
  assert (Hs : state w <> PipelineState.TERMINATED)
    by (vm_compute; discriminate).
  split; [exact Hm|]. split; [exact Hs|].
  exact (trigger_before_start_is_lost Sample.env 5 w Hm Hs).
Defined.

Lemma stop_cleans_up_every_strategy_once_witness :
  let w := Sample.started PipelineMode.LOOP [1%nat; 2%nat] in
  state w <> PipelineState.TERMINATED /\
  trace (stop Scene.env w) = trace w ++ map EvCleanup (strategies w) /\
  strategies (stop Scene.env w) = [] /\
  state (stop Scene.env w) = PipelineState.TERMINATED /\
  context (pipe (stop Scene.env w)) = PipelineContext_init /\
  stop Scene.env (stop Scene.env w) = stop Scene.env w.
Proof.
  intros w.
  assert (Hs : state w <> PipelineState.TERMINATED)
    by (vm_compute; discriminate).
  split; [exact Hs|].
  exact (stop_cleans_up_every_strategy_once Scene.env w Hs).
Defined.

(** With the chain capture, detect, where the cleanup of detect raises,
    both strategies are cleaned up and the error is logged as a warning. *)
Example stop_survives_a_failing_cleanup :
  let w := stop Scene.env (Sample.started PipelineMode.LOOP [1%nat; 2%nat]) in
  trace w = [EvCleanup 1%nat; EvCleanup 2%nat] /\
  In {| severity := SevWarning; source := "pipe";
        message := MsgCleanupError "Detect" (Exception "busy") |} (log w).
Proof. vm_compute. split; [reflexivity|]. auto 10. Qed.

(** ** Pipeline: editing the chain *)


Lemma py_remove_first (pre post : list nat) x :
  x ∉ pre -> py_remove x (pre ++ x :: post) = pre ++ post.
Proof.
  induction pre as [|y pre IH]; intros Hn; simpl.
  - rewrite bool_decide_true by reflexivity. reflexivity.
  - rewrite bool_decide_false.
    + f_equal. apply IH. intros H. apply Hn. right. exact H.
    + intros ->. apply Hn. left.
Qed.

Section Edits.
Variable env : Env.

Lemma trace_remove_strategy s w :
  s ∈ strategies w ->
  trace (remove_strategy env s w) = trace w ++ [EvCleanup s].
Proof.
  intros Hin. unfold remove_strategy. rewrite bool_decide_true by exact Hin.
  destruct (strategy_cleanup env s); reflexivity.
Qed.


(** X5.  [insert_strategy] fails on its index only when the index does
    not fit a C [Py_ssize_t]: it then raises [OverflowError] with the
    strategy already bound to the pipeline (it carries the pipeline's log
    policy), and the chain is as before.  For every other index it returns
    and the chain has grown by one: an index at or beyond the length
    appends, an index at or below minus the length prepends, an index from
    0 to the length inserts before the entry at that index, and a negative
    index counts from the end. *)
Theorem insert_strategy_clamps_the_index index s w :
  (index < PY_SSIZE_T_MIN \/ PY_SSIZE_T_MAX < index ->
   exists w',
     insert_strategy env index s w = Raise OverflowError w' /\
     _strategies (pipe w') = _strategies (pipe w) /\
     strategies w' = strategies w /\
     s_log_policy <$> strategy_attrs w' !! s = Some (p_log_policy (pipe w))) /\
  (PY_SSIZE_T_MIN <= index <= PY_SSIZE_T_MAX ->
   exists w',
     insert_strategy env index s w = Ok tt w' /\
     length (strategies w') = S (length (strategies w)) /\
     (Z.of_nat (length (strategies w)) <= index ->
      strategies w' = strategies w ++ [s]) /\
     (index <= - Z.of_nat (length (strategies w)) ->
      strategies w' = s :: strategies w) /\
     (0 <= index <= Z.of_nat (length (strategies w)) ->
      strategies w'
      = take (Z.to_nat index) (strategies w)
        ++ s :: drop (Z.to_nat index) (strategies w)) /\
     (- Z.of_nat (length (strategies w)) <= index < 0 ->
      strategies w'
      = take (length (strategies w) - Z.to_nat (- index)) (strategies w)
        ++ s :: drop (length (strategies w) - Z.to_nat (- index))
                  (strategies w))).
Proof.
  split.
  - intros Hi.
    destruct (insert_strategy_overflow env index s w Hi) as (E & Hp & Hl).
    eexists. split; [exact E|]. split; [rewrite Hp; reflexivity|].
    split; [apply strategies_bind_pipeline_context|].
    unfold _bind_pipeline_context.
    destruct (pipeline_aware env s); simpl; rewrite lookup_insert_eq;
      reflexivity.
  - intros Hi.
    destruct (insert_strategy_strategies env index s w Hi) as (w' & E & Hs).
    exists w'. split; [exact E|]. rewrite Hs.
    set (l := strategies w). unfold ins1.
    split; [|split; [|split; [|split]]].
    + rewrite length_app. simpl. rewrite length_take, length_drop.
      destruct (index <? 0) eqn:E0;
        [apply Z.ltb_lt in E0|apply Z.ltb_ge in E0]; lia.
    + intros H. destruct (index <? 0) eqn:E0;
        [apply Z.ltb_lt in E0; lia|].
      rewrite Z.min_r by lia. rewrite Nat2Z.id.
      rewrite take_ge, drop_ge by lia. reflexivity.
    + intros H. destruct (index <? 0) eqn:E0.
      * rewrite Z.max_l by lia. reflexivity.
      * apply Z.ltb_ge in E0. assert (index = 0) as -> by lia.
        assert (length l = 0%nat) as Hl by lia.
        rewrite Z.min_l by lia. reflexivity.
    + intros H. destruct (index <? 0) eqn:E0;
        [apply Z.ltb_lt in E0; lia|].
      rewrite Z.min_l by lia. reflexivity.
    + intros H. destruct (index <? 0) eqn:E0;
        [|apply Z.ltb_ge in E0; lia].
      rewrite Z.max_r by lia.
      replace (Z.to_nat (index + Z.of_nat (length l)))
        with (length l - Z.to_nat (- index))%nat by lia.
      reflexivity.
Qed.

(** X6.  [remove_strategy_by_name] removes the first strategy of the chain
    that carries the name, and only that one, and calls its [cleanup]
    once; when no strategy carries the name it logs a warning and changes
    nothing. *)
Theorem remove_strategy_by_name_removes_first_match name w :
  ((forall s, s ∈ strategies w -> strategy_name env s <> name) ->
   remove_strategy_by_name env name w
   = pipeline_warning (MsgNameNotFound name) w) /\
  (forall pre s post,
     strategies w = pre ++ s :: post ->
     strategy_name env s = name ->
     (forall x, x ∈ pre -> strategy_name env x <> name) ->
     strategies (remove_strategy_by_name env name w) = pre ++ post /\
     trace (remove_strategy_by_name env name w) = trace w ++ [EvCleanup s]).
Proof.
  split.
  - intros H. unfold remove_strategy_by_name.
    destruct (filter _ _) as [|t l] eqn:E; [reflexivity|].
    exfalso.
    assert (Hin : t ∈ filter (fun s => strategy_name env s = name)
                         (strategies w)) by (rewrite E; left).
    apply list_elem_of_filter in Hin. destruct Hin as [Hn Hin].
    exact (H t Hin Hn).
  - intros pre s post Hl Hn Hpre.
    assert (E : remove_strategy_by_name env name w = remove_strategy env s w).
    { unfold remove_strategy_by_name. rewrite Hl, filter_app.
      replace (filter (fun s0 => strategy_name env s0 = name) pre) with (@nil nat).
      - simpl. rewrite filter_cons_True by exact Hn. reflexivity.
      - symmetry. clear Hl. induction pre as [|y pre IH]; [reflexivity|].
        rewrite filter_cons_False by (apply Hpre; left).
        apply IH. intros x Hx. apply Hpre. right. exact Hx. }
    rewrite E. split.
    + rewrite remove_strategy_strategies, Hl. apply py_remove_first.
      intros Hin. exact (Hpre s Hin Hn).
    + apply trace_remove_strategy. rewrite Hl.
      apply elem_of_app. right. left.
Qed.

End Edits.


(** When a strategy occurs twice, removing by the index of its second
    occurrence removes the first one. *)
Example remove_strategy_by_index_with_a_repeated_strategy :
  strategies
    (remove_strategy_by_index Sample.env 2
       (Sample.started PipelineMode.LOOP [1%nat; 2%nat; 1%nat]))
  = [2%nat; 1%nat].
Proof. vm_compute. reflexivity. Qed.

Lemma insert_strategy_clamps_the_index_witness :
  let w := Sample.started PipelineMode.LOOP [1%nat; 2%nat] in
  PY_SSIZE_T_MIN <= 10 <= PY_SSIZE_T_MAX /\
  Z.of_nat (length (strategies w)) <= 10 /\
  (exists w', insert_strategy Sample.env 10 3%nat w = Ok tt w' /\
              strategies w' = strategies w ++ [3%nat]) /\
  (- 2 ^ 64 < PY_SSIZE_T_MIN \/ PY_SSIZE_T_MAX < - 2 ^ 64) /\
  (exists w', insert_strategy Sample.env (- 2 ^ 64) 3%nat w
              = Raise OverflowError w' /\
              strategies w' = strategies w).
Proof.
  intros w.
  assert (Hr : PY_SSIZE_T_MIN <= 10 <= PY_SSIZE_T_MAX)
    by (unfold PY_SSIZE_T_MIN, PY_SSIZE_T_MAX; lia).
  assert (H : Z.of_nat (length (strategies w)) <= 10)
    by (apply Z.leb_le; vm_compute; reflexivity).
  assert (Ho : - 2 ^ 64 < PY_SSIZE_T_MIN \/ PY_SSIZE_T_MAX < - 2 ^ 64)
    by (left; unfold PY_SSIZE_T_MIN; lia).
  split; [exact Hr|]. split; [exact H|].
  split.
  { destruct (proj2 (insert_strategy_clamps_the_index Sample.env 10 3%nat w)
                Hr) as (w' & E & _ & Happ & _).
    exists w'. split; [exact E|exact (Happ H)]. }
  split; [exact Ho|].
  destruct (proj1 (insert_strategy_clamps_the_index
                     Sample.env (- 2 ^ 64) 3%nat w) Ho)
    as (w' & E & _ & Hs & _).
  exists w'. split; [exact E|exact Hs].
Defined.

(** A strategy inserted with an index that overflows is bound to the
    pipeline all the same, without being part of the chain. *)
Example insert_strategy_overflow_binds_the_strategy :
  match insert_strategy Sample.env (2 ^ 63) 3%nat
          (Sample.started PipelineMode.LOOP [1%nat; 2%nat]) with
  | Raise e w' =>
      e = OverflowError /\ strategies w' = [1%nat; 2%nat] /\
      s_pipeline <$> strategy_attrs w' !! 3%nat = Some true
  | _ => False
  end.
Proof. vm_compute. repeat split; reflexivity. Qed.

Lemma remove_strategy_by_name_removes_first_match_witness :
  let w := Sample.started PipelineMode.LOOP [1%nat; 2%nat; 3%nat] in
  strategies w = [1%nat] ++ 2%nat :: [3%nat] /\
  strategy_name Sample.env 2%nat = "Detect" /\
  (forall x, x ∈ [1%nat] -> strategy_name Sample.env x <> "Detect") /\
  strategies (remove_strategy_by_name Sample.env "Detect" w)
  = [1%nat] ++ [3%nat] /\
  trace (remove_strategy_by_name Sample.env "Detect" w)
  = trace w ++ [EvCleanup 2%nat].
Proof.
  intros w.
  assert (Hl : strategies w = [1%nat] ++ 2%nat :: [3%nat])
    by (vm_compute; reflexivity).
  assert (Hn : strategy_name Sample.env 2%nat = "Detect") by reflexivity.
  assert (Hp : forall x, x ∈ [1%nat] ->
                 strategy_name Sample.env x <> "Detect").
  { intros x Hx. apply list_elem_of_singleton in Hx. subst x.
    vm_compute. discriminate. }
  split; [exact Hl|]. split; [exact Hn|]. split; [exact Hp|].
  exact (proj2 (remove_strategy_by_name_removes_first_match
                  Sample.env "Detect" w) [1%nat] 2%nat [3%nat] Hl Hn Hp).
Defined.

(** ** Relations kept by a whole step *)

Section StepRespects.

Variable env : Env.
Variable R : World -> World -> Prop.
Hypothesis R_refl : forall w, R w w.
Hypothesis R_trans : forall a b c, R a b -> R b c -> R a c.
Hypothesis R_log : forall f w, R w (on_log f w).
Hypothesis R_invoke : forall cb t d w, R w (record (EvInvoke cb t d) w).
Hypothesis R_interrupt : forall w, R w (request_frame_interrupt w).
Hypothesis R_enqueue : forall t d w, R w (enqueue t d w).
Hypothesis R_touch : forall t w, R w (touch_subscribers t w).
Hypothesis R_subscribe : forall t cb w, R w (subscribe t cb w).
Hypothesis R_policy : forall t p w, R w (set_event_policy t p w).
Hypothesis R_call : forall c w, R w (after_call env c w).
Hypothesis R_pop : forall t d q w, R w (popleft t d q w).
Hypothesis R_release : forall cd w, R w (release_data cd w).
Hypothesis R_execute : forall s i w, R w (record (EvExecute s i) w).
Hypothesis R_failed : forall s i w, R w (record (EvFailed s i) w).
Hypothesis R_sleep : forall t w, R w (record (EvSleep t) w).
Hypothesis R_reads : forall w, R w (on_reads S w).
Hypothesis R_anchor_read : forall w, R w (at_anchor_read w).
Hypothesis R_frame_start : forall t0 w, R w (frame_start env t0 w).

Lemma respects_step_tail fuel t0 r : respects R (step_tail env fuel t0 r).
Proof.
  unfold step_tail.
  apply respects_bind; [exact R_trans| |].
  - apply respects_step_finally; assumption.
  - intros ?. destruct (exit r).
    + apply respects_bind; [exact R_trans| |].
      * apply respects_modify. intros w. case_bool_decide;
          [exact (R_call CallStop w)|apply R_refl].
      * intros ?. apply respects_ret. exact R_refl.
    + apply respects_ret. exact R_refl.
Qed.

Lemma respects_step fuel : respects R (step env fuel).
Proof.
  intros w w' H.
  destruct (gates_pass_dec w) as [Hg|Hg].
  - destruct (_last_time (pipe w)) as [t0|] eqn:El.
    + rewrite (step_anchored env fuel w t0 El Hg) in H.
      eapply R_trans; [apply (R_frame_start t0)|].
      revert H. apply respects_bind; [exact R_trans| |].
      * apply respects_walk; assumption.
      * intros r. apply respects_step_tail.
    + rewrite (step_unanchored env fuel w El Hg) in H.
      injection H as <-. apply R_anchor_read.
  - rewrite (step_gated env fuel w Hg) in H. injection H as <-. apply R_refl.
Qed.

Lemma respects_run_op fuel op : respects R (run_op env fuel op).
Proof.
  destruct op; simpl.
  - apply respects_pipeline_call. exact R_call.
  - apply respects_exec; assumption.
  - apply respects_process_deferred; assumption.
  - apply respects_bind; [exact R_trans|apply respects_step|].
    intros ?. apply respects_ret. exact R_refl.
Qed.

End StepRespects.

(** ** Pipeline: the log policy of the strategies *)

Section LogPolicyChain.
Variable env : Env.

Lemma keeps_policies_agreeing_refl w : keeps_policies_agreeing w w.
Proof. intros H. exact H. Qed.

Lemma keeps_policies_agreeing_trans a b c :
  keeps_policies_agreeing a b -> keeps_policies_agreeing b c ->
  keeps_policies_agreeing a c.
Proof. unfold keeps_policies_agreeing. tauto. Qed.

Lemma keeps_policies_agreeing_same w w' :
  lists w' = lists w -> _strategies (pipe w') = _strategies (pipe w) ->
  strategy_attrs w' = strategy_attrs w ->
  p_log_policy (pipe w') = p_log_policy (pipe w) ->
  keeps_policies_agreeing w w'.
Proof.
  intros El Es Ea Ep H s Hs. unfold strategies, deref in *.
  rewrite El, Es in Hs. rewrite Ea, Ep. apply H, Hs.
Qed.

Lemma strategy_attrs_foldl_cleanup_one l w :
  strategy_attrs (foldl (cleanup_one env) w l) = strategy_attrs w.
Proof.
  revert w. induction l as [|s l IH]; intros w; simpl; [reflexivity|].
  rewrite IH. unfold cleanup_one. destruct (strategy_cleanup env s); reflexivity.
Qed.

Lemma bind_pipeline_context_policy s w x :
  s_log_policy <$> (strategy_attrs (_bind_pipeline_context env s w) !! x)
  = if bool_decide (x = s) then Some (p_log_policy (pipe w))
    else s_log_policy <$> (strategy_attrs w !! x).
Proof.
  unfold _bind_pipeline_context, set_strategy_log_policy.
  destruct (pipeline_aware env s); simpl; case_bool_decide as E.
  - subst. rewrite lookup_insert_eq. reflexivity.
  - rewrite !lookup_insert_ne by (intros ->; apply E; reflexivity).
    reflexivity.
  - subst. rewrite lookup_insert_eq. reflexivity.
  - rewrite lookup_insert_ne by (intros ->; apply E; reflexivity).
    reflexivity.
Qed.

Lemma foldl_set_strategy_log_policy_policy p l :
  forall w x,
    s_log_policy <$>
      (strategy_attrs (foldl (set_strategy_log_policy p) w l) !! x)
    = if bool_decide (x ∈ l) then Some p
      else s_log_policy <$> (strategy_attrs w !! x).
Proof.
  induction l as [|s l IH]; intros w x; simpl.
  - reflexivity.
  - rewrite IH. destruct (decide (x ∈ l)) as [Hin|Hin].
    + rewrite (bool_decide_true (x ∈ l)) by exact Hin.
      rewrite (bool_decide_true (x ∈ s :: l)) by (right; exact Hin).
      reflexivity.
    + rewrite (bool_decide_false (x ∈ l)) by exact Hin.
      destruct (decide (x = s)) as [->|Hx].
      * rewrite bool_decide_true by left.
        unfold set_strategy_log_policy. simpl. rewrite lookup_insert_eq.
        reflexivity.
      * rewrite bool_decide_false.
        -- unfold set_strategy_log_policy. simpl.
           rewrite lookup_insert_ne by (intros ->; apply Hx; reflexivity).
           reflexivity.
        -- intros H. apply elem_of_cons in H. tauto.
Qed.

Lemma elem_of_py_remove x s l : x ∈ py_remove s l -> x ∈ l.
Proof.
  induction l as [|y l IH]; simpl; [tauto|].
  case_bool_decide.
  - intros Hx. right. exact Hx.
  - intros Hx. apply elem_of_cons in Hx. destruct Hx as [->|Hx];
      [left|right; apply IH, Hx].
Qed.

Lemma elem_of_ins1 {A} (x s : A) i l :
  x ∈ ins1 i s l -> x = s \/ x ∈ l.
Proof.
  unfold ins1.
  set (n := Z.to_nat _). intros H. apply elem_of_app in H.
  destruct H as [H|H].
  - right. rewrite <- (take_drop n l). apply elem_of_app. left. exact H.
  - apply elem_of_cons in H. destruct H as [->|H]; [left; reflexivity|].
    right. rewrite <- (take_drop n l). apply elem_of_app. right. exact H.
Qed.

Lemma strategy_attrs_remove_strategy s w :
  strategy_attrs (remove_strategy env s w) = strategy_attrs w.
Proof.
  unfold remove_strategy. case_bool_decide; [|reflexivity].
  destruct (strategy_cleanup env s); reflexivity.
Qed.

Lemma log_policy_remove_strategy s w :
  p_log_policy (pipe (remove_strategy env s w)) = p_log_policy (pipe w).
Proof.
  destruct (pipe_remove_strategy env s w) as [->|[a ->]]; reflexivity.
Qed.

Lemma remove_strategy_keeps_policies_agreeing s w :
  keeps_policies_agreeing w (remove_strategy env s w).
Proof.
  intros H x Hx. rewrite remove_strategy_strategies in Hx.
  rewrite strategy_attrs_remove_strategy, log_policy_remove_strategy.
  apply H. eapply elem_of_py_remove. exact Hx.
Qed.

Lemma bind_then_install_keeps_policies_agreeing s w new_chain m :
  (forall x, x ∈ new_chain -> x = s \/ x ∈ strategies w) ->
  keeps_policies_agreeing w
    (pipeline_info m (install_chain new_chain (_bind_pipeline_context env s w))).
Proof.
  intros Hsub H x Hx.
  assert (Hx' : x ∈ new_chain).
  { change (x ∈ strategies (install_chain new_chain
                              (_bind_pipeline_context env s w))) in Hx.
    rewrite install_chain_strategies in Hx. exact Hx. }
  change (s_log_policy <$>
            (strategy_attrs (_bind_pipeline_context env s w) !! x)
          = Some (p_log_policy (pipe (_bind_pipeline_context env s w)))).
  rewrite bind_pipeline_context_policy, pipe_bind_pipeline_context.
  case_bool_decide as E; [reflexivity|].
  destruct (Hsub x Hx') as [->|Hin]; [exfalso; apply E; reflexivity|].
  apply H, Hin.
Qed.

(** Binding a strategy that is not put into the chain. *)
Lemma bind_keeps_policies_agreeing s w :
  keeps_policies_agreeing w (_bind_pipeline_context env s w).
Proof.
  intros H x Hx. rewrite strategies_bind_pipeline_context in Hx.
  rewrite bind_pipeline_context_policy, pipe_bind_pipeline_context.
  case_bool_decide; [reflexivity|apply H, Hx].
Qed.

Lemma pipeline_call_keeps_policies_agreeing c w :
  keeps_policies_agreeing w (after_call env c w).
Proof.
  by_call c.
  - unfold start. repeat case_bool_decide;
      apply keeps_policies_agreeing_same; reflexivity.
  - unfold trigger. case_bool_decide;
      apply keeps_policies_agreeing_same; reflexivity.
  - unfold pause. case_bool_decide;
      apply keeps_policies_agreeing_same; reflexivity.
  - unfold resume. case_bool_decide;
      apply keeps_policies_agreeing_same; reflexivity.
  - destruct (decide (state w = PipelineState.TERMINATED)) as [Hs|Hs].
    + unfold stop. rewrite bool_decide_false by (intros H; apply H, Hs).
      apply keeps_policies_agreeing_refl.
    + intros _ x Hx. exfalso. revert Hx. unfold strategies, deref.
      rewrite (lists_stop env w Hs).
      unfold stop. rewrite bool_decide_true by exact Hs.
      rewrite pipe_cleanup. simpl. rewrite lookup_insert_eq. simpl.
      apply not_elem_of_nil.
  - apply keeps_policies_agreeing_same; reflexivity.
  - unfold add_strategy. apply bind_then_install_keeps_policies_agreeing.
    intros x Hx. rewrite strategies_bind_pipeline_context in Hx.
    apply elem_of_app in Hx. destruct Hx as [Hx|Hx]; [right; exact Hx|].
    apply list_elem_of_singleton in Hx. left. exact Hx.
  - unfold insert_strategy. cbv beta zeta.
    destruct (py_insert _ _ _) as [e|l] eqn:E; cbv beta iota.
    + apply bind_keeps_policies_agreeing.
    + apply bind_then_install_keeps_policies_agreeing.
      intros x Hx. unfold py_insert in E.
      destruct (_ || _); [discriminate|]. injection E as <-.
      rewrite strategies_bind_pipeline_context in Hx.
      apply elem_of_ins1 in Hx. exact Hx.
  - apply remove_strategy_keeps_policies_agreeing.
  - unfold remove_strategy_by_name. destruct (filter _ _) as [|t ?].
    + apply keeps_policies_agreeing_same; reflexivity.
    + apply remove_strategy_keeps_policies_agreeing.
  - unfold remove_strategy_by_index. destruct (_ && _).
    + destruct (_ !! _) as [t|]; [|apply keeps_policies_agreeing_refl].
      apply remove_strategy_keeps_policies_agreeing.
    + apply keeps_policies_agreeing_same; reflexivity.
  - intros _ x Hx. unfold set_log_policy in *.
    assert (Es : forall l w0,
               strategies (foldl (set_strategy_log_policy policy) w0 l)
               = strategies w0).
    { intros l w0. unfold strategies, deref.
      rewrite lists_foldl_set_strategy_log_policy,
        pipe_foldl_set_strategy_log_policy. reflexivity. }
    rewrite Es in Hx.
    rewrite foldl_set_strategy_log_policy_policy,
      pipe_foldl_set_strategy_log_policy.
    rewrite bool_decide_true by exact Hx. reflexivity.
Qed.

End LogPolicyChain.

Section LogPolicyTheorem.
Variable env : Env.

Ltac agree_same :=
  intros; apply keeps_policies_agreeing_same;
  rewrite ?release_data_lists, ?release_data_pipe; try reflexivity.

Lemma strategy_attrs_release_data cd w :
  strategy_attrs (release_data cd w) = strategy_attrs w.
Proof. destruct cd; reflexivity. Qed.

Lemma frame_start_pipe_chain t0 w :
  _strategies (pipe (frame_start env t0 w)) = _strategies (pipe w) /\
  p_log_policy (pipe (frame_start env t0 w)) = p_log_policy (pipe w) /\
  lists (frame_start env t0 w) = lists w /\
  strategy_attrs (frame_start env t0 w) = strategy_attrs w.
Proof.
  unfold frame_start, at_anchor_read. case_bool_decide; repeat split.
Qed.

Lemma run_op_keeps_policies_agreeing fuel op :
  respects keeps_policies_agreeing (run_op env fuel op).
Proof.
  apply respects_run_op;
    first [ exact keeps_policies_agreeing_refl
          | exact keeps_policies_agreeing_trans
          | exact (pipeline_call_keeps_policies_agreeing env)
          | intros; apply keeps_policies_agreeing_same;
            rewrite ?release_data_lists, ?release_data_pipe,
              ?strategy_attrs_release_data; reflexivity
          | intros w; unfold at_anchor_read; case_bool_decide;
            apply keeps_policies_agreeing_same; reflexivity
          | intros t0 w;
            destruct (frame_start_pipe_chain t0 w) as (?&?&?&?);
            apply keeps_policies_agreeing_same; assumption ].
Qed.

Lemma foldl_add_strategy_policies_agree l :
  forall w, policies_agree w ->
    policies_agree (foldl (fun w s => add_strategy env s w) w l).
Proof.
  induction l as [|s l IH]; intros w H; simpl; [exact H|].
  apply IH. exact (pipeline_call_keeps_policies_agreeing env (CallAddStrategy s) w H).
Qed.


Lemma set_log_policy_policies_agree policy w :
  policies_agree (set_log_policy policy w) /\
  p_log_policy (pipe (set_log_policy policy w)) = policy.
Proof.
  split.
  - intros x Hx. unfold set_log_policy in *.
    assert (Es : forall l w0,
               strategies (foldl (set_strategy_log_policy policy) w0 l)
               = strategies w0).
    { intros l w0. unfold strategies, deref.
      rewrite lists_foldl_set_strategy_log_policy,
        pipe_foldl_set_strategy_log_policy. reflexivity. }
    rewrite Es in Hx.
    rewrite foldl_set_strategy_log_policy_policy,
      pipe_foldl_set_strategy_log_policy.
    rewrite bool_decide_true by exact Hx. reflexivity.
  - unfold set_log_policy. rewrite pipe_foldl_set_strategy_log_policy.
    reflexivity.
Qed.

Lemma Pipeline_init_policies_agree cfg w :
  Pipeline_init env cfg = inr w -> policies_agree w.
Proof.
  unfold Pipeline_init.
  destruct (cfg_router_factory cfg) as [r0|]; [|discriminate].
  intros [= <-]. apply foldl_add_strategy_policies_agree.
  assert (K : forall l w0, policies_agree w0 ->
            policies_agree
              (foldl (fun w '(event_type, policy) =>
                        set_event_policy event_type policy w) w0 l)).
  { clear. induction l as [|[t p] l IH]; intros w0 H0; simpl; [exact H0|].
    apply IH. revert H0. apply keeps_policies_agreeing_same; reflexivity. }
  apply K. intros s Hs. exfalso. revert Hs.
  unfold strategies, deref. simpl. rewrite lookup_singleton_eq. simpl.
  apply not_elem_of_nil.
Qed.

(** X7.  The pipeline keeps the log policy of its strategies in step with
    its own: in the pipeline a constructor builds, every strategy of the
    chain carries the pipeline's log policy; every operation on the
    pipeline or its router ([start], [stop], the edits of the chain,
    [set_log_policy], [publish], [subscribe], [process_deferred], [step],
    with whatever the strategies and handlers call meanwhile) keeps it so
    however it ends; and [set_log_policy] makes it so from any state, with
    the given policy. *)
Theorem strategies_follow_the_pipeline_log_policy :
  (forall cfg w, Pipeline_init env cfg = inr w -> policies_agree w) /\
  (forall fuel op w w',
     policies_agree w -> world_of (run_op env fuel op w) = Some w' ->
     policies_agree w') /\
  (forall policy w,
     policies_agree (set_log_policy policy w) /\
     p_log_policy (pipe (set_log_policy policy w)) = policy) /\
  (forall cfg w, reachable env cfg w -> policies_agree w).
Proof.
  assert (Hop : forall fuel op w w',
            policies_agree w -> world_of (run_op env fuel op w) = Some w' ->
            policies_agree w').
  { intros fuel op w w' H Hw.
    exact (run_op_keeps_policies_agreeing fuel op w w' Hw H). }
  split; [exact Pipeline_init_policies_agree|]. split; [exact Hop|].
  split; [exact set_log_policy_policies_agree|].
  intros cfg w Hr. induction Hr as [w Hi|w op fuel w' _ IH Hw].
  - exact (Pipeline_init_policies_agree cfg w Hi).
  - exact (Hop fuel op w w' IH Hw).
Qed.

End LogPolicyTheorem.

Lemma strategies_follow_the_pipeline_log_policy_witness :
  let cfg := Sample.make_config PipelineMode.LOOP [1%nat; 2%nat] in
  let w := Sample.built PipelineMode.LOOP [1%nat; 2%nat] in
  Pipeline_init Sample.env cfg = inr w /\ policies_agree w /\
  policies_agree (add_strategy Sample.env 3%nat w).
Proof.
  intros cfg w.
  assert (Hi : Pipeline_init Sample.env cfg = inr w)
    by (vm_compute; reflexivity).
  destruct (strategies_follow_the_pipeline_log_policy Sample.env)
    as (Hinit & Hop & _).
  split; [exact Hi|]. split; [exact (Hinit cfg w Hi)|].
  exact (Hop 0%nat (OpPipeline (CallAddStrategy 3%nat)) w
           (add_strategy Sample.env 3%nat w) (Hinit cfg w Hi) eq_refl).
Defined.

(** ** Pipeline: construction *)

Section Init.
Variable env : Env.

Lemma same_but_chain_refl p : same_but_chain p p.
Proof. repeat split. Qed.

Lemma same_but_chain_trans p q r :
  same_but_chain p q -> same_but_chain q r -> same_but_chain p r.
Proof.
  unfold same_but_chain.
  intros (F1&?&?&?&?&?) (F2&?&?&?&?&?).
  split; [eapply same_fixed_fields_trans; eassumption|].
  repeat split; congruence.
Qed.

Lemma add_strategy_same_but_chain s w :
  same_but_chain (pipe w) (pipe (add_strategy env s w)) /\
  trace (add_strategy env s w) = trace w /\
  frames (add_strategy env s w) = frames w /\
  reads (add_strategy env s w) = reads w.
Proof.
  unfold add_strategy, _bind_pipeline_context.
  destruct (pipeline_aware env s); repeat split.
Qed.

Lemma foldl_add_strategy_spec l :
  forall w,
    let w' := foldl (fun w s => add_strategy env s w) w l in
    same_but_chain (pipe w) (pipe w') /\
    strategies w' = strategies w ++ l /\
    trace w' = trace w /\ frames w' = frames w /\ reads w' = reads w.
Proof.
  induction l as [|s l IH]; intros w; simpl.
  - rewrite app_nil_r. repeat split.
  - destruct (IH (add_strategy env s w)) as (Hp & Hs & Ht & Hf & Hr).
    destruct (add_strategy_same_but_chain s w) as (Hp1 & Ht1 & Hf1 & Hr1).
    split; [eapply same_but_chain_trans; eassumption|].
    split.
    { rewrite Hs, add_strategy_strategies, <- app_assoc. reflexivity. }
    repeat split; congruence.
Qed.

Lemma foldl_set_event_policy_spec l :
  forall w,
    let w' := foldl (fun w '(t, p) => set_event_policy t p w) w l in
    pipe w'
    = with_router
        (with_event_policies
           (install_policies l (_event_policies (router w)))) (pipe w) /\
    lists w' = lists w /\ trace w' = trace w /\ frames w' = frames w /\
    reads w' = reads w /\ log w' = log w /\
    strategy_attrs w' = strategy_attrs w.
Proof.
  induction l as [|[t p] l IH]; intros w; simpl.
  - split; [|repeat split].
    destruct w as [pp ? ? ? ? ? ?]. destruct pp as [? ? ? r ? ? ? ? ? ? ?].
    destruct r. reflexivity.
  - destruct (IH (set_event_policy t p w)) as (Hp & Hl & Ht & Hf & Hr & Hg & Ha).
    split; [rewrite Hp; reflexivity|].
    repeat split; assumption.
Qed.

Lemma install_policies_lookup l :
  forall m t,
    (t ∉ l.*1 -> install_policies l m !! t = m !! t) /\
    (forall p, NoDup l.*1 -> (t, p) ∈ l -> install_policies l m !! t = Some p).
Proof.
  induction l as [|[t0 p0] l IH]; intros m t; simpl.
  - split; [reflexivity|]. intros p _ H. inversion H.
  - destruct (IH (<[t0 := p0]> m) t) as (IH1 & IH2). split.
    + intros Hn. unfold install_policies in *. simpl. rewrite IH1.
      * apply lookup_insert_ne. intros ->. apply Hn. left.
      * intros H. apply Hn. right. exact H.
    + intros p Hnd Hin. inversion Hnd as [|? ? Hx Hnd']; subst.
      unfold install_policies in *. simpl.
      apply elem_of_cons in Hin. destruct Hin as [[= -> ->]|Hin].
      * rewrite IH1 by exact Hx. apply lookup_insert_eq.
      * apply IH2; assumption.
Qed.

Lemma Pipeline_init_facts cfg router0 :
  cfg_router_factory cfg = Some router0 ->
  exists w, Pipeline_init env cfg = inr w /\
    state w = PipelineState.IDLE /\ mode w = cfg_mode cfg /\
    _name (pipe w) = cfg_name cfg /\ config (pipe w) = cfg /\
    strategies w = cfg_strategies cfg /\
    context (pipe w) = PipelineContext_init /\
    _trigger_event (pipe w) = false /\
    _frame_interrupted (pipe w) = false /\
    p_log_policy (pipe w) = LogPolicies.default /\
    _last_time (pipe w) = None /\
    _subscribers (router w) = _subscribers router0 /\
    deferred_queue w = _deferred_queue router0 /\
    r_log_policy (router w) = r_log_policy router0 /\
    _pipeline (router w) = _pipeline router0 /\
    _event_hub (router w) = _event_hub router0 /\
    _event_policies (router w)
    = install_policies (cfg_event_policies cfg) (_event_policies router0) /\
    trace w = [] /\ frames w = ∅.
Proof.
  unfold Pipeline_init. intros ->. eexists. split; [reflexivity|].
  match goal with
  | |- context [foldl (fun w s => add_strategy env s w) ?w1 _] =>
      set (w1' := w1)
  end.
  destruct (foldl_add_strategy_spec (cfg_strategies cfg) w1')
    as (((Hc & Hn & Hm & Hr & Hl) & Hx & Hs & Ht & Hi & Hp)
        & Hst & Htr & Hfr & _).
  match goal with
  | _ := foldl _ ?w0 _ |- _ =>
      destruct (foldl_set_event_policy_spec (cfg_event_policies cfg) w0)
        as (Ep & El & Et & Ef & _)
  end.
  fold w1' in Ep, El, Et, Ef.
  unfold state, mode, deferred_queue, router in *.
  rewrite Hs, Hm, Hn, Hc, Hst, Hx, Ht, Hi, Hp, Hr, Hl, Htr, Hfr, Ep, Et, Ef.
  simpl. repeat split.
  unfold strategies, deref. rewrite El, Ep. simpl.
  rewrite lookup_singleton_eq. reflexivity.
Qed.

(** X8.  [Pipeline.__init__] raises [ValueError] exactly when the
    configuration has no router factory.  Otherwise it builds a pipeline in
    state IDLE with the configured name and mode, whose chain is the
    configured list of strategies in the same order, with a zeroed context,
    the trigger and interrupt flags cleared, the default log policy, the
    router the factory made (its subscribers, queue and log policy as the
    factory left them) and every configured event policy installed on that
    router. *)
Theorem Pipeline_init_installs_the_configuration cfg :
  (cfg_router_factory cfg = None ->
   exists msg, Pipeline_init env cfg = inl (ValueError msg)) /\
  (forall router0, cfg_router_factory cfg = Some router0 ->
   exists w, Pipeline_init env cfg = inr w /\
     state w = PipelineState.IDLE /\ mode w = cfg_mode cfg /\
     _name (pipe w) = cfg_name cfg /\ config (pipe w) = cfg /\
     strategies w = cfg_strategies cfg /\
     context (pipe w) = PipelineContext_init /\
     _trigger_event (pipe w) = false /\
     _frame_interrupted (pipe w) = false /\
     p_log_policy (pipe w) = LogPolicies.default /\
     _subscribers (router w) = _subscribers router0 /\
     deferred_queue w = _deferred_queue router0 /\
     r_log_policy (router w) = r_log_policy router0 /\
     (forall t, t ∉ (cfg_event_policies cfg).*1 ->
        _event_policies (router w) !! t = _event_policies router0 !! t) /\
     (forall t p, NoDup (cfg_event_policies cfg).*1 ->
        (t, p) ∈ cfg_event_policies cfg ->
        _event_policies (router w) !! t = Some p) /\
     trace w = [] /\ frames w = ∅).
Proof.
  split.
  - unfold Pipeline_init. intros ->. eexists. reflexivity.
  - intros router0 Hr.
    destruct (Pipeline_init_facts cfg router0 Hr)
      as (w & E & H1 & H2 & H3 & H4 & H5 & H6 & H7 & H8 & H9 & _ & H10
          & H11 & H12 & _ & _ & H13 & H14 & H15).
    exists w. split; [exact E|].
    repeat (split; [assumption|]).
    split.
    { intros t Ht. rewrite H13.
      apply (proj1 (install_policies_lookup _ _ t) Ht). }
    split.
    { intros t p Hnd Hin. rewrite H13.
      apply (proj2 (install_policies_lookup _ _ t) p Hnd Hin). }
    split; assumption.
Qed.

(** X9.  [PipelineFactory.create_pipeline] never fails: it answers a
    pipeline in state IDLE with the given name and mode, the given
    strategies as its chain, in order, each carrying the factory's default
    log policy, which is also the pipeline's; its router is bound to the
    pipeline and to the given hub and starts with no subscriber, no policy
    and an empty queue; the frame rate is 60 with rate control and
    profiling off; and the timing anchor is not set. *)
Theorem create_pipeline_builds_an_idle_pipeline
    default_log_policy name chain event_hub mode0 :
  exists w,
    create_pipeline env default_log_policy name chain event_hub mode0 = inr w /\
    state w = PipelineState.IDLE /\ mode w = mode0 /\
    _name (pipe w) = name /\ strategies w = chain /\
    p_log_policy (pipe w) = default_log_policy /\
    policies_agree w /\
    context (pipe w) = PipelineContext_init /\
    _last_time (pipe w) = None /\
    router w = EventRouter_init true event_hub /\
    cfg_max_fps (config (pipe w)) = 60 /\
    cfg_enable_fps_control (config (pipe w)) = false /\
    cfg_enable_profiling (config (pipe w)) = false /\
    trace w = [].
Proof.
  unfold create_pipeline.
  set (cfg := {| cfg_name := name; cfg_strategies := chain;
                 cfg_mode := mode0; cfg_max_fps := 60;
                 cfg_enable_fps_control := false;
                 cfg_enable_profiling := false;
                 cfg_router_factory := Some (EventRouter_init true event_hub);
                 cfg_event_policies := [] |}).
  destruct (Pipeline_init_facts cfg (EventRouter_init true event_hub) eq_refl)
    as (w & E & H1 & H2 & H3 & H4 & H5 & H6 & H7 & H8 & H9 & H9' & H10
        & H11 & H12 & H12' & H12'' & H13 & H14 & H15).
  rewrite E. eexists. split; [reflexivity|].
  assert (Er : event_router (pipe w) = EventRouter_init true event_hub).
  { clear -H10 H11 H12 H12' H12'' H13.
    unfold deferred_queue, router, install_policies in *.
    destruct (event_router (pipe w)) as [a b c d e f]. simpl in *.
    unfold EventRouter_init. congruence. }
  assert (Ep : pipe (set_log_policy default_log_policy w)
               = with_log_policy default_log_policy (pipe w)).
  { unfold set_log_policy. rewrite pipe_foldl_set_strategy_log_policy.
    reflexivity. }
  assert (Es : strategies (set_log_policy default_log_policy w)
               = strategies w).
  { unfold set_log_policy, strategies, deref.
    rewrite lists_foldl_set_strategy_log_policy,
      pipe_foldl_set_strategy_log_policy. reflexivity. }
  unfold state, mode, router in *. rewrite Ep, Es. simpl.
  rewrite H4.
  split; [exact H1|]. split; [exact H2|]. split; [exact H3|].
  split; [exact H5|]. split; [reflexivity|].
  split; [exact (proj1 (set_log_policy_policies_agree default_log_policy w))|].
  split; [exact H6|]. split; [exact H9'|].
  split; [exact Er|].
  split; [reflexivity|]. split; [reflexivity|]. split; [reflexivity|].
  unfold set_log_policy. rewrite trace_foldl_set_strategy_log_policy.
  exact H14.
Qed.

End Init.

Lemma Pipeline_init_installs_the_configuration_witness :
  let cfg :=
    {| cfg_name := "pipe"; cfg_strategies := [1%nat; 2%nat];
       cfg_mode := PipelineMode.SINGLE; cfg_max_fps := 30;
       cfg_enable_fps_control := false; cfg_enable_profiling := false;
       cfg_router_factory := Some (EventRouter_init true true);
       cfg_event_policies := [(Sample.Ball, EventPolicies.silent)] |} in
  cfg_router_factory cfg = Some (EventRouter_init true true) /\
  exists w,
    Pipeline_init Sample.env cfg = inr w /\
    state w = PipelineState.IDLE /\ mode w = PipelineMode.SINGLE /\
    strategies w = [1%nat; 2%nat] /\
    _event_policies (router w) !! Sample.Ball = Some EventPolicies.silent.
Proof.
  intros cfg.
  split; [reflexivity|].
  destruct (proj2 (Pipeline_init_installs_the_configuration Sample.env cfg)
              (EventRouter_init true true) eq_refl)
    as (w & E & H1 & H2 & _ & _ & H5 & _ & _ & _ & _ & _ & _ & _ & _ & Hp & _).
  exists w. split; [exact E|]. split; [exact H1|]. split; [exact H2|].
  split; [exact H5|].
  apply Hp.
  - apply NoDup_singleton.
  - apply list_elem_of_singleton. reflexivity.
Defined.

(** ** Router: publishing *)

Section PublishLine.
Variable env : Env.

(** What the decorator of [publish] does, in one equation. *)
Lemma trace_publish_line
    func t d sender p w :
  trace_publish func t d sender p w
  = if is_dropped (policy_of w t) then Ok tt w
    else if pub_line_due w t then
      match router_name w with
      | inr name =>
          func t d sender p
            (on_log (fun l => l ++
               [{| severity := SevInfo; source := name;
                   message := MsgPub (event_name_of t)
                                (sender_or sender "External") p |}]) w)
      | inl e => Raise e w
      end
    else func t d sender p w.
Proof.
  unfold trace_publish, pub_line_due, policy_of, is_dropped, is_mute.
  destruct (rule (default EventPolicies.normal
                    (_event_policies (router w) !! t))) eqn:E; simpl.
  - unfold bind, router_info, router_log, event_name_of.
    destruct (is_allowed (r_log_policy (router w)) LogLevel.INFO) eqn:Ea; simpl.
    + rewrite Ea. destruct (router_name w); reflexivity.
    + destruct (EventPriority.geb p EventPriority.INTERRUPT); simpl;
        [rewrite Ea|]; reflexivity.
  - reflexivity.
  - reflexivity.
Qed.

(** X10.  [publish] has its [PUB] log line to write exactly when the
    topic's event rule is NORMAL and the router's log policy allows INFO;
    the priority plays no part.  (The decorator lets INTERRUPT and CRITICAL
    publishes through to [SysLogger.info] when INFO is off, but
    [SysLogger.info] checks the router's policy again and drops the line.)
    A topic whose rule is DROP is not published at all.  Otherwise, when
    there is no line to write, the body of [publish] runs at once; when
    there is one, it is written in the router's name, a sender that is
    [None] or the empty string being printed as External, and the body
    runs after it; on a router that is not bound to a pipeline the name
    cannot be formed: the call raises [AttributeError] and the body does
    not run. *)
Theorem publish_line_is_written_iff_normal_and_info fuel t d sender p w :
  publish env (S fuel) t d sender p w
  = if is_dropped (policy_of w t) then Ok tt w
    else if bool_decide (rule (policy_of w t) = EventRule.NORMAL)
            && is_allowed (r_log_policy (router w)) LogLevel.INFO
    then
      if _pipeline (router w) then
        publish_body (exec env fuel) t d sender p
          (on_log (fun l => l ++
             [{| severity := SevInfo;
                 source := String.append (_name (pipe w)) ".Router";
                 message := MsgPub (event_name_of t)
                              (match sender with
                               | Some EmptyString | None => "External"
                               | Some name => name
                               end) p |}]) w)
      else Raise (AttributeError "name") w
    else publish_body (exec env fuel) t d sender p w.
Proof.
  unfold publish. simpl. unfold publish_decorated.
  rewrite trace_publish_line. unfold pub_line_due, router_name.
  destruct (is_dropped _); [reflexivity|].
  destruct (_ && _); [|reflexivity].
  destruct (_pipeline _); reflexivity.
Qed.

(** X11.  After [mute_log_for(t)] the policy of [t] is silent, whatever it
    was before (a dropped topic is delivered again): a publish on [t] at
    any priority goes straight to the body of [publish] without a log
    line, and at DEFERRED priority it does nothing but append the event to
    the queue, with the log as it was before the mute. *)
Theorem muted_topic_is_published_without_a_line fuel t d sender p w :
  policy_of (mute_log_for t w) t = EventPolicies.silent /\
  publish env (S fuel) t d sender p (mute_log_for t w)
  = publish_body (exec env fuel) t d sender p (mute_log_for t w) /\
  publish env (S fuel) t d sender EventPriority.DEFERRED (mute_log_for t w)
  = Ok tt (enqueue t d (mute_log_for t w)) /\
  log (enqueue t d (mute_log_for t w)) = log w /\
  deferred_queue (enqueue t d (mute_log_for t w))
  = deferred_queue w ++ [(t, d)].
Proof.
  assert (E : policy_of (mute_log_for t w) t = EventPolicies.silent).
  { unfold policy_of, mute_log_for, set_event_policy, router. simpl.
    rewrite lookup_insert_eq. reflexivity. }
  split; [exact E|].
  assert (K : forall q, publish env (S fuel) t d sender q (mute_log_for t w)
              = publish_body (exec env fuel) t d sender q
                  (mute_log_for t w)).
  { intros q. unfold publish. simpl. unfold publish_decorated.
    rewrite trace_publish_line. unfold pub_line_due. rewrite E. reflexivity. }
  split; [apply K|]. split; [rewrite K; reflexivity|].
  split; reflexivity.
Qed.

End PublishLine.

Section Dispatch.
Variable env : Env.

(** X12.  A publish at DEFERRED priority on a topic that is not dropped,
    through a router that is bound to its pipeline or has no [PUB] line to
    write, returns without invoking any handler, for every kind of topic:
    the event is appended at the tail of the deferred queue, and the
    subscriber lists, the lifecycle state and the interrupt flag are
    unchanged; at most the [PUB] line is added to the log.  On a router
    that is not bound and has the line to write, the publish raises
    [AttributeError] and nothing is queued. *)
Theorem deferred_publish_only_enqueues fuel t d sender w :
  (is_dropped (policy_of w t) = false ->
   (pub_line_due w t = true -> _pipeline (router w) = true) ->
   exists w0,
     only_logs w w0 /\
     publish env (S fuel) t d sender EventPriority.DEFERRED w
     = Ok tt (enqueue t d w0) /\
     deferred_queue (enqueue t d w0) = deferred_queue w ++ [(t, d)] /\
     trace (enqueue t d w0) = trace w ++ [EvEnqueue t d] /\
     invocations (trace (enqueue t d w0)) = invocations (trace w) /\
     _subscribers (router (enqueue t d w0)) = _subscribers (router w) /\
     state (enqueue t d w0) = state w /\
     _frame_interrupted (pipe (enqueue t d w0))
     = _frame_interrupted (pipe w)) /\
  (pub_line_due w t = true -> _pipeline (router w) = false ->
   publish env (S fuel) t d sender EventPriority.DEFERRED w
   = Raise (AttributeError "name") w).
Proof.
  assert (K : forall w0, only_logs w w0 ->
    deferred_queue (enqueue t d w0) = deferred_queue w ++ [(t, d)] /\
    trace (enqueue t d w0) = trace w ++ [EvEnqueue t d] /\
    invocations (trace (enqueue t d w0)) = invocations (trace w) /\
    _subscribers (router (enqueue t d w0)) = _subscribers (router w) /\
    state (enqueue t d w0) = state w /\
    _frame_interrupted (pipe (enqueue t d w0)) = _frame_interrupted (pipe w)).
  { intros w0 (Hp & _ & _ & _ & _ & Ht).
    unfold deferred_queue, router, state. simpl. rewrite Hp, Ht.
    repeat split. unfold invocations. rewrite omap_app. simpl.
    rewrite app_nil_r. reflexivity. }
  unfold publish. simpl. unfold publish_decorated.
  rewrite trace_publish_line. unfold router_name. split.
  - intros Hd Hb. rewrite Hd.
    destruct (pub_line_due w t).
    + rewrite (Hb eq_refl). eexists. split; [|split; [reflexivity|]].
      * repeat split.
      * apply K. repeat split.
    + exists w. split; [repeat split|]. split; [reflexivity|].
      apply K. repeat split.
  - intros Hdue Hb.
    assert (Hd : is_dropped (policy_of w t) = false).
    { unfold pub_line_due in Hdue. apply andb_true_iff in Hdue.
      destruct Hdue as (Hr & _). apply bool_decide_eq_true in Hr.
      unfold is_dropped. rewrite Hr. reflexivity. }
    rewrite Hd, Hdue, Hb. reflexivity.
Qed.

Lemma subscribers_of_only_logs w w' t :
  only_logs w w' -> subscribers_of w' t = subscribers_of w t.
Proof. intros (Hp & _). unfold subscribers_of, router. rewrite Hp. reflexivity. Qed.

(** The loop of [_dispatch_now] over quiet handlers. *)
Lemma dispatch_loop_quiet t d n :
  forall fuel i w subs,
    dunder_name t = Some n ->
    _pipeline (router w) = true ->
    subscribers_of w t = subs ->
    (forall cb, cb ∈ subs -> quiet_handler env d cb) ->
    (length subs - i + 2 <= fuel)%nat ->
    exists w',
      exec env fuel (CDispatchLoop t d i) w = Ok tt w' /\
      pipe w' = pipe w /\ lists w' = lists w /\ frames w' = frames w /\
      strategy_attrs w' = strategy_attrs w /\ reads w' = reads w /\
      trace w' = trace w ++ map (fun cb => EvInvoke cb t d) (drop i subs).
Proof.
  intros fuel i w subs Hn Hb Hs Hq. revert i w Hb Hs.
  induction fuel as [|fuel IH]; intros i w Hb Hs Hf; [lia|].
  simpl. unfold dispatch_loop. rewrite Hs.
  destruct (subs !! i) as [cb|] eqn:Ei.
  - assert (Hlt : (i < length subs)%nat) by (eapply lookup_lt_Some; eauto).
    assert (Hcb : quiet_handler env d cb)
      by (apply Hq; eapply list_elem_of_lookup_2; eauto).
    rewrite (drop_S _ _ _ Ei). simpl.
    destruct fuel as [|[|f2]]; [lia|lia|].
    unfold bind at 1. unfold guarded_callback, try_except.
    cbn [exec]. unfold run_callback.
    unfold quiet_handler in Hcb.
    destruct (callback_run env cb d) as [script raised]. simpl in Hcb. subst script.
    unfold bind at 1. unfold modify at 1.
    cbn [exec]. unfold run_actions at 1. unfold bind at 1. unfold ret at 1.
    set (w1 := record (EvInvoke cb t d) w).
    assert (Hnext : forall w2, pipe w2 = pipe w1 -> lists w2 = lists w1 ->
              frames w2 = frames w1 -> strategy_attrs w2 = strategy_attrs w1 ->
              reads w2 = reads w1 -> trace w2 = trace w1 ->
              exists w',
                exec env (S (S f2)) (CDispatchLoop t d (S i)) w2 = Ok tt w' /\
                pipe w' = pipe w /\ lists w' = lists w /\
                frames w' = frames w /\
                strategy_attrs w' = strategy_attrs w /\ reads w' = reads w /\
                trace w' = trace w ++ EvInvoke cb t d ::
                  map (fun cb => EvInvoke cb t d) (drop (S i) subs)).
    { intros w2 Hp Hl Hfr Ha Hr Ht.
      destruct (IH (S i) w2) as (w' & E & Hp' & Hl' & Hfr' & Ha' & Hr' & Ht').
      - unfold router. rewrite Hp. exact Hb.
      - unfold subscribers_of, router. rewrite Hp. exact Hs.
      - lia.
      - exists w'. split; [exact E|].
        rewrite Hp', Hl', Hfr', Ha', Hr', Ht', Hp, Hl, Hfr, Ha, Hr, Ht.
        repeat split. unfold w1. simpl. rewrite <- app_assoc. reflexivity. }
    destruct raised as [e|].
    + unfold raise. rewrite Hn.
      destruct (router_log_bound LogLevel.ERROR SevError
                  (MsgHandlerError n e) w1 Hb) as (l & El).
      unfold router_error. rewrite El.
      apply Hnext; reflexivity.
    + apply Hnext; reflexivity.
  - exists w. split; [reflexivity|]. repeat split.
    rewrite drop_ge; [simpl; rewrite app_nil_r; reflexivity|].
    apply lookup_ge_None. exact Ei.
Qed.


Lemma touch_subscribers_of t w t' :
  subscribers_of (touch_subscribers t w) t' = subscribers_of w t'.
Proof.
  unfold subscribers_of, touch_subscribers, router. simpl.
  destruct (decide (t' = t)) as [->|Hn].
  - rewrite lookup_insert_eq. reflexivity.
  - rewrite lookup_insert_ne by (intros E; apply Hn; symmetry; exact E).
    reflexivity.
Qed.

Lemma dispatch_now_quiet t d n fuel w :
  dunder_name t = Some n ->
  _pipeline (router w) = true ->
  (forall cb, cb ∈ subscribers_of w t -> quiet_handler env d cb) ->
  (length (subscribers_of w t) + 3 <= fuel)%nat ->
  exists w',
    exec env fuel (CDispatchNow t d) w = Ok tt w' /\
    pipe w' = pipe (touch_subscribers t w) /\
    lists w' = lists w /\ frames w' = frames w /\
    strategy_attrs w' = strategy_attrs w /\ reads w' = reads w /\
    trace w' = trace w
               ++ map (fun cb => EvInvoke cb t d) (subscribers_of w t).
Proof.
  intros Hn Hb Hq Hf. destruct fuel as [|fuel]; [lia|].
  cbn [exec]. unfold _dispatch_now_decorated, trace_dispatch.
  rewrite Hn. unfold _dispatch_now_body.
  assert (K : forall w0, only_logs w w0 ->
            exists w',
              bind (modify (touch_subscribers t))
                (fun _ => exec env fuel (CDispatchLoop t d 0)) w0 = Ok tt w' /\
              pipe w' = pipe (touch_subscribers t w) /\
              lists w' = lists w /\ frames w' = frames w /\
              strategy_attrs w' = strategy_attrs w /\ reads w' = reads w /\
              trace w' = trace w
                ++ map (fun cb => EvInvoke cb t d) (subscribers_of w t)).
  { intros w0 Ho. pose proof (subscribers_of_only_logs w w0 t Ho) as Es.
    destruct Ho as (Hp & Hl & Hfr & Ha & Hr & Ht).
    unfold bind at 1. unfold modify at 1.
    destruct (dispatch_loop_quiet t d n fuel 0 (touch_subscribers t w0)
                (subscribers_of w t) Hn)
      as (w' & E & Hp' & Hl' & Hfr' & Ha' & Hr' & Ht').
    - unfold router. simpl. rewrite Hp. exact Hb.
    - rewrite touch_subscribers_of. exact Es.
    - exact Hq.
    - lia.
    - exists w'. split; [exact E|].
      rewrite Hp', Hl', Hfr', Ha', Hr', Ht'. simpl.
      unfold touch_subscribers, on_router, on_pipe, router. simpl.
      rewrite Hp, Hl, Hfr, Ha, Hr, Ht. repeat split. }
  destruct (is_allowed _ _).
  - unfold bind at 1.
    destruct (default [] (_subscribers (router w) !! t));
      unfold router_warning, router_info;
      match goal with
      | |- context [router_log ?lv ?sv ?m w] =>
          destruct (router_log_bound lv sv m w Hb) as (l' & El); rewrite El
      end;
      apply K; repeat split.
  - apply K. repeat split.
Qed.

(** X13.  A publish at IMMEDIATE or INTERRUPT priority on a class topic
    that is not dropped, through a router bound to its pipeline and to
    handlers that make no call on the router or the pipeline, returns after
    invoking every subscriber of the topic exactly once, in subscription
    order, a handler that raises included and the handlers after it too:
    what a handler raises is logged, not propagated.  The deferred queue,
    the subscriber lists and the lifecycle state are unchanged, and the
    interrupt flag is set exactly by an INTERRUPT publish. *)
Theorem immediate_publish_reaches_every_subscriber fuel t d sender p w :
  is_type t = true ->
  is_dropped (policy_of w t) = false ->
  _pipeline (router w) = true ->
  p = EventPriority.IMMEDIATE \/ p = EventPriority.INTERRUPT ->
  (forall cb, cb ∈ subscribers_of w t -> quiet_handler env d cb) ->
  (length (subscribers_of w t) + 4 <= fuel)%nat ->
  exists w',
    publish env fuel t d sender p w = Ok tt w' /\
    trace w' = trace w
               ++ map (fun cb => EvInvoke cb t d) (subscribers_of w t) /\
    deferred_queue w' = deferred_queue w /\
    (forall t', subscribers_of w' t' = subscribers_of w t') /\
    state w' = state w /\ lists w' = lists w /\ frames w' = frames w /\
    _frame_interrupted (pipe w')
    = (if bool_decide (p = EventPriority.INTERRUPT)
       then true else _frame_interrupted (pipe w)).
Proof.
  intros Ht Hd Hb Hp Hq Hf.
  assert (Hn : exists n, dunder_name t = Some n)
    by (destruct t; try discriminate; eexists; reflexivity).
  destruct Hn as (n & Hn).
  destruct fuel as [|fuel]; [lia|].
  unfold publish. cbn [exec]. unfold publish_decorated.
  rewrite trace_publish_line, Hd. unfold router_name. rewrite Hb.
  assert (K : forall w0, only_logs w w0 ->
    exists w',
      publish_body (exec env fuel) t d sender p w0 = Ok tt w' /\
      trace w' = trace w
                 ++ map (fun cb => EvInvoke cb t d) (subscribers_of w t) /\
      deferred_queue w' = deferred_queue w /\
      (forall t', subscribers_of w' t' = subscribers_of w t') /\
      state w' = state w /\ lists w' = lists w /\ frames w' = frames w /\
      _frame_interrupted (pipe w')
      = (if bool_decide (p = EventPriority.INTERRUPT)
         then true else _frame_interrupted (pipe w))).
  { intros w0 Ho. pose proof (subscribers_of_only_logs w w0 t Ho) as Es.
    destruct Ho as (Hp0 & Hl0 & Hfr0 & Ha0 & Hr0 & Ht0).
    assert (Hb0 : _pipeline (router w0) = true)
      by (unfold router; rewrite Hp0; exact Hb).
    destruct (dispatch_now_quiet t d n fuel w0 Hn Hb0)
      as (w1 & E & Hp1 & Hl1 & Hfr1 & Ha1 & Hr1 & Ht1).
    { rewrite Es. exact Hq. }
    { rewrite Es. lia. }
    assert (Hsub : forall w2, pipe w2 = pipe w1 ->
              forall t', subscribers_of w2 t' = subscribers_of w t').
    { intros w2 E2 t'.
      transitivity (subscribers_of (touch_subscribers t w0) t').
      - unfold subscribers_of, router. rewrite E2, Hp1. reflexivity.
      - rewrite touch_subscribers_of.
        unfold subscribers_of, router. rewrite Hp0. reflexivity. }
    unfold publish_body.
    destruct Hp as [-> | ->]; simpl.
    - unfold bind. rewrite E. unfold ret. exists w1.
      split; [reflexivity|].
      rewrite Ht1, Ht0, Es. split; [reflexivity|].
      split. { unfold deferred_queue, router. rewrite Hp1. simpl.
               rewrite Hp0. reflexivity. }
      split; [apply Hsub; reflexivity|].
      split. { unfold state. rewrite Hp1. simpl. rewrite Hp0. reflexivity. }
      split; [congruence|]. split; [congruence|].
      rewrite Hp1. simpl. rewrite Hp0. reflexivity.
    - unfold bind. rewrite E.
      assert (Eb : _pipeline (router w1) = true).
      { unfold router. rewrite Hp1. simpl. rewrite Hp0. exact Hb. }
      rewrite Eb. eexists.
      split; [reflexivity|]. simpl.
      rewrite Ht1, Ht0, Es. split; [reflexivity|].
      split. { unfold deferred_queue, router. simpl. rewrite Hp1. simpl.
               rewrite Hp0. reflexivity. }
      split. { intros t'. rewrite <- (Hsub w1 eq_refl t'). reflexivity. }
      split. { unfold state. simpl. rewrite Hp1. simpl. rewrite Hp0.
               reflexivity. }
      split; [congruence|]. split; [congruence|]. reflexivity. }
  destruct (pub_line_due w t); apply K; repeat split.
Qed.

End Dispatch.

Lemma deferred_publish_only_enqueues_witness :
  let w := Scene.listening in
  is_dropped (policy_of w Sample.Tick) = false /\
  (pub_line_due w Sample.Tick = true -> _pipeline (router w) = true) /\
  exists w0,
    only_logs w w0 /\
    publish Sample.env 1 Sample.Tick 3%nat None EventPriority.DEFERRED w
    = Ok tt (enqueue Sample.Tick 3%nat w0) /\
    deferred_queue (enqueue Sample.Tick 3%nat w0)
    = deferred_queue w ++ [(Sample.Tick, 3%nat)].
Proof.
  intros w.
  assert (Hd : is_dropped (policy_of w Sample.Tick) = false)
    by (vm_compute; reflexivity).
  assert (Hb : pub_line_due w Sample.Tick = true -> _pipeline (router w) = true)
    by (intros _; vm_compute; reflexivity).
  split; [exact Hd|]. split; [exact Hb|].
  destruct (proj1 (deferred_publish_only_enqueues Sample.env 0 Sample.Tick
                     3%nat None w) Hd Hb) as (w0 & Ho & E & Q & _).
  exists w0. split; [exact Ho|]. split; [exact E|exact Q].
Defined.

(** The same publish through a router that has been unbound raises before
    anything is queued. *)
Example deferred_publish_on_an_unbound_router :
  let w := on_router (with_router_pipeline false) Scene.listening in
  match publish Sample.env 1 Sample.Tick 3%nat None EventPriority.DEFERRED w
  with
  | Raise e w' => e = AttributeError "name" /\ deferred_queue w' = []
  | _ => False
  end.
Proof. vm_compute. split; reflexivity. Qed.

Lemma immediate_publish_reaches_every_subscriber_witness :
  let w := Scene.listening in
  is_type Sample.Ball = true /\
  is_dropped (policy_of w Sample.Ball) = false /\
  _pipeline (router w) = true /\
  (forall cb, cb ∈ subscribers_of w Sample.Ball ->
     quiet_handler Scene.env 0%nat cb) /\
  (length (subscribers_of w Sample.Ball) + 4 <= 6)%nat /\
  exists w',
    publish Scene.env 6 Sample.Ball 0%nat None EventPriority.IMMEDIATE w
    = Ok tt w' /\
    trace w'
    = trace w
      ++ map (fun cb => EvInvoke cb Sample.Ball 0%nat)
           (subscribers_of w Sample.Ball).
Proof.
  intros w.
  assert (Ht : is_type Sample.Ball = true) by reflexivity.
  assert (Hd : is_dropped (policy_of w Sample.Ball) = false)
    by (vm_compute; reflexivity).
  assert (Hb : _pipeline (router w) = true) by (vm_compute; reflexivity).
  assert (Hs : subscribers_of w Sample.Ball = [4%nat; 5%nat])
    by (vm_compute; reflexivity).
  assert (Hq : forall cb, cb ∈ subscribers_of w Sample.Ball ->
                 quiet_handler Scene.env 0%nat cb).
  { intros cb Hcb. rewrite Hs in Hcb.
    apply elem_of_cons in Hcb. destruct Hcb as [->|Hcb]; [reflexivity|].
    apply list_elem_of_singleton in Hcb. subst cb. reflexivity. }
  assert (Hf : (length (subscribers_of w Sample.Ball) + 4 <= 6)%nat)
    by (rewrite Hs; simpl; lia).
  split; [exact Ht|]. split; [exact Hd|]. split; [exact Hb|].
  split; [exact Hq|]. split; [exact Hf|].
  destruct (immediate_publish_reaches_every_subscriber Scene.env 6 Sample.Ball
              0%nat None EventPriority.IMMEDIATE w Ht Hd Hb (or_introl eq_refl)
              Hq Hf) as (w' & E & T & _).
  exists w'. split; [exact E|exact T].
Defined.

(** ** Interrupting a frame *)

Section Interrupt.
Variable env : Env.

Lemma keeps_interrupt_refl w : keeps_interrupt w w.
Proof. intros H. exact H. Qed.

Lemma keeps_interrupt_trans a b c :
  keeps_interrupt a b -> keeps_interrupt b c -> keeps_interrupt a c.
Proof. unfold keeps_interrupt. tauto. Qed.

Lemma interrupt_remove_strategy s w :
  _frame_interrupted (pipe (remove_strategy env s w))
  = _frame_interrupted (pipe w).
Proof.
  destruct (pipe_remove_strategy env s w) as [->|[a ->]]; reflexivity.
Qed.

Lemma pipeline_call_interrupt c w :
  _frame_interrupted (pipe (after_call env c w))
  = match c with
    | CallRequestFrameInterrupt => true
    | _ => _frame_interrupted (pipe w)
    end.
Proof.
  by_call c.
  - unfold start. repeat case_bool_decide; reflexivity.
  - unfold trigger. case_bool_decide; reflexivity.
  - unfold pause. case_bool_decide; reflexivity.
  - unfold resume. case_bool_decide; reflexivity.
  - unfold stop. case_bool_decide; [|reflexivity].
    rewrite pipe_cleanup. reflexivity.
  - reflexivity.
  - unfold add_strategy, _bind_pipeline_context.
    destruct (pipeline_aware env strategy); reflexivity.
  - by_insert; unfold _bind_pipeline_context;
      destruct (pipeline_aware env strategy); reflexivity.
  - apply interrupt_remove_strategy.
  - unfold remove_strategy_by_name.
    destruct (filter _ _) as [|t ?]; [reflexivity|].
    apply interrupt_remove_strategy.
  - unfold remove_strategy_by_index.
    destruct (_ && _); [|reflexivity].
    destruct (_ !! _) as [t|]; [|reflexivity].
    apply interrupt_remove_strategy.
  - unfold set_log_policy. rewrite pipe_foldl_set_strategy_log_policy.
    reflexivity.
Qed.

Lemma pipeline_call_keeps_interrupt c w :
  keeps_interrupt w (after_call env c w).
Proof.
  intros H. rewrite pipeline_call_interrupt. destruct c; auto.
Qed.

Lemma exec_keeps_interrupt fuel c : respects keeps_interrupt (exec env fuel c).
Proof.
  apply respects_exec;
    first [ exact keeps_interrupt_refl | exact keeps_interrupt_trans
          | exact pipeline_call_keeps_interrupt
          | intros; intros H; try exact H; reflexivity ].
Qed.

(** An INTERRUPT publish that returns has set the flag. *)
Lemma publish_interrupt_sets_flag fuel t d sender w w' :
  exec env fuel (CPublish t d sender EventPriority.INTERRUPT) w = Ok tt w' ->
  is_dropped (policy_of w t) = false ->
  _pipeline (router w) = true ->
  _frame_interrupted (pipe w') = true.
Proof.
  destruct fuel as [|fuel]; [discriminate|].
  cbn [exec]. unfold publish_decorated. rewrite trace_publish_line.
  intros H Hd Hb. rewrite Hd in H. unfold router_name in H. rewrite Hb in H.
  assert (K : forall w0, _pipeline (router w0) = true ->
            publish_body (exec env fuel) t d sender EventPriority.INTERRUPT w0
            = Ok tt w' -> _frame_interrupted (pipe w') = true).
  { clear H. intros w0 Hb0. unfold publish_body. simpl. unfold bind.
    destruct (exec env fuel (CDispatchNow t d) w0) as [[] w1|e w1|] eqn:E;
      [|discriminate|discriminate].
    assert (Hb1 : _pipeline (router w1) = true).
    { rewrite <- Hb0.
      apply (exec_keeps_binding env fuel (CDispatchNow t d) w0 w1).
      rewrite E. reflexivity. }
    rewrite Hb1. intros [= <-]. reflexivity. }
  destruct (pub_line_due w t).
  - revert H. apply K. exact Hb.
  - exact (K w Hb H).
Qed.

(** Once the flag is set, the loop of [step] executes nothing more. *)
Lemma walk_interrupted fuel chain i cd dw w w' :
  _frame_interrupted (pipe w) = true ->
  world_of (walk env fuel chain i cd dw w) = Some w' ->
  trace w' = trace w.
Proof.
  intros Hf. destruct fuel as [|fuel]; [discriminate|]. simpl.
  destruct (deref w chain !! i) as [s|]; [|intros [= <-]; reflexivity].
  case_bool_decide.
  { intros [= <-]. apply release_data_trace. }
  rewrite Hf. destruct (cfg_enable_profiling _); intros [= <-]; reflexivity.
Qed.

(** X16.  A strategy that begins [execute] by publishing at INTERRUPT
    priority, on a topic that is not dropped and through a router bound to
    its pipeline, is the last strategy of its frame: however its [execute]
    ends (success, failure or an exception) and whatever the handlers of
    the event and the rest of [execute] do, the loop of [step] executes no
    further strategy of the chain. *)
Theorem interrupt_publish_ends_the_frame
    fuel chain i s cd dw w t d sender post result w' :
  deref w chain !! i = Some s ->
  state w <> PipelineState.TERMINATED ->
  _frame_interrupted (pipe w) = false ->
  strategy_execute env s (frame_index w) cd
  = (APublish t d sender EventPriority.INTERRUPT :: post, result) ->
  is_dropped (policy_of w t) = false ->
  _pipeline (router w) = true ->
  world_of (walk env (S fuel) chain i cd dw w) = Some w' ->
  executions (trace w') = executions (trace w) ++ [s].
Proof.
  intros Hi Hs Hf Hx Hd Hb. simpl. rewrite Hi.
  rewrite bool_decide_false by exact Hs. rewrite Hf.
  destruct (run_strategy env fuel s cd w) as [[ok d'] w1|e w1|] eqn:E;
    [| |discriminate].
  - destruct (run_strategy_effect env fuel s cd w w1) as (_ & tr & Et & Q);
      [rewrite E; reflexivity|].
    assert (Ex1 : executions (trace w1) = executions (trace w) ++ [s]).
    { rewrite Et, executions_app. simpl. rewrite Q. reflexivity. }
    destruct ok; simpl.
    + intros Hw. rewrite <- Ex1. f_equal.
      apply (walk_interrupted fuel chain (S i) d' true w1 w'); [|exact Hw].
      revert E. unfold run_strategy. rewrite Hx.
      unfold bind at 1. unfold modify at 1.
      destruct fuel as [|f]; [discriminate|].
      cbn [exec]. unfold run_actions, do_action.
      set (w0 := record (EvExecute s cd) w).
      unfold bind.
      destruct (exec env f (CPublish t d sender EventPriority.INTERRUPT) w0)
        as [[] wa|ea wa|] eqn:Ea; [|discriminate|discriminate].
      destruct (exec env f (CActions post) wa) as [[] wb|eb wb|] eqn:Eb;
        [|discriminate|discriminate].
      destruct result; [|discriminate]. intros [= _ _ <-].
      apply (exec_keeps_interrupt f (CActions post) wa wb);
        [rewrite Eb; reflexivity|].
      apply (publish_interrupt_sets_flag f t d sender w0 wa Ea); assumption.
    + intros [= <-]. rewrite release_data_trace. simpl.
      rewrite executions_app. simpl. rewrite app_nil_r. exact Ex1.
  - destruct (run_strategy_effect env fuel s cd w w1) as (_ & tr & Et & Q);
      [rewrite E; reflexivity|].
    intros [= <-]. rewrite release_data_trace. simpl.
    rewrite executions_app. simpl. rewrite app_nil_r.
    rewrite Et, executions_app. simpl. rewrite Q. reflexivity.
Qed.

(** X17.  An interrupt requested between two steps is lost: [step] resets
    the interrupt flag before it looks at it, so a step that passes its
    gates behaves exactly the same, and ends in exactly the same world,
    whether or not [request_frame_interrupt] was called just before. *)
Theorem interrupt_requested_between_steps_is_lost fuel w :
  gates_pass w -> is_Some (_last_time (pipe w)) ->
  step env fuel (request_frame_interrupt w) = step env fuel w.
Proof.
  intros Hg [t0 Hl].
  assert (Hg' : gates_pass (request_frame_interrupt w)) by exact Hg.
  rewrite (step_anchored env fuel w t0 Hl Hg).
  rewrite (step_anchored env fuel (request_frame_interrupt w) t0 Hl Hg').
  assert (E : frame_start env t0 (request_frame_interrupt w)
              = frame_start env t0 w).
  { unfold frame_start, at_anchor_read, request_frame_interrupt.
    unfold mode. simpl. case_bool_decide; reflexivity. }
  rewrite E. reflexivity.
Qed.

End Interrupt.

Lemma interrupt_publish_ends_the_frame_witness :
  let w := frame_start Scene.env 0 Scene.interrupting in
  let chain := _strategies (pipe w) in
  deref w chain !! 1%nat = Some 7%nat /\
  state w <> PipelineState.TERMINATED /\
  _frame_interrupted (pipe w) = false /\
  strategy_execute Scene.env 7%nat (frame_index w) (Some 7%nat)
  = ([APublish Sample.Ball 0%nat (Some "S7") EventPriority.INTERRUPT],
     ExecReturn true (Some 7%nat)) /\
  is_dropped (policy_of w Sample.Ball) = false /\
  _pipeline (router w) = true /\
  exists w',
    world_of (walk Scene.env 10 chain 1 (Some 7%nat) true w) = Some w' /\
    executions (trace w') = executions (trace w) ++ [7%nat].
Proof.
  intros w chain.
  assert (Hi : deref w chain !! 1%nat = Some 7%nat)
    by (vm_compute; reflexivity).
  assert (Hs : state w <> PipelineState.TERMINATED)
    by (vm_compute; discriminate).
  assert (Hf : _frame_interrupted (pipe w) = false)
    by (vm_compute; reflexivity).
  assert (Hx : strategy_execute Scene.env 7%nat (frame_index w) (Some 7%nat)
               = ([APublish Sample.Ball 0%nat (Some "S7")
                     EventPriority.INTERRUPT],
                  ExecReturn true (Some 7%nat))) by reflexivity.
  assert (Hd : is_dropped (policy_of w Sample.Ball) = false)
    by (vm_compute; reflexivity).
  assert (Hb : _pipeline (router w) = true) by (vm_compute; reflexivity).
  split; [exact Hi|]. split; [exact Hs|]. split; [exact Hf|].
  split; [exact Hx|]. split; [exact Hd|]. split; [exact Hb|].
  eexists. split; [vm_compute; reflexivity|].
  match goal with
  | |- executions (trace ?w') = _ =>
      exact (interrupt_publish_ends_the_frame Scene.env 9 chain 1 7%nat
               (Some 7%nat) true w Sample.Ball 0%nat (Some "S7") []
               (ExecReturn true (Some 7%nat)) w' Hi Hs Hf Hx Hd Hb
               ltac:(vm_compute; reflexivity))
  end.
Defined.

(** On a whole step: with the chain capture, interrupter, detect, the step
    returns [True] after executing capture and the interrupter only. *)
Example interrupting_strategy_truncates_step :
  match step Scene.env 20 Scene.interrupting with
  | Ok did_work w' =>
      did_work = true /\ executions (trace w') = [1%nat; 7%nat] /\
      state w' = PipelineState.RUNNING
  | _ => False
  end.
Proof. vm_compute. repeat split; reflexivity. Qed.

Lemma interrupt_requested_between_steps_is_lost_witness :
  let w := Sample.anchored PipelineMode.LOOP [1%nat; 2%nat] in
  gates_pass w /\ is_Some (_last_time (pipe w)) /\
  step Sample.env 20 (request_frame_interrupt w) = step Sample.env 20 w.
Proof.
  intros w.
  assert (Hg : gates_pass w).
  { split; [vm_compute; reflexivity|].
    intros H. vm_compute in H. discriminate. }
  assert (Hl : is_Some (_last_time (pipe w)))
    by (exists 0; vm_compute; reflexivity).
  split; [exact Hg|]. split; [exact Hl|].
  exact (interrupt_requested_between_steps_is_lost Sample.env 20 w Hg Hl).
Defined.

(** ** Timing of a step *)

Section Timing.
Variable env : Env.

Lemma sleeps_app a b : sleeps (a ++ b) = sleeps a ++ sleeps b.
Proof. apply omap_app. Qed.

Lemma sleeps_cleanups l : sleeps (map EvCleanup l) = [].
Proof. induction l; simpl; auto. Qed.

Lemma keeps_time_refl w : keeps_time w w.
Proof. repeat split. exists []. rewrite app_nil_r. split; reflexivity. Qed.

Lemma keeps_time_trans a b c :
  keeps_time a b -> keeps_time b c -> keeps_time a c.
Proof.
  intros (R1 & C1 & t1 & E1 & S1) (R2 & C2 & t2 & E2 & S2).
  split; [congruence|]. split; [congruence|].
  exists (t1 ++ t2). rewrite E2, E1, <- app_assoc, sleeps_app, S1, S2.
  split; reflexivity.
Qed.

Lemma keeps_time_by w w' tr :
  reads w' = reads w -> config (pipe w') = config (pipe w) ->
  trace w' = trace w ++ tr -> sleeps tr = [] -> keeps_time w w'.
Proof. intros. split; [|split]; eauto. Qed.

Lemma keeps_time_same w w' :
  reads w' = reads w -> config (pipe w') = config (pipe w) ->
  trace w' = trace w -> keeps_time w w'.
Proof.
  intros Hr Hc Ht. apply (keeps_time_by w w' []); auto.
  rewrite app_nil_r. exact Ht.
Qed.

Lemma reads_foldl_cleanup_one l w :
  reads (foldl (cleanup_one env) w l) = reads w.
Proof.
  revert w. induction l as [|s l IH]; intros w; simpl; [reflexivity|].
  rewrite IH. unfold cleanup_one. destruct (strategy_cleanup env s); reflexivity.
Qed.

Lemma reads_foldl_set_strategy_log_policy p l w :
  reads (foldl (set_strategy_log_policy p) w l) = reads w.
Proof.
  revert w. induction l as [|s l IH]; intros w; simpl; [reflexivity|].
  rewrite IH. reflexivity.
Qed.

Lemma reads_remove_strategy s w : reads (remove_strategy env s w) = reads w.
Proof.
  unfold remove_strategy. case_bool_decide; [|reflexivity].
  destruct (strategy_cleanup env s); reflexivity.
Qed.

Lemma reads_pipeline_call c w : reads (after_call env c w) = reads w.
Proof.
  by_call c.
  - unfold start. repeat case_bool_decide; reflexivity.
  - unfold trigger. case_bool_decide; reflexivity.
  - unfold pause. case_bool_decide; reflexivity.
  - unfold resume. case_bool_decide; reflexivity.
  - unfold stop. case_bool_decide; [|reflexivity].
    unfold cleanup. simpl. rewrite reads_foldl_cleanup_one. reflexivity.
  - reflexivity.
  - unfold add_strategy, _bind_pipeline_context.
    destruct (pipeline_aware env strategy); reflexivity.
  - by_insert; unfold _bind_pipeline_context;
      destruct (pipeline_aware env strategy); reflexivity.
  - apply reads_remove_strategy.
  - unfold remove_strategy_by_name.
    destruct (filter _ _) as [|t ?]; [reflexivity|apply reads_remove_strategy].
  - unfold remove_strategy_by_index.
    destruct (_ && _); [|reflexivity].
    destruct (_ !! _) as [t|]; [apply reads_remove_strategy|reflexivity].
  - unfold set_log_policy. rewrite reads_foldl_set_strategy_log_policy.
    reflexivity.
Qed.

Lemma pipeline_call_keeps_time c w : keeps_time w (after_call env c w).
Proof.
  destruct (pipeline_call_trace env c w) as (l & E).
  apply (keeps_time_by _ _ (map EvCleanup l)).
  - apply reads_pipeline_call.
  - destruct (pipeline_call_fixed_fields env c w) as (Hc & _). exact Hc.
  - exact E.
  - apply sleeps_cleanups.
Qed.

Lemma reads_release_data cd w : reads (release_data cd w) = reads w.
Proof. destruct cd; reflexivity. Qed.

Ltac timeless :=
  intros;
  first [ apply keeps_time_same;
          rewrite ?reads_release_data, ?release_data_pipe,
            ?release_data_trace; reflexivity
        | eapply keeps_time_by;
          [ reflexivity | reflexivity | simpl; reflexivity | reflexivity ] ].

Lemma exec_keeps_time fuel c : respects keeps_time (exec env fuel c).
Proof.
  apply respects_exec;
    first [ exact keeps_time_refl | exact keeps_time_trans
          | exact pipeline_call_keeps_time | timeless ].
Qed.

Lemma walk_keeps_time fuel chain i cd dw :
  respects keeps_time (walk env fuel chain i cd dw).
Proof.
  apply respects_walk;
    first [ exact keeps_time_refl | exact keeps_time_trans
          | exact pipeline_call_keeps_time | timeless ].
Qed.

Lemma process_deferred_keeps_time fuel :
  respects keeps_time (process_deferred env fuel).
Proof.
  apply respects_process_deferred;
    first [ exact keeps_time_refl | exact keeps_time_trans
          | exact pipeline_call_keeps_time | timeless ].
Qed.

(** The [finally] block reads the clock once and sleeps as the pacing
    prescribes. *)
Lemma step_finally_time fuel t0 cd w w' :
  step_finally env fuel t0 cd w = Ok tt w' ->
  reads w' = S (reads w) /\ config (pipe w') = config (pipe w) /\
  cfg_max_fps (config (pipe w)) <> 0 /\
  exists tr, trace w' = trace w ++ tr /\
             sleeps tr = pacing_sleep (config (pipe w))
                           (perf_counter env (reads w) - t0).
Proof.
  unfold step_finally. unfold bind at 1.
  destruct (process_deferred env fuel w) as [[] w1|e w1|] eqn:E1;
    [|discriminate|discriminate].
  destruct (process_deferred_keeps_time fuel w w1) as (R1 & C1 & tr1 & T1 & S1);
    [rewrite E1; reflexivity|].
  unfold bind at 1. unfold modify at 1.
  unfold bind at 1. unfold read_clock at 1.
  rewrite reads_release_data, R1.
  unfold _handle_frame_pacing. simpl.
  rewrite release_data_pipe, C1.
  destruct (cfg_max_fps (config (pipe w)) =? 0) eqn:Ez; [discriminate|].
  apply Z.eqb_neq in Ez. unfold pacing_sleep, rest_of_interval.
  set (target := (inject_Z ticks_per_second
                  / inject_Z (cfg_max_fps (config (pipe w))))%Q).
  set (duration := inject_Z (perf_counter env (reads w) - t0)).
  destruct (Qgtb duration target && cfg_enable_profiling (config (pipe w)));
    destruct (cfg_enable_fps_control (config (pipe w))
              && Qgtb (target - duration) 0);
    intros [= <-]; simpl;
    rewrite ?reads_release_data, ?release_data_pipe, ?release_data_trace, ?R1,
      ?C1, ?T1;
    (split; [reflexivity|]); (split; [reflexivity|]); (split; [exact Ez|]).
  - exists (tr1 ++ [EvSleep (target - duration)%Q]).
    rewrite sleeps_app, S1, <- app_assoc. split; reflexivity.
  - exists tr1. split; [reflexivity|exact S1].
  - exists (tr1 ++ [EvSleep (target - duration)%Q]).
    rewrite sleeps_app, S1, <- app_assoc. split; reflexivity.
  - exists tr1. split; [reflexivity|exact S1].
Qed.

(** X18.  A step that passes its gates and returns reads the clock exactly
    twice (at the start of the frame and in its [finally] block) and
    sleeps at most once: with frame-rate control on and a frame shorter
    than the target interval [1 / max_fps], for exactly the rest of the
    interval; with frame-rate control off, or a frame at least as long as
    the interval, not at all.  The interval is the exact quotient: one
    second need not be a whole multiple of it, and a frame that is shorter
    than the interval by a fraction of a clock tick is still followed by a
    sleep.  Such a step returns only when [max_fps] is not 0 (the interval
    is computed by a division, whether or not frame-rate control is
    on). *)
Theorem frame_pacing_sleeps_the_rest_of_the_interval fuel w t0 did_work w' :
  gates_pass w -> _last_time (pipe w) = Some t0 ->
  step env fuel w = Ok did_work w' ->
  cfg_max_fps (config (pipe w)) <> 0 /\
  reads w' = S (S (reads w)) /\
  exists tr, trace w' = trace w ++ tr /\
    sleeps tr
    = (let duration :=
         inject_Z (perf_counter env (S (reads w)) - perf_counter env (reads w))
       in
       let target_interval :=
         (inject_Z ticks_per_second / inject_Z (cfg_max_fps (config (pipe w))))%Q
       in
       if cfg_enable_fps_control (config (pipe w))
          && negb (Qle_bool (target_interval - duration) 0)
       then [(target_interval - duration)%Q] else []).
Proof.
  change (let duration :=
         inject_Z (perf_counter env (S (reads w)) - perf_counter env (reads w))
       in
       let target_interval :=
         (inject_Z ticks_per_second / inject_Z (cfg_max_fps (config (pipe w))))%Q
       in
       if cfg_enable_fps_control (config (pipe w))
          && negb (Qle_bool (target_interval - duration) 0)
       then [(target_interval - duration)%Q] else [])
    with (pacing_sleep (config (pipe w))
            (perf_counter env (S (reads w)) - perf_counter env (reads w))).
  intros Hg Hl. rewrite (step_anchored env fuel w t0 Hl Hg).
  set (w0 := frame_start env t0 w).
  assert (H0 : reads w0 = S (reads w) /\ config (pipe w0) = config (pipe w)
               /\ trace w0 = trace w).
  { unfold w0, frame_start, at_anchor_read. case_bool_decide; repeat split. }
  destruct H0 as (R0 & C0 & T0).
  unfold bind at 1.
  destruct (walk env fuel (_strategies (pipe w)) 0 None false w0)
    as [r w1|e w1|] eqn:E1; [|discriminate|discriminate].
  destruct (walk_keeps_time fuel (_strategies (pipe w)) 0%nat None false w0 w1)
    as (R1 & C1 & tr1 & T1 & S1);
    [rewrite E1; reflexivity|].
  unfold step_tail. unfold bind at 1.
  destruct (step_finally env fuel (perf_counter env (reads w)) (current_data r) w1)
    as [[] w2|e w2|] eqn:E2; [|discriminate|discriminate].
  destruct (step_finally_time fuel _ _ w1 w2 E2) as (R2 & C2 & Hz & tr2 & T2 & S2).
  rewrite C1, C0 in Hz, S2, C2. rewrite R1, R0 in S2, R2.
  assert (K : forall w3, keeps_time w2 w3 ->
            cfg_max_fps (config (pipe w)) <> 0 /\
            reads w3 = S (S (reads w)) /\
            exists tr, trace w3 = trace w ++ tr /\
              sleeps tr
              = pacing_sleep (config (pipe w))
                  (perf_counter env (S (reads w)) - perf_counter env (reads w))).
  { intros w3 (R3 & C3 & tr3 & T3 & S3).
    split; [exact Hz|]. split; [congruence|].
    exists (tr1 ++ tr2 ++ tr3).
    rewrite T3, T2, T1, T0, <- !app_assoc, !sleeps_app, S1, S2, S3.
    rewrite app_nil_r. split; reflexivity. }
  destruct (exit r).
  - unfold bind, modify, ret. intros [= _ <-]. apply K.
    case_bool_decide;
      [exact (pipeline_call_keeps_time CallStop w2)|apply keeps_time_refl].
  - unfold ret. intros [= _ <-]. apply K, keeps_time_refl.
Qed.

End Timing.

Section Delta.
Variable env : Env.











Ltac anchor_same := intros; reflexivity.




End Delta.

Lemma frame_pacing_sleeps_the_rest_of_the_interval_witness :
  let w := Scene.paced in
  gates_pass w /\ _last_time (pipe w) = Some 0 /\
  exists did_work w',
    step Sample.env 20 w = Ok did_work w' /\
    cfg_max_fps (config (pipe w)) <> 0 /\
    reads w' = S (S (reads w)) /\
    exists tr, trace w' = trace w ++ tr /\
      sleeps tr = [((inject_Z ticks_per_second / inject_Z 60)
                    - inject_Z 1000)%Q].
Proof.
  intros w.
  assert (Hg : gates_pass w).
  { split; [vm_compute; reflexivity|].
    intros H. vm_compute in H. discriminate. }
  assert (Hl : _last_time (pipe w) = Some 0) by (vm_compute; reflexivity).
  split; [exact Hg|]. split; [exact Hl|].
  eexists _, _. split; [vm_compute; reflexivity|].
  match goal with
  | |- _ /\ reads ?w' = _ /\ _ =>
      exact (frame_pacing_sleeps_the_rest_of_the_interval Sample.env 20 w 0
               true w' Hg Hl ltac:(vm_compute; reflexivity))
  end.
Defined.

(** At 60 frames per second, a frame that took 1000 ticks is followed by a
    sleep of the remaining 16665666 ticks. *)
Example paced_step_sleeps :
  match step Sample.env 20 Scene.paced with
  | Ok _ w' => map Qred (sleeps (trace w')) = [49997000 # 3]
  | _ => False
  end.
Proof. vm_compute. reflexivity. Qed.

(** At 60 frames per second one second is not a whole number of target
    intervals: a frame that took 16666666 ticks, a fraction of a tick short
    of its interval, is followed by a sleep of two thirds of a tick. *)
Example sleep_of_a_fraction_of_a_tick :
  map Qred
(pacing_sleep (config (pipe Scene.paced)) 16666666)
  = [2 # 3].
Proof. vm_compute. reflexivity. Qed.


(** ** The deferred queue *)

Section Conservation.
Variable env : Env.

Lemma queue_conserved_refl w : queue_conserved w w.
Proof. exists []. rewrite !app_nil_r. split; reflexivity. Qed.

Lemma queue_conserved_trans a b c :
  queue_conserved a b -> queue_conserved b c -> queue_conserved a c.
Proof.
  intros (t1 & E1 & Q1) (t2 & E2 & Q2). exists (t1 ++ t2).
  split; [rewrite E2, E1, <- app_assoc; reflexivity|].
  rewrite enqueued_app, popped_app, app_assoc, Q1, <- !app_assoc, Q2.
  reflexivity.
Qed.

Lemma queue_grows_conserved w w' : queue_grows w w' -> queue_conserved w w'.
Proof.
  intros (tr & E & P & Q). exists tr. split; [exact E|].
  rewrite P, Q. reflexivity.
Qed.

Lemma queue_conserved_same w w' :
  trace w' = trace w -> deferred_queue w' = deferred_queue w ->
  queue_conserved w w'.
Proof. intros. apply queue_grows_conserved, queue_grows_same; assumption. Qed.

Lemma walk_queue_grows fuel chain i cd dw :
  respects queue_grows (walk env fuel chain i cd dw).
Proof.
  apply respects_walk;
    first [ exact queue_grows_refl | exact queue_grows_trans
          | exact (pipeline_call_queue_grows env)
          | exact enqueue_queue_grows | exact invoke_queue_grows
          | intros; apply queue_grows_same;
            unfold deferred_queue, router;
            rewrite ?release_data_trace, ?release_data_pipe; reflexivity
          | intros; eexists [_]; repeat split; simpl;
            rewrite ?app_nil_r; reflexivity ].
Qed.

Lemma drain_queue_conserved fuel :
  forall count, respects queue_conserved (drain env fuel count).
Proof.
  induction count as [|count IH]; intros w w'; simpl.
  - intros [= <-]. apply queue_conserved_refl.
  - destruct (deferred_queue w) as [|[t d] rest] eqn:Eq.
    + intros [= <-]. apply queue_conserved_refl.
    + set (w0 := popleft t d rest w). intros H.
      assert (H0 : queue_conserved w w0).
      { exists [EvPop t d]. split; [reflexivity|]. simpl.
        rewrite app_nil_r, Eq. reflexivity. }
      eapply queue_conserved_trans; [exact H0|].
      revert H. apply respects_bind; [exact queue_conserved_trans| |].
      * intros a b Hab. apply queue_grows_conserved.
        exact (exec_queue_grows env fuel (CDispatchNow t d) a b Hab).
      * intros _. apply IH.
Qed.

Lemma process_deferred_queue_conserved fuel :
  respects queue_conserved (process_deferred env fuel).
Proof.
  intros w w'. unfold process_deferred.
  destruct (deferred_queue w) as [|x q] eqn:E.
  - intros [= <-]. apply queue_conserved_refl.
  - apply respects_bind; [exact queue_conserved_trans| |].
    + destruct (is_allowed _ _).
      * intros a b. unfold router_info.
        destruct (router_log_world LogLevel.INFO SevInfo MsgFlush a)
          as [(l & El)|El]; rewrite El; intros [= <-];
          apply queue_conserved_same; reflexivity.
      * apply respects_ret. exact queue_conserved_refl.
    + intros _ a b. apply drain_queue_conserved.
Qed.

Lemma step_finally_queue_conserved fuel t0 cd :
  respects queue_conserved (step_finally env fuel t0 cd).
Proof.
  unfold step_finally.
  apply respects_bind; [exact queue_conserved_trans| |].
  { apply process_deferred_queue_conserved. }
  intros _. apply respects_bind; [exact queue_conserved_trans| |].
  { apply respects_modify. intros w. apply queue_conserved_same;
      unfold deferred_queue, router;
      rewrite ?release_data_trace, ?release_data_pipe; reflexivity. }
  intros _. apply respects_bind; [exact queue_conserved_trans| |].
  { intros w w' [= <-]. apply queue_conserved_same; reflexivity. }
  intros t1. apply respects_handle_frame_pacing;
    first [ exact queue_conserved_refl | exact queue_conserved_trans
          | intros; apply queue_conserved_same; reflexivity
          | intros; apply queue_grows_conserved; eexists [_];
            repeat split; simpl; rewrite ?app_nil_r; reflexivity ].
Qed.

Lemma step_queue_conserved fuel : respects queue_conserved (step env fuel).
Proof.
  intros w w' H.
  destruct (gates_pass_dec w) as [Hg|Hg].
  - destruct (_last_time (pipe w)) as [t0|] eqn:El.
    + rewrite (step_anchored env fuel w t0 El Hg) in H.
      eapply queue_conserved_trans.
      { apply (queue_conserved_same w (frame_start env t0 w));
          unfold frame_start, at_anchor_read; case_bool_decide; reflexivity. }
      revert H. apply respects_bind; [exact queue_conserved_trans| |].
      * intros a b Hab. apply queue_grows_conserved.
        exact (walk_queue_grows fuel _ _ _ _ a b Hab).
      * intros r. unfold step_tail.
        apply respects_bind; [exact queue_conserved_trans| |].
        { apply step_finally_queue_conserved. }
        intros _. destruct (exit r).
        -- apply respects_bind; [exact queue_conserved_trans| |].
           ++ apply respects_modify. intros w1. case_bool_decide;
                [|apply queue_conserved_refl].
              apply queue_grows_conserved.
              exact (pipeline_call_queue_grows env CallStop w1).
           ++ intros _. apply respects_ret. exact queue_conserved_refl.
        -- apply respects_ret. exact queue_conserved_refl.
    + rewrite (step_unanchored env fuel w El Hg) in H.
      injection H as <-. apply queue_conserved_same;
        unfold at_anchor_read; case_bool_decide; reflexivity.
  - rewrite (step_gated env fuel w Hg) in H. injection H as <-.
    apply queue_conserved_refl.
Qed.

(** X15.  The deferred queue is a FIFO that loses and invents nothing:
    over any operation on the pipeline or its router (a lifecycle call, an
    edit, [publish], [subscribe], [process_deferred], [step]), however it
    ends, the events queued before it followed by the events enqueued
    during it are exactly the events taken from the queue during it
    followed by the events still queued after it, in this order. *)
Theorem deferred_queue_is_a_fifo fuel op w w' :
  world_of (run_op env fuel op w) = Some w' ->
  exists tr,
    trace w' = trace w ++ tr /\
    deferred_queue w ++ enqueued tr = popped tr ++ deferred_queue w'.
Proof.
  revert w w'. change (respects queue_conserved (run_op env fuel op)).
  destruct op; simpl.
  - intros wa wb. rewrite pipeline_call_world. intros [= <-].
    apply queue_grows_conserved. apply pipeline_call_queue_grows.
  - intros wa wb Hab. apply queue_grows_conserved.
    exact (exec_queue_grows env fuel _ wa wb Hab).
  - apply process_deferred_queue_conserved.
  - apply respects_bind; [exact queue_conserved_trans| |].
    + apply step_queue_conserved.
    + intros _. apply respects_ret. exact queue_conserved_refl.
Qed.

(** X14.  On a queue that holds class topics only and a router bound to
    its pipeline, [process_deferred] does not raise, and when it returns it
    has taken from the queue exactly the events that were queued when it
    was called, in queue order, each handed to [_dispatch_now] as it was
    taken; the events enqueued by handlers meanwhile are not taken: they
    are what the queue holds afterwards. *)
Theorem process_deferred_takes_the_queue_once fuel w :
  (forall t d, (t, d) ∈ deferred_queue w -> is_type t = true) ->
  _pipeline (router w) = true ->
  (forall e w', process_deferred env fuel w <> Raise e w') /\
  (forall w', process_deferred env fuel w = Ok tt w' ->
     exists tr, trace w' = trace w ++ tr /\
                popped tr = deferred_queue w /\
                deferred_queue w' = enqueued tr).
Proof. apply process_deferred_one_pass. Qed.

End Conservation.

Lemma process_deferred_takes_the_queue_once_witness :
  let w :=
    Sample.after
      (publish Sample.env 5 Sample.Ball 1%nat None EventPriority.DEFERRED
         (subscribe Sample.Ball 3%nat (Sample.started PipelineMode.LOOP []))) in
  (forall t d, (t, d) ∈ deferred_queue w -> is_type t = true) /\
  _pipeline (router w) = true /\
  exists w',
    process_deferred Sample.env 10 w = Ok tt w' /\
    exists tr, trace w' = trace w ++ tr /\
               popped tr = deferred_queue w /\
               deferred_queue w' = enqueued tr.
Proof.
  intros w.
  assert (Hq : deferred_queue w = [(Sample.Ball, 1%nat)])
    by (vm_compute; reflexivity).
  assert (Hty : forall t d, (t, d) ∈ deferred_queue w -> is_type t = true).
  { intros t d Hin. rewrite Hq in Hin.
    apply list_elem_of_singleton in Hin. injection Hin as -> _. reflexivity. }
  assert (Hb : _pipeline (router w) = true) by (vm_compute; reflexivity).
  split; [exact Hty|]. split; [exact Hb|].
  eexists. split; [vm_compute; reflexivity|].
  match goal with
  | |- exists tr, trace ?w' = _ /\ _ =>
      exact (proj2 (process_deferred_takes_the_queue_once Sample.env 10 w Hty
                      Hb)
               w' ltac:(vm_compute; reflexivity))
  end.
Defined.

(** Handler 3 publishes a deferred event of its own: it is left for the
    next call. *)
Example event_enqueued_while_flushing_waits :
  match process_deferred Sample.env 10
          (Sample.after
             (publish Sample.env 5 Sample.Ball 1%nat None
                EventPriority.DEFERRED
                (subscribe Sample.Ball 3%nat
                   (Sample.started PipelineMode.LOOP [])))) with
  | Ok _ w' =>
      invocations (trace w') = [(3%nat, Sample.Ball, 1%nat)] /\
      deferred_queue w' = [(Sample.Ball, 1%nat)]
  | _ => False
  end.
Proof. vm_compute. split; reflexivity. Qed.

Lemma deferred_queue_is_a_fifo_witness :
  exists w',
    world_of (run_op Sample.env 10 OpProcessDeferred Sample.queued) = Some w' /\
    exists tr,
      trace w' = trace Sample.queued ++ tr /\
      deferred_queue Sample.queued ++ enqueued tr
      = popped tr ++ deferred_queue w'.
Proof.
  eexists. split; [vm_compute; reflexivity|].
  match goal with
  | |- exists tr, trace ?w' = _ /\ _ =>
      exact (deferred_queue_is_a_fifo Sample.env 10 OpProcessDeferred
               Sample.queued w' ltac:(vm_compute; reflexivity))
  end.
Defined.


(** On a router that has been unbound, the flush raises before it takes
    anything from the queue. *)
Example flush_on_an_unbound_router :
  let w := on_router (with_router_pipeline false) Sample.queued in
  match process_deferred Sample.env 10 w with
  | Raise e w' =>
      e = AttributeError "name" /\ deferred_queue w' = deferred_queue w
  | _ => False
  end.
Proof. vm_compute. split; reflexivity. Qed.
(** ** Executor *)

Lemma py_remove_filter (l : list nat) p :
  NoDup l -> py_remove p l = filter (fun x => x <> p) l.
Proof.
  induction l as [|y l IH]; intros Hnd; [reflexivity|].
  inversion Hnd as [|? ? Hy Hnd']; subst. simpl.
  case_bool_decide as E.
  - subst. rewrite filter_cons_False by (intros H; apply H; reflexivity).
    clear IH Hnd Hnd'. induction l as [|z l IH]; [reflexivity|].
    rewrite filter_cons_True.
    + f_equal. apply IH. intros H. apply Hy. right. exact H.
    + intros ->. apply Hy. left.
  - rewrite filter_cons_True by exact E. f_equal. apply IH, Hnd'.
Qed.

Lemma filter_ne_not_in (l : list nat) p :
  p ∉ l -> filter (fun x => x <> p) l = l.
Proof.
  induction l as [|y l IH]; intros Hn; [reflexivity|].
  rewrite filter_cons_True.
  - f_equal. apply IH. intros H. apply Hn. right. exact H.
  - intros ->. apply Hn. left.
Qed.

Lemma filter_ext_in {A} (P Q : A -> Prop)
    `{!forall x, Decision (P x)} `{!forall x, Decision (Q x)} (l : list A) :
  (forall x, x ∈ l -> P x <-> Q x) -> filter P l = filter Q l.
Proof.
  induction l as [|y l IH]; intros Hpq; [reflexivity|].
  assert (IH' : filter P l = filter Q l)
    by (apply IH; intros x Hx; apply Hpq; right; exact Hx).
  destruct (decide (P y)) as [Hp|Hp].
  - rewrite !filter_cons_True; [rewrite IH'; reflexivity| |exact Hp].
    apply (Hpq y); [left|exact Hp].
  - rewrite !filter_cons_False; [exact IH'| |exact Hp].
    intros Hq. apply Hp. apply (Hpq y); [left|exact Hq].
Qed.

Section Sweep.
Variable env : Env.

Lemma executor_set_object pid w sys :
  executor (set_object pid w sys) = executor sys.
Proof. reflexivity. Qed.

Lemma sweep_loop_spec fuel l :
  forall acc acc',
    NoDup l ->
    sweep_loop env fuel l acc = Some acc' ->
    executor (sys_of acc') = executor (sys_of acc) /\
    hub_published (sys_of acc') = hub_published (sys_of acc) /\
    naps (sys_of acc') = naps (sys_of acc) /\
    pipelines_to_remove acc'
    = pipelines_to_remove acc
      ++ filter (terminated_in (sys_of acc)) l /\
    any_work_done acc'
    = any_work_done acc || existsb (worked env fuel (sys_of acc)) l /\
    (forall q, q ∉ l -> objects (sys_of acc') !! q = objects (sys_of acc) !! q) /\
    (forall q w, q ∈ l -> objects (sys_of acc) !! q = Some w ->
       exists w', visited env fuel w = Some w' /\
                  objects (sys_of acc') !! q = Some w').
Proof.
  induction l as [|pid l IH]; intros acc acc' Hnd; simpl.
  - intros [= <-]. rewrite app_nil_r, orb_false_r. repeat split.
    intros q w Hq. inversion Hq.
  - inversion Hnd as [|? ? Hpid Hnd']; subst.
    assert (Hstep : forall acc1,
              executor (sys_of acc1) = executor (sys_of acc) ->
              hub_published (sys_of acc1) = hub_published (sys_of acc) ->
              naps (sys_of acc1) = naps (sys_of acc) ->
              (forall q, q <> pid ->
                 objects (sys_of acc1) !! q = objects (sys_of acc) !! q) ->
              forall rm wk o,
              pipelines_to_remove acc1 = pipelines_to_remove acc ++ rm ->
              any_work_done acc1 = any_work_done acc || wk ->
              objects (sys_of acc1) !! pid = o ->
              sweep_loop env fuel l acc1 = Some acc' ->
              executor (sys_of acc') = executor (sys_of acc) /\
              hub_published (sys_of acc') = hub_published (sys_of acc) /\
              naps (sys_of acc') = naps (sys_of acc) /\
              pipelines_to_remove acc'
              = pipelines_to_remove acc ++ rm
                ++ filter (terminated_in (sys_of acc)) l /\
              any_work_done acc'
              = any_work_done acc
                || (wk || existsb (worked env fuel (sys_of acc)) l) /\
              (forall q, q ∉ pid :: l ->
                 objects (sys_of acc') !! q = objects (sys_of acc) !! q) /\
              objects (sys_of acc') !! pid = o /\
              (forall q w, q ∈ l -> objects (sys_of acc) !! q = Some w ->
                 exists w', visited env fuel w = Some w' /\
                            objects (sys_of acc') !! q = Some w')).
    { intros acc1 He Hh Hn Ho rm wk o Hrm Hwk Hpo Hl.
      destruct (IH acc1 acc' Hnd' Hl) as (E1 & E2 & E3 & E4 & E5 & E6 & E7).
      assert (Hsame : forall q, q ∈ l ->
                objects (sys_of acc1) !! q = objects (sys_of acc) !! q).
      { intros q Hq. apply Ho. intros ->. contradiction. }
      assert (Hf : filter (terminated_in (sys_of acc1)) l
                   = filter (terminated_in (sys_of acc)) l).
      { apply filter_ext_in. intros q Hq.
        unfold terminated_in. rewrite (Hsame q Hq). reflexivity. }
      assert (Hx : existsb (worked env fuel (sys_of acc1)) l
                   = existsb (worked env fuel (sys_of acc)) l).
      { clear -Hsame. induction l as [|q l IHl]; [reflexivity|]. simpl.
        rewrite IHl.
        - unfold worked. rewrite (Hsame q) by left. reflexivity.
        - intros q' Hq'. apply Hsame. right. exact Hq'. }
      split; [congruence|]. split; [congruence|]. split; [congruence|].
      split. { rewrite E4, Hrm, Hf, <- app_assoc. reflexivity. }
      split. { rewrite E5, Hwk, Hx, orb_assoc. reflexivity. }
      split.
      { intros q Hq. rewrite E6.
        - apply Ho. intros ->. apply Hq. left.
        - intros H. apply Hq. right. exact H. }
      split. { rewrite E6 by exact Hpid. exact Hpo. }
      intros q w Hq Hw. apply E7; [exact Hq|].
      rewrite (Hsame q Hq). exact Hw. }
    assert (Hfin : forall rm wk o,
              (forall w, objects (sys_of acc) !! pid = Some w ->
                 exists w', visited env fuel w = Some w' /\ o = Some w') ->
              rm = filter (terminated_in (sys_of acc)) [pid] ->
              wk = worked env fuel (sys_of acc) pid ->
              executor (sys_of acc') = executor (sys_of acc) /\
              hub_published (sys_of acc') = hub_published (sys_of acc) /\
              naps (sys_of acc') = naps (sys_of acc) /\
              pipelines_to_remove acc'
              = pipelines_to_remove acc ++ rm
                ++ filter (terminated_in (sys_of acc)) l /\
              any_work_done acc'
              = any_work_done acc
                || (wk || existsb (worked env fuel (sys_of acc)) l) /\
              (forall q, q ∉ pid :: l ->
                 objects (sys_of acc') !! q = objects (sys_of acc) !! q) /\
              objects (sys_of acc') !! pid = o /\
              (forall q w, q ∈ l -> objects (sys_of acc) !! q = Some w ->
                 exists w', visited env fuel w = Some w' /\
                            objects (sys_of acc') !! q = Some w') ->
              executor (sys_of acc') = executor (sys_of acc) /\
              hub_published (sys_of acc') = hub_published (sys_of acc) /\
              naps (sys_of acc') = naps (sys_of acc) /\
              pipelines_to_remove acc'
              = pipelines_to_remove acc
                ++ filter (terminated_in (sys_of acc)) (pid :: l) /\
              any_work_done acc'
              = any_work_done acc
                || (worked env fuel (sys_of acc) pid
                    || existsb (worked env fuel (sys_of acc)) l) /\
              (forall q, q ∉ pid :: l ->
                 objects (sys_of acc') !! q = objects (sys_of acc) !! q) /\
              (forall q w, q ∈ pid :: l -> objects (sys_of acc) !! q = Some w ->
                 exists w', visited env fuel w = Some w' /\
                            objects (sys_of acc') !! q = Some w')).
    { intros rm wk o Hv -> -> (E1 & E2 & E3 & E4 & E5 & E6 & E7 & E8).
      split; [exact E1|]. split; [exact E2|]. split; [exact E3|].
      split.
      { rewrite E4. f_equal.
        change (pid :: l) with ([pid] ++ l). rewrite filter_app. reflexivity. }
      split; [exact E5|]. split; [exact E6|].
      intros q w Hq Hw. apply elem_of_cons in Hq. destruct Hq as [->|Hq].
      - destruct (Hv w Hw) as (w' & V & ->). exists w'. split; [exact V|exact E7].
      - apply E8; assumption. }
    destruct (objects (sys_of acc) !! pid) as [w|] eqn:Ew.
    2:{ intros Hl. apply (Hfin [] false None).
        - intros w [=].
        - rewrite filter_cons_False; [reflexivity|].
          unfold terminated_in. rewrite Ew. discriminate.
        - unfold worked. rewrite Ew. reflexivity.
        - refine (Hstep acc _ _ _ _ [] false None _ _ _ Hl); auto.
          + rewrite app_nil_r. reflexivity.
          + rewrite orb_false_r. reflexivity. }
    case_bool_decide as Hs.
    { intros Hl. apply (Hfin [pid] false (Some w)).
      - intros w0 [= <-]. exists w. split; [|reflexivity].
        unfold visited. rewrite bool_decide_true by exact Hs. reflexivity.
      - rewrite filter_cons_True; [reflexivity|].
        unfold terminated_in. rewrite Ew. simpl. rewrite Hs. reflexivity.
      - unfold worked. rewrite Ew. rewrite bool_decide_true by exact Hs.
        reflexivity.
      - refine (Hstep _ _ _ _ _ [pid] false (Some w) _ _ _ Hl); simpl; auto.
        rewrite orb_false_r. reflexivity. }
    assert (Hrm0 : [] = filter (terminated_in (sys_of acc)) [pid]).
    { rewrite filter_cons_False; [reflexivity|].
      intros H. unfold terminated_in in H. rewrite Ew in H.
      simpl in H. injection H as H. contradiction. }
    destruct (step env fuel w) as [b w1|e w1|] eqn:E; [| |discriminate].
    + intros Hl. apply (Hfin [] b (Some w1)).
      * intros w0 [= <-]. exists w1. split; [|reflexivity].
        unfold visited. rewrite bool_decide_false by exact Hs.
        rewrite E. reflexivity.
      * exact Hrm0.
      * unfold worked. rewrite Ew, E. rewrite bool_decide_false by exact Hs.
        destruct b; reflexivity.
      * refine (Hstep _ _ _ _ _ [] b (Some w1) _ _ _ Hl); simpl; auto.
        -- intros q Hq. apply lookup_insert_ne. intros ->. apply Hq. reflexivity.
        -- rewrite app_nil_r. reflexivity.
        -- destruct b; destruct (any_work_done acc); reflexivity.
        -- apply lookup_insert_eq.
    + rewrite (step_never_raises_critical env _ _ _ _ E).
      intros Hl. apply (Hfin [] false (Some w1)).
      * intros w0 [= <-]. exists w1. split; [|reflexivity].
        unfold visited. rewrite bool_decide_false by exact Hs.
        rewrite E. reflexivity.
      * exact Hrm0.
      * unfold worked. rewrite Ew, E. rewrite bool_decide_false by exact Hs.
        reflexivity.
      * refine (Hstep _ _ _ _ _ [] false (Some w1) _ _ _ Hl); simpl; auto.
        -- intros q Hq. apply lookup_insert_ne. intros ->. apply Hq. reflexivity.
        -- rewrite app_nil_r. reflexivity.
        -- rewrite orb_false_r. reflexivity.
        -- apply lookup_insert_eq.
Qed.


Lemma foldl_detach_spec rm :
  forall sys,
    NoDup (_pipelines (executor sys)) ->
    _pipelines (executor (foldl detach sys rm))
    = filter (fun x => x ∉ rm) (_pipelines (executor sys)) /\
    objects (foldl detach sys rm) = objects sys /\
    naps (foldl detach sys rm) = naps sys /\
    _running (executor (foldl detach sys rm)) = _running (executor sys).
Proof.
  induction rm as [|p rm IH]; intros sys Hnd; simpl.
  - split; [|repeat split].
    symmetry. clear Hnd.
    induction (_pipelines (executor sys)) as [|y l IHl]; [reflexivity|].
    rewrite filter_cons_True by apply not_elem_of_nil. f_equal. exact IHl.
  - assert (Hd : _pipelines (executor (detach sys p))
                 = filter (fun x => x <> p) (_pipelines (executor sys)) /\
                 objects (detach sys p) = objects sys /\
                 naps (detach sys p) = naps sys /\
                 _running (executor (detach sys p)) = _running (executor sys)).
    { unfold detach. case_bool_decide as Hin; simpl.
      - split; [apply py_remove_filter, Hnd|repeat split].
      - split; [symmetry; apply filter_ne_not_in, Hin|repeat split]. }
    destruct Hd as (Hp & Ho & Hn & Hr).
    destruct (IH (detach sys p)) as (Ip & Io & In & Ir).
    { rewrite Hp. apply NoDup_filter, Hnd. }
    split; [|split; [congruence|split; congruence]].
    rewrite Ip, Hp, list_filter_filter. apply filter_ext_in.
    intros x _. rewrite not_elem_of_cons. tauto.
Qed.

(** X20.  One turn of the executor's loop over an executor on which no
    pipeline is attached twice detaches exactly the pipelines that were
    TERMINATED when the turn began and keeps the others attached, in their
    order; a pipeline that terminates during the turn (a SINGLE one after
    its step, say) stays attached until the next turn.  The running flag
    is not touched. *)
Theorem sweep_detaches_exactly_the_terminated fuel sys sys' :
  NoDup (_pipelines (executor sys)) ->
  sweep env fuel sys = Some sys' ->
  _pipelines (executor sys')
  = filter (fun pid => ~ terminated_in sys pid) (_pipelines (executor sys)) /\
  _running (executor sys') = _running (executor sys).
Proof.
  intros Hnd. unfold sweep.
  destruct (sweep_loop env fuel _ _) as [acc|] eqn:E; [|discriminate].
  destruct (sweep_loop_spec fuel _ _ _ Hnd E) as (He & _ & _ & Hrm & _).
  simpl in He, Hrm.
  destruct (foldl_detach_spec (pipelines_to_remove acc) (sys_of acc))
    as (Hp & _ & _ & Hr).
  { rewrite He. exact Hnd. }
  assert (K : _pipelines (executor (foldl detach (sys_of acc)
                                      (pipelines_to_remove acc)))
              = filter (fun pid => ~ terminated_in sys pid)
                  (_pipelines (executor sys))).
  { rewrite Hp, He, Hrm. apply filter_ext_in. intros x Hx.
    rewrite list_elem_of_filter. tauto. }
  intros [= <-]. destruct (any_work_done acc); simpl;
    (split; [exact K|rewrite Hr, He; reflexivity]).
Qed.

(** X21.  One turn of the executor's loop over an executor on which no
    pipeline is attached twice visits every attached pipeline exactly
    once: a pipeline that is TERMINATED is left as it is, every other one
    is stepped once and is left in the world that step ends in, whether
    the step returned or raised and whatever the steps of the other
    pipelines did; pipelines that are not attached are not touched.  The
    executor takes its idle nap in this turn exactly when no step
    answered [True]. *)
Theorem sweep_visits_every_pipeline_once fuel sys sys' :
  NoDup (_pipelines (executor sys)) ->
  sweep env fuel sys = Some sys' ->
  (forall pid w, pid ∈ _pipelines (executor sys) ->
     objects sys !! pid = Some w ->
     exists w', visited env fuel w = Some w' /\
                objects sys' !! pid = Some w') /\
  (forall pid, pid ∉ _pipelines (executor sys) ->
     objects sys' !! pid = objects sys !! pid) /\
  naps sys'
  = (if existsb (worked env fuel sys) (_pipelines (executor sys))
     then naps sys else S (naps sys)).
Proof.
  intros Hnd. unfold sweep.
  destruct (sweep_loop env fuel _ _) as [acc|] eqn:E; [|discriminate].
  destruct (sweep_loop_spec fuel _ _ _ Hnd E)
    as (He & _ & Hn & _ & Hw & Hout & Hin).
  simpl in He, Hn, Hw, Hout, Hin.
  destruct (foldl_detach_spec (pipelines_to_remove acc) (sys_of acc))
    as (_ & Ho & Hn' & _).
  { rewrite He. exact Hnd. }
  intros [= <-]. rewrite Hw.
  destruct (existsb _ _); simpl; rewrite Ho;
    (split; [exact Hin|]); (split; [exact Hout|]); congruence.
Qed.

(** X22.  An executor none of whose pipelines is ready to step (each is
    IDLE or PAUSED, or CONDITIONAL without a trigger) does nothing in a
    turn of its loop but sleep once: the attached pipelines, the executor
    itself, its log and the hub are unchanged. *)
Theorem idle_executor_only_sleeps fuel sys :
  (forall pid w, pid ∈ _pipelines (executor sys) ->
     objects sys !! pid = Some w ->
     state w <> PipelineState.TERMINATED /\ ~ gates_pass w) ->
  exists sys',
    sweep env fuel sys = Some sys' /\
    executor sys' = executor sys /\ objects sys' = objects sys /\
    hub_published sys' = hub_published sys /\ sys_log sys' = sys_log sys /\
    naps sys' = S (naps sys).
Proof.
  intros Hidle. unfold sweep.
  assert (K : forall l acc,
            (forall pid w, pid ∈ l -> objects (sys_of acc) !! pid = Some w ->
               state w <> PipelineState.TERMINATED /\ ~ gates_pass w) ->
            sweep_loop env fuel l acc
            = Some {| sys_of :=
                        {| executor := executor (sys_of acc);
                           objects := objects (sys_of acc);
                           hub_published := hub_published (sys_of acc);
                           sys_log := sys_log (sys_of acc);
                           naps := naps (sys_of acc) |};
                      pipelines_to_remove := pipelines_to_remove acc;
                      any_work_done := any_work_done acc |}).
  { induction l as [|pid l IH]; intros acc H; simpl.
    - destruct acc as [[] ? ?]. reflexivity.
    - destruct (objects (sys_of acc) !! pid) as [w|] eqn:Ew.
      + destruct (H pid w) as (Hs & Hg); [left|exact Ew|].
        rewrite bool_decide_false by exact Hs.
        rewrite (step_gated env fuel w Hg).
        rewrite IH.
        * simpl. unfold set_object. simpl.
          rewrite (insert_id _ _ _ Ew). reflexivity.
        * intros q w' Hq Hw'. apply (H q w'); [right; exact Hq|].
          revert Hw'. unfold set_object. simpl.
          rewrite (insert_id _ _ _ Ew). tauto.
      + apply IH. intros q w' Hq Hw'. apply (H q w'); [right; exact Hq|exact Hw']. }
  rewrite K by exact Hidle. simpl.
  eexists. split; [reflexivity|]. simpl. repeat split.
Qed.

End Sweep.

Section ExecutorApi.

Lemma pipeline_name_add_pipeline pid sys q :
  pipeline_name (add_pipeline pid sys) q = pipeline_name sys q.
Proof. reflexivity. Qed.

Lemma find_by_name_ext sys sys' name l :
  objects sys' = objects sys ->
  find_by_name sys' name l = find_by_name sys name l.
Proof.
  intros E. induction l as [|p l IH]; simpl; [reflexivity|].
  unfold pipeline_name. rewrite E, IH. reflexivity.
Qed.

Lemma find_by_name_app sys name l1 l2 :
  find_by_name sys name (l1 ++ l2)
  = match find_by_name sys name l1 with
    | Some p => Some p
    | None => find_by_name sys name l2
    end.
Proof.
  induction l1 as [|p l1 IH]; simpl; [reflexivity|].
  case_bool_decide; [reflexivity|exact IH].
Qed.

Lemma find_by_name_Some sys name l pid :
  find_by_name sys name l = Some pid <->
  exists pre post, l = pre ++ pid :: post /\ pipeline_name sys pid = name /\
                   forall q, q ∈ pre -> pipeline_name sys q <> name.
Proof.
  induction l as [|p l IH]; simpl.
  - split; [discriminate|]. intros (pre & post & E & _).
    destruct pre; discriminate.
  - case_bool_decide as Hp.
    + split.
      * intros [= <-]. exists [], l. repeat split; [exact Hp|].
        intros q Hq. inversion Hq.
      * intros (pre & post & E & Hn & Hpre).
        destruct pre as [|x pre]; simpl in E; injection E as -> ->;
          [reflexivity|].
        exfalso. apply (Hpre x); [left|exact Hp].
    + rewrite IH. split.
      * intros (pre & post & -> & Hn & Hpre).
        exists (p :: pre), post. repeat split; [exact Hn|].
        intros q Hq. apply elem_of_cons in Hq. destruct Hq as [->|Hq];
          [exact Hp|apply Hpre, Hq].
      * intros (pre & post & E & Hn & Hpre).
        destruct pre as [|x pre]; simpl in E; injection E as -> ->.
        -- contradiction.
        -- exists pre, post. repeat split; [exact Hn|].
           intros q Hq. apply Hpre. right. exact Hq.
Qed.

Lemma find_by_name_None sys name l :
  find_by_name sys name l = None <->
  forall q, q ∈ l -> pipeline_name sys q <> name.
Proof.
  induction l as [|p l IH]; simpl.
  - split; [|reflexivity]. intros _ q Hq. inversion Hq.
  - case_bool_decide as Hp.
    + split; [discriminate|]. intros H. exfalso. apply (H p); [left|exact Hp].
    + rewrite IH. split.
      * intros H q Hq. apply elem_of_cons in Hq. destruct Hq as [->|Hq];
          [exact Hp|apply H, Hq].
      * intros H q Hq. apply H. right. exact Hq.
Qed.

(** X23.  [get_pipeline] answers the first attached pipeline, in attachment
    order, whose name is the one asked for, and [None] exactly when no
    attached pipeline has that name.  [add_pipeline] appends without
    looking for duplicates, so after attaching a pipeline, looking up its
    name finds it only if no pipeline attached earlier has the same name;
    otherwise it finds that earlier one. *)
Theorem get_pipeline_returns_the_first_match name sys :
  (forall pid,
     get_pipeline name sys = Some pid <->
     exists pre post,
       _pipelines (executor sys) = pre ++ pid :: post /\
       pipeline_name sys pid = name /\
       forall q, q ∈ pre -> pipeline_name sys q <> name) /\
  (get_pipeline name sys = None <->
   forall q, q ∈ _pipelines (executor sys) -> pipeline_name sys q <> name) /\
  (forall pid,
     _pipelines (executor (add_pipeline pid sys))
     = _pipelines (executor sys) ++ [pid] /\
     get_pipeline (pipeline_name sys pid) (add_pipeline pid sys)
     = Some (default pid (get_pipeline (pipeline_name sys pid) sys))).
Proof.
  split; [intros pid; apply find_by_name_Some|].
  split; [apply find_by_name_None|].
  intros pid. split; [reflexivity|].
  unfold get_pipeline.
  rewrite (find_by_name_ext sys (add_pipeline pid sys)) by reflexivity.
  change (_pipelines (executor (add_pipeline pid sys)))
    with (_pipelines (executor sys) ++ [pid]).
  rewrite find_by_name_app.
  destruct (find_by_name sys _ (_pipelines (executor sys))); [reflexivity|].
  simpl. rewrite bool_decide_true by reflexivity. reflexivity.
Qed.

End ExecutorApi.

Lemma sweep_detaches_exactly_the_terminated_witness :
  NoDup (_pipelines (executor Scene.fleet)) /\
  exists sys',
    sweep Sample.env 20 Scene.fleet = Some sys' /\
    _pipelines (executor sys')
    = filter (fun pid => ~ terminated_in Scene.fleet pid)
        (_pipelines (executor Scene.fleet)) /\
    _running (executor sys') = _running (executor Scene.fleet).
Proof.
  assert (Hnd : NoDup (_pipelines (executor Scene.fleet))).
  { simpl. repeat (apply NoDup_cons; split;
      [intros H; repeat (apply elem_of_cons in H; destruct H as [H|H];
                         [discriminate|]); inversion H|]).
    apply NoDup_nil. exact I. }
  split; [exact Hnd|].
  eexists. split; [vm_compute; reflexivity|].
  match goal with
  | |- _pipelines (executor ?sys') = _ /\ _ =>
      exact (sweep_detaches_exactly_the_terminated Sample.env 20 Scene.fleet
               sys' Hnd ltac:(vm_compute; reflexivity))
  end.
Defined.

(** In the sample fleet the terminated pipeline 0 is detached, the running
    pipeline 1 has advanced by one frame and the paused pipeline 2 is as
    before. *)
Example sweep_of_the_fleet :
  match sweep Sample.env 20 Scene.fleet with
  | Some sys' =>
      _pipelines (executor sys') = [1%nat; 2%nat] /\
      Sample.object_frame_index sys' 1%nat = Some 1 /\
      Sample.object_state sys' 2%nat = Some PipelineState.PAUSED /\
      naps sys' = 0%nat
  | None => False
  end.
Proof. vm_compute. repeat split; reflexivity. Qed.

Lemma sweep_visits_every_pipeline_once_witness :
  NoDup (_pipelines (executor Scene.fleet)) /\
  exists sys',
    sweep Sample.env 20 Scene.fleet = Some sys' /\
    (forall pid w, pid ∈ _pipelines (executor Scene.fleet) ->
       objects Scene.fleet !! pid = Some w ->
       exists w', visited Sample.env 20 w = Some w' /\
                  objects sys' !! pid = Some w') /\
    (forall pid, pid ∉ _pipelines (executor Scene.fleet) ->
       objects sys' !! pid = objects Scene.fleet !! pid) /\
    naps sys'
    = (if existsb (worked Sample.env 20 Scene.fleet)
            (_pipelines (executor Scene.fleet))
       then naps Scene.fleet else S (naps Scene.fleet)).
Proof.
  assert (Hnd : NoDup (_pipelines (executor Scene.fleet))).
  { simpl. repeat (apply NoDup_cons; split;
      [intros H; repeat (apply elem_of_cons in H; destruct H as [H|H];
                         [discriminate|]); inversion H|]).
    apply NoDup_nil. exact I. }
  split; [exact Hnd|].
  eexists. split; [vm_compute; reflexivity|].
  match goal with
  | |- (forall pid w, _ -> _ -> exists w', _ /\ objects ?sys' !! _ = _) /\ _ =>
      exact (sweep_visits_every_pipeline_once Sample.env 20 Scene.fleet
               sys' Hnd ltac:(vm_compute; reflexivity))
  end.
Defined.

Lemma idle_executor_only_sleeps_witness :
  (forall pid w, pid ∈ _pipelines (executor Scene.resting) ->
     objects Scene.resting !! pid = Some w ->
     state w <> PipelineState.TERMINATED /\ ~ gates_pass w) /\
  exists sys',
    sweep Sample.env 20 Scene.resting = Some sys' /\
    executor sys' = executor Scene.resting /\
    objects sys' = objects Scene.resting /\
    hub_published sys' = hub_published Scene.resting /\
    sys_log sys' = sys_log Scene.resting /\
    naps sys' = S (naps Scene.resting).
Proof.
  assert (H0 : objects Scene.resting !! 0%nat
               = Some (Sample.built PipelineMode.LOOP [1%nat]))
    by (vm_compute; reflexivity).
  assert (H1 : objects Scene.resting !! 1%nat
               = Some (pause (Sample.started PipelineMode.LOOP [1%nat])))
    by (vm_compute; reflexivity).
  assert (Hidle : forall pid w, pid ∈ _pipelines (executor Scene.resting) ->
            objects Scene.resting !! pid = Some w ->
            state w <> PipelineState.TERMINATED /\ ~ gates_pass w).
  { intros pid w Hin Hw. simpl in Hin.
    apply elem_of_cons in Hin. destruct Hin as [->|Hin].
    - rewrite H0 in Hw. injection Hw as <-.
      split; [vm_compute; discriminate|].
      intros [Hs _]. vm_compute in Hs. discriminate.
    - apply list_elem_of_singleton in Hin. subst pid.
      rewrite H1 in Hw. injection Hw as <-.
      split; [vm_compute; discriminate|].
      intros [Hs _]. vm_compute in Hs. discriminate. }
  split; [exact Hidle|].
  exact (idle_executor_only_sleeps Sample.env 20 Scene.resting Hidle).
Defined.

Lemma get_pipeline_returns_the_first_match_witness :
  _pipelines (executor Scene.fleet) = [] ++ 0%nat :: [1%nat; 2%nat] /\
  pipeline_name Scene.fleet 0%nat = "pipe" /\
  (forall q, q ∈ @nil nat -> pipeline_name Scene.fleet q <> "pipe") /\
  get_pipeline "pipe" Scene.fleet = Some 0%nat.
Proof.
  assert (Hl : _pipelines (executor Scene.fleet) = [] ++ 0%nat :: [1%nat; 2%nat])
    by reflexivity.
  assert (Hn : pipeline_name Scene.fleet 0%nat = "pipe")
    by (vm_compute; reflexivity).
  assert (Hp : forall q, q ∈ @nil nat -> pipeline_name Scene.fleet q <> "pipe").
  { intros q Hq. inversion Hq. }
  split; [exact Hl|]. split; [exact Hn|]. split; [exact Hp|].
  apply (proj1 (get_pipeline_returns_the_first_match "pipe" Scene.fleet)
           0%nat).
  exists [], [1%nat; 2%nat]. split; [exact Hl|]. split; [exact Hn|exact Hp].
Defined.

(** ** The event hub *)

Section HubLemmas.
Variable henv : HubEnv.

Lemma hub_run_actions_quiet publish acts h :
  (forall t d, HubPublish t d ∉ acts) ->
  exists h', hub_run_actions publish acts h = Some h' /\
             hub_log h' = hub_log h /\ hub_invoked h' = hub_invoked h.
Proof.
  revert h. induction acts as [|a acts IH]; intros h Hq; simpl.
  - exists h. repeat split.
  - assert (Hq' : forall t d, HubPublish t d ∉ acts).
    { intros t d H. apply (Hq t d). right. exact H. }
    destruct a as [t cb|t d| |p]; simpl.
    + destruct (IH (hub_subscribe t cb h) Hq') as (h' & E & L & I).
      exists h'. repeat split; assumption.
    + exfalso. apply (Hq t d). left.
    + destruct (IH (hub_clear h) Hq') as (h' & E & L & I).
      exists h'. repeat split; assumption.
    + destruct (IH (hub_set_log_policy p h) Hq') as (h' & E & L & I).
      exists h'. repeat split; assumption.
Qed.

Lemma hub_for_each_quiet publish t d callbacks :
  forall h,
    (forall cb, cb ∈ callbacks -> publishes_nothing henv d cb) ->
    exists h',
      hub_for_each henv publish callbacks t d h = Some h' /\
      hub_invoked h'
      = hub_invoked h ++ map (fun cb => (cb, t, d)) callbacks /\
      hub_log h' = hub_log h ++ hub_errors henv t d callbacks.
Proof.
  induction callbacks as [|cb l IH]; intros h Hq; simpl.
  - exists h. rewrite !app_nil_r. repeat split.
  - unfold hub_invoke.
    pose proof (Hq cb ltac:(left)) as Hcb. unfold publishes_nothing in Hcb.
    unfold hub_errors. simpl.
    destruct (henv cb d) as [script raised]. simpl in *.
    match goal with
    | |- context [hub_run_actions publish script ?h1] =>
        destruct (hub_run_actions_quiet publish script h1 Hcb)
          as (h2 & E & L & I)
    end.
    rewrite E. simpl in L, I.
    assert (Hq' : forall cb0, cb0 ∈ l -> publishes_nothing henv d cb0).
    { intros cb0 H. apply Hq. right. exact H. }
    destruct raised as [e|].
    + destruct (IH (hub_dispatch_error t e h2) Hq') as (h' & E' & I' & L').
      exists h'. split; [exact E'|].
      rewrite I', L'. simpl. rewrite I, L, <- !app_assoc. split; reflexivity.
    + destruct (IH h2 Hq') as (h' & E' & I' & L').
      exists h'. split; [exact E'|].
      rewrite I', L', I, L, <- !app_assoc. split; reflexivity.
Qed.

(** X24.  [EventHub.publish] dispatches to a snapshot: when the callbacks
    subscribed to the topic do not publish on the hub themselves, it
    returns after invoking exactly the callbacks that were subscribed when
    it was called, once each and in subscription order, whatever they do
    to the subscription table meanwhile (subscribe further callbacks to
    the same topic, clear the hub).  A callback that raises does not stop
    the ones after it, and each such error is logged, whatever the hub's
    log policy, since the line is written with a string as its source. *)
Theorem hub_publish_dispatches_to_a_snapshot fuel t d h :
  (forall cb, cb ∈ default [] (hub_subscribers (hub h) !! t) ->
     publishes_nothing henv d cb) ->
  exists h',
    hub_publish henv (S fuel) t d h = Some h' /\
    hub_invoked h'
    = hub_invoked h
      ++ map (fun cb => (cb, t, d))
           (default [] (hub_subscribers (hub h) !! t)) /\
    hub_log h'
    = hub_log h
      ++ hub_errors henv t d (default [] (hub_subscribers (hub h) !! t)).
Proof.
  intros Hq. simpl. apply hub_for_each_quiet. exact Hq.
Qed.

End HubLemmas.

Lemma hub_publish_dispatches_to_a_snapshot_witness :
  let h := Scene.alerting in
  (forall cb, cb ∈ default [] (hub_subscribers (hub h) !! Scene.Alert) ->
     publishes_nothing Scene.henv 0%nat cb) /\
  exists h',
    hub_publish Scene.henv 1 Scene.Alert 0%nat h = Some h' /\
    hub_invoked h'
    = hub_invoked h
      ++ map (fun cb => (cb, Scene.Alert, 0%nat))
           (default [] (hub_subscribers (hub h) !! Scene.Alert)) /\
    hub_log h'
    = hub_log h
      ++ hub_errors Scene.henv Scene.Alert 0%nat
           (default [] (hub_subscribers (hub h) !! Scene.Alert)).
Proof.
  intros h.
  assert (Hq : forall cb,
            cb ∈ default [] (hub_subscribers (hub h) !! Scene.Alert) ->
            publishes_nothing Scene.henv 0%nat cb).
  { intros cb _ t d Hin. unfold Scene.henv in Hin.
    destruct cb as [|[|cb]]; simpl in Hin.
    - inversion Hin.
    - apply list_elem_of_singleton in Hin. discriminate.
    - inversion Hin. }
  split; [exact Hq|].
  exact (hub_publish_dispatches_to_a_snapshot Scene.henv 0 Scene.Alert 0%nat
           h Hq).
Defined.

(** Callback 1 subscribes callback 3 during the dispatch and raises: the
    dispatch invokes callbacks 1 and 2 only, logs the error although the
    hub's policy is silent, and callback 3 is subscribed afterwards. *)
Example hub_dispatch_in_the_sample :
  match hub_publish Scene.henv 1 Scene.Alert 0%nat Scene.alerting with
  | Some h' =>
      hub_invoked h'
      = [(1%nat, Scene.Alert, 0%nat); (2%nat, Scene.Alert, 0%nat)] /\
      hub_subscribers (hub h') !! Scene.Alert = Some [1%nat; 2%nat; 3%nat] /\
      hub_log h'
      = hub_log Scene.alerting
        ++ [{| hub_severity := SevError; hub_source := "EventHub";
               hub_message :=
                 MsgHubDispatchError Scene.Alert
                   (Exception "handler failed") |}]
  | None => False
  end.
Proof. vm_compute. repeat split; reflexivity. Qed.

(** ** The blackboard of the context *)

Section Blackboard.

(** X25.  [get_data] on a type the blackboard does not hold calls the
    type's constructor and stores what it answers: the type is held
    afterwards, a second [get_data] answers the same object without
    constructing anything, and neither the other entries nor the frame
    index and delta time change.  When the constructor raises, the error
    propagates and the blackboard is unchanged. *)
Theorem get_data_creates_the_default_once construct data_type self :
  has_data data_type self = false ->
  (forall v, construct data_type = inr v ->
     get_data construct data_type self = (inr v, set_data data_type v self) /\
     has_data data_type (set_data data_type v self) = true /\
     (forall construct',
        get_data construct' data_type (set_data data_type v self)
        = (inr v, set_data data_type v self)) /\
     (forall other, other <> data_type ->
        has_data other (set_data data_type v self) = has_data other self) /\
     _frame_index (set_data data_type v self) = _frame_index self /\
     _delta_time (set_data data_type v self) = _delta_time self) /\
  (forall e, construct data_type = inl e ->
     get_data construct data_type self = (inl e, self)).
Proof.
  unfold has_data. intros Hn. apply bool_decide_eq_false in Hn.
  assert (E : _data_store self !! data_type = None).
  { destruct (_data_store self !! data_type) eqn:E'; [|reflexivity].
    exfalso. apply Hn. eexists. reflexivity. }
  split.
  - intros v Hc. unfold get_data. rewrite E, Hc.
    split; [reflexivity|]. split.
    { apply bool_decide_eq_true. simpl. rewrite lookup_insert_eq.
      eexists. reflexivity. }
    split.
    { intros construct'. simpl. rewrite lookup_insert_eq. reflexivity. }
    split; [|split; reflexivity].
    intros other Ho. simpl. rewrite lookup_insert_ne by congruence.
    reflexivity.
  - intros e Hc. unfold get_data. rewrite E, Hc. reflexivity.
Qed.

(** X26.  [set_data] followed by [get_data] for the same type answers the
    stored object, without calling the constructor and without changing
    the blackboard; a second [set_data] for the type replaces the first;
    what [get_data] answers for any other type is not affected; and
    [clear] forgets the object. *)
Theorem set_data_then_get_data_returns_it construct data_type v v' self :
  get_data construct data_type (set_data data_type v self)
  = (inr v, set_data data_type v self) /\
  has_data data_type (set_data data_type v self) = true /\
  set_data data_type v' (set_data data_type v self)
  = set_data data_type v' self /\
  (forall other, other <> data_type ->
     (get_data construct other (set_data data_type v self)).1
     = (get_data construct other self).1) /\
  has_data data_type (PipelineContext_clear (set_data data_type v self))
  = false.
Proof.
  split.
  { unfold get_data. simpl. rewrite lookup_insert_eq. reflexivity. }
  split.
  { apply bool_decide_eq_true. simpl. rewrite lookup_insert_eq.
    eexists. reflexivity. }
  split.
  { unfold set_data. simpl. rewrite insert_insert_eq. reflexivity. }
  split.
  - intros other Ho. unfold get_data. simpl.
    rewrite lookup_insert_ne by congruence.
    destruct (_data_store self !! other) as [x|]; [reflexivity|].
    destruct (construct other) as [e|x]; reflexivity.
  - reflexivity.
Qed.

End Blackboard.

Lemma get_data_creates_the_default_once_witness :
  let construct := fun _ : nat => @inr exn nat 9%nat in
  has_data 4%nat PipelineContext_init = false /\
  construct 4%nat = inr 9%nat /\
  get_data construct 4%nat PipelineContext_init
  = (inr 9%nat, set_data 4%nat 9%nat PipelineContext_init) /\
  has_data 4%nat (set_data 4%nat 9%nat PipelineContext_init) = true.
Proof.
  intros construct.
  assert (Hn : has_data 4%nat PipelineContext_init = false)
    by (vm_compute; reflexivity).
  assert (Hc : construct 4%nat = inr 9%nat) by reflexivity.
  split; [exact Hn|]. split; [exact Hc|].
  destruct (proj1 (get_data_creates_the_default_once construct 4%nat
                     PipelineContext_init Hn) 9%nat Hc) as (E & Hh & _).
  split; [exact E|exact Hh].
Defined.

Lemma set_data_then_get_data_returns_it_witness :
  let construct := fun _ : nat => @inl exn nat (Exception "no default") in
  5%nat <> 4%nat /\
  (get_data construct 5%nat (set_data 4%nat 9%nat PipelineContext_init)).1
  = (get_data construct 5%nat PipelineContext_init).1.
Proof.
  intros construct.
  assert (Hne : 5%nat <> 4%nat) by discriminate.
  split; [exact Hne|].
  exact (proj1 (proj2 (proj2 (proj2
           (set_data_then_get_data_returns_it construct 4%nat 9%nat 9%nat
              PipelineContext_init)))) 5%nat Hne).
Defined.

(** ** Frames *)

Section Frames.

(** X27.  A frame holds at most one component per component type:
    [add_component] followed by [get_component] for the type answers the
    component added, a second [add_component] for the type replaces the
    first, and components of other types are not affected by adding or
    removing one.  [remove_component] makes the type absent and does
    nothing (it does not raise) when the type is absent already;
    [has_component] answers [True] exactly when [get_component] answers a
    component. *)
Theorem frame_components_are_keyed_by_type tag c self :
  get_component tag (add_component tag c self) = Some c /\
  has_component tag (add_component tag c self) = true /\
  (forall c', add_component tag c' (add_component tag c self)
              = add_component tag c' self) /\
  (forall other, other <> tag ->
     get_component other (add_component tag c self)
     = get_component other self /\
     get_component other (remove_component tag self)
     = get_component other self) /\
  get_component tag (remove_component tag self) = None /\
  has_component tag (remove_component tag self) = false /\
  (has_component tag self = false -> remove_component tag self = self) /\
  (has_component tag self = true <-> is_Some (get_component tag self)).
Proof.
  unfold get_component, has_component, add_component, remove_component.
  simpl.
  split; [apply lookup_insert_eq|].
  split. { apply bool_decide_eq_true. rewrite lookup_insert_eq. eauto. }
  split. { intros c'. rewrite insert_insert_eq. reflexivity. }
  split.
  { intros other Ho. split.
    - apply lookup_insert_ne. congruence.
    - apply lookup_delete_ne. congruence. }
  split; [apply lookup_delete_eq|].
  split.
  { apply bool_decide_eq_false. rewrite lookup_delete_eq.
    intros [x Hx]. discriminate. }
  split.
  { intros Hn. apply bool_decide_eq_false in Hn.
    rewrite delete_id.
    - destruct self. reflexivity.
    - destruct (_components self !! tag) eqn:E; [|reflexivity].
      exfalso. apply Hn. eauto. }
  apply bool_decide_eq_true.
Qed.

(** X28.  [release] marks the frame released, keeps its id and drops all
    its components; on a frame already released it does nothing.  The
    frame does not refuse components afterwards: a component added to a
    released frame stays, and a later [release] does not drop it. *)
Theorem release_empties_the_frame_once self tag c :
  _released (release self) = true /\
  frame_id (release self) = frame_id self /\
  release (release self) = release self /\
  (_released self = false ->
   get_component tag (release self) = None /\
   has_component tag (release self) = false) /\
  (_released self = true -> release self = self) /\
  get_component tag (release (add_component tag c (release self))) = Some c.
Proof.
  unfold release, get_component, has_component, add_component.
  destruct self as [fid rel comps]. simpl.
  destruct rel; simpl;
    repeat split; try reflexivity; try discriminate;
    try (intros _; split; [apply lookup_empty|]);
    try apply lookup_insert_eq.
  all: try (apply bool_decide_eq_false; rewrite lookup_empty;
            intros [x Hx]; discriminate).
Qed.

End Frames.

Section Levels.

(** X29.  For every level that is a non-empty combination of INFO,
    WARNING and ERROR, and every mask, [is_allowed] is the bit test "mask
    and level have a bit in common": the two shortcuts for the masks ALL
    and NONE agree with it.  They do not for the empty level NONE, which
    the mask ALL allows and every other mask refuses. *)
Theorem is_allowed_is_the_bit_test mask level :
  (1 <= level <= 7 ->
   is_allowed {| allowed_mask := mask |} level
   = negb (Z.land mask level =? 0)) /\
  is_allowed {| allowed_mask := mask |} LogLevel.NONE
  = (mask =? LogLevel.ALL).
Proof.
  unfold is_allowed. simpl. split.
  - intros Hl. destruct (mask =? LogLevel.ALL) eqn:E1.
    + apply Z.eqb_eq in E1. subst mask.
      assert (level = 1 \/ level = 2 \/ level = 3 \/ level = 4 \/ level = 5
              \/ level = 6 \/ level = 7) as H by lia.
      destruct H as [->|[->|[->|[->|[->|[->| ->]]]]]]; reflexivity.
    + destruct (mask =? LogLevel.NONE) eqn:E2; [|reflexivity].
      apply Z.eqb_eq in E2. subst mask. reflexivity.
  - destruct (mask =? LogLevel.ALL) eqn:E1; [reflexivity|].
    destruct (mask =? LogLevel.NONE); [reflexivity|].
    unfold LogLevel.NONE. rewrite Z.land_0_r. reflexivity.
Qed.

End Levels.

Lemma frame_components_are_keyed_by_type_witness :
  has_component 3%nat (Frame_init 7) = false /\
  remove_component 3%nat (Frame_init 7) = Frame_init 7.
Proof.
  assert (Hn : has_component 3%nat (Frame_init 7) = false)
    by (vm_compute; reflexivity).
  split; [exact Hn|].
  destruct (frame_components_are_keyed_by_type 3%nat 0%nat (Frame_init 7))
    as (_ & _ & _ & _ & _ & _ & Hr & _).
  exact (Hr Hn).
Defined.

Lemma release_empties_the_frame_once_witness :
  let self := add_component 3%nat 8%nat (Frame_init 7) in
  _released self = false /\
  get_component 3%nat (release self) = None /\
  has_component 3%nat (release self) = false.
Proof.
  intros self.
  assert (Hn : _released self = false) by reflexivity.
  split; [exact Hn|].
  destruct (release_empties_the_frame_once self 3%nat 8%nat)
    as (_ & _ & _ & Hr & _).
  exact (Hr Hn).
Defined.

Lemma is_allowed_is_the_bit_test_witness :
  1 <= LogLevel.WARNING <= 7 /\
  is_allowed {| allowed_mask := LogLevel.NO_WARNINGS |} LogLevel.WARNING
  = negb (Z.land LogLevel.NO_WARNINGS LogLevel.WARNING =? 0).
Proof.
  assert (Hl : 1 <= LogLevel.WARNING <= 7) by (unfold LogLevel.WARNING; lia).
  split; [exact Hl|].
  exact (proj1 (is_allowed_is_the_bit_test LogLevel.NO_WARNINGS
                  LogLevel.WARNING) Hl).
Defined.

(** ** The layout of a pipeline *)

Section Layout.
Variable env : Env.

Lemma enumerate_from_app {A} (l1 l2 : list A) start :
  enumerate_from start (l1 ++ l2)
  = enumerate_from start l1 ++ enumerate_from (start + length l1)%nat l2.
Proof.
  revert start. induction l1 as [|x l1 IH]; intros start; simpl.
  - rewrite Nat.add_0_r. reflexivity.
  - rewrite IH. rewrite Nat.add_succ_comm. reflexivity.
Qed.

Lemma enumerate_from_fmap {A B} (f : A -> B) (l : list A) start :
  enumerate_from start (f <$> l)
  = (fun p => (p.1, f p.2)) <$> enumerate_from start l.
Proof.
  revert start. induction l as [|x l IH]; intros start; simpl;
    [reflexivity|]. rewrite IH. reflexivity.
Qed.

Lemma elem_of_enumerate_from {A} (l : list A) start i x :
  (i, x) ∈ enumerate_from start l <->
  (start <= i)%nat /\ l !! (i - start)%nat = Some x.
Proof.
  revert start. induction l as [|y l IH]; intros start; simpl.
  - split; [intros H; inversion H|intros [_ H]; discriminate].
  - rewrite elem_of_cons, IH. split.
    + intros [[= -> ->]|[Hle Hl]].
      * split; [lia|]. rewrite Nat.sub_diag. reflexivity.
      * split; [lia|].
        replace (i - start)%nat with (S (i - S start)) by lia. exact Hl.
    + intros [Hle Hl]. destruct (decide (i = start)) as [->|Hn].
      * left. rewrite Nat.sub_diag in Hl. injection Hl as ->. reflexivity.
      * right. split; [lia|].
        replace (i - start)%nat with (S (i - S start)) in Hl by lia.
        exact Hl.
Qed.

Lemma elem_of_indices_of name names i :
  i ∈ indices_of name names <-> names !! i = Some name.
Proof.
  unfold indices_of. rewrite list_elem_of_fmap. split.
  - intros ([j n] & -> & H). apply list_elem_of_filter in H.
    destruct H as [Hn H]. simpl in Hn. subst n.
    apply elem_of_enumerate_from in H. destruct H as [_ H].
    rewrite Nat.sub_0_r in H. exact H.
  - intros H. exists (i, name). split; [reflexivity|].
    apply list_elem_of_filter. split; [reflexivity|].
    apply elem_of_enumerate_from. split; [lia|].
    rewrite Nat.sub_0_r. exact H.
Qed.

Lemma indices_of_snoc name names m :
  indices_of name (names ++ [m])
  = indices_of name names
    ++ (if bool_decide (m = name) then [length names] else []).
Proof.
  unfold indices_of. rewrite enumerate_from_app, filter_app, fmap_app.
  f_equal. simpl. case_bool_decide as E.
  - rewrite filter_cons_True by exact E. reflexivity.
  - rewrite filter_cons_False by exact E. reflexivity.
Qed.

Lemma layout_of_snoc l s :
  layout_of env (l ++ [s])
  = layout_turn env (layout_of env l) (length l, s).
Proof.
  unfold layout_of. rewrite enumerate_from_app, foldl_app. reflexivity.
Qed.

Lemma layout_of_spec l :
  let names := strategy_name env <$> l in
  _ordered_items (layout_of env l) = enumerate_from 0 names /\
  (forall i, _index_to_name (layout_of env l) !! i = names !! i) /\
  (forall n, _name_to_index (layout_of env l) !! n
             = match indices_of n names with
               | [] => None
               | p => Some p
               end).
Proof.
  induction l as [|s l IH] using rev_ind; simpl.
  - repeat split; intros; apply lookup_empty.
  - destruct IH as (Ho & Hi & Hn).
    rewrite layout_of_snoc, fmap_app. simpl.
    set (names := strategy_name env <$> l) in *.
    assert (Hlen : length l = length names)
      by (unfold names; rewrite length_fmap; reflexivity).
    split; [|split].
    + rewrite Ho, enumerate_from_app. simpl. rewrite Hlen. reflexivity.
    + intros i. destruct (decide (i = length l)) as [->|Hne].
      * rewrite lookup_insert_eq. rewrite Hlen.
        rewrite lookup_app_r by lia. rewrite Nat.sub_diag. reflexivity.
      * rewrite lookup_insert_ne by congruence. rewrite Hi.
        destruct (decide (i < length names)%nat) as [Hlt|Hge].
        -- rewrite lookup_app_l by exact Hlt. reflexivity.
        -- rewrite lookup_ge_None_2 by lia.
           symmetry. apply lookup_ge_None_2. rewrite length_app. simpl. lia.
    + intros n. rewrite indices_of_snoc.
      destruct (decide (strategy_name env s = n)) as [<-|Hne].
      * rewrite lookup_insert_eq, Hn.
        rewrite bool_decide_true by reflexivity. rewrite Hlen.
        destruct (indices_of (strategy_name env s) names); reflexivity.
      * rewrite lookup_insert_ne by exact Hne. rewrite Hn.
        rewrite bool_decide_false by exact Hne. rewrite app_nil_r.
        reflexivity.
Qed.

(** X30.  The layout of a pipeline describes its chain: [ordered_items]
    lists the strategy names in chain order with their positions,
    [index_to_name] maps each position to the name of the strategy there
    (and nothing else), and [name_to_index] maps each name that occurs to
    all the positions where it occurs, in increasing order (and no other
    name).  So the two maps are inverse to each other: a position maps to
    a name exactly when the name maps to a list containing the
    position. *)
Theorem layout_maps_are_inverse_of_each_other w :
  let names := strategy_name env <$> strategies w in
  _ordered_items (layout env w) = enumerate_from 0 names /\
  (forall i, _index_to_name (layout env w) !! i = names !! i) /\
  (forall n, default [] (_name_to_index (layout env w) !! n)
             = indices_of n names) /\
  (forall n, is_Some (_name_to_index (layout env w) !! n) <-> n ∈ names) /\
  (forall i n,
     _index_to_name (layout env w) !! i = Some n <->
     exists l, _name_to_index (layout env w) !! n = Some l /\ i ∈ l).
Proof.
  intros names. unfold layout.
  destruct (layout_of_spec (strategies w)) as (Ho & Hi & Hn).
  fold names in Ho, Hi, Hn.
  split; [exact Ho|]. split; [exact Hi|].
  split.
  { intros n. rewrite Hn. destruct (indices_of n names); reflexivity. }
  split.
  { intros n. rewrite Hn. split.
    - destruct (indices_of n names) as [|i p] eqn:E;
        [intros [x Hx]; discriminate|]. intros _.
      assert (Hin : i ∈ indices_of n names) by (rewrite E; left).
      apply elem_of_indices_of in Hin.
      eapply list_elem_of_lookup_2. exact Hin.
    - intros Hin. apply list_elem_of_lookup in Hin. destruct Hin as [i Hin].
      apply elem_of_indices_of in Hin.
      destruct (indices_of n names); [inversion Hin|eauto]. }
  intros i n. rewrite Hi, Hn. rewrite <- elem_of_indices_of. split.
  - intros Hin. destruct (indices_of n names) as [|j p] eqn:E;
      [inversion Hin|]. eexists. split; [reflexivity|exact Hin].
  - intros (l & Hl & Hin).
    destruct (indices_of n names) as [|j p]; [discriminate|].
    injection Hl as <-. exact Hin.
Qed.

End Layout.

Lemma layout_maps_are_inverse_of_each_other_witness :
  let w := Sample.started PipelineMode.LOOP [1%nat; 2%nat; 1%nat] in
  _index_to_name (layout Sample.env w) !! 2%nat = Some "Capture" /\
  exists l, _name_to_index (layout Sample.env w) !! "Capture" = Some l /\
            2%nat ∈ l.
Proof.
  intros w.
  assert (Hi : _index_to_name (layout Sample.env w) !! 2%nat = Some "Capture")
    by (vm_compute; reflexivity).
  split; [exact Hi|].
  destruct (layout_maps_are_inverse_of_each_other Sample.env w)
    as (_ & _ & _ & _ & Hinv).
  exact (proj1 (Hinv 2%nat "Capture") Hi).
Defined.

(** With the chain capture, detect, capture, the name of capture maps to
    the positions 0 and 2. *)
Example layout_of_a_chain_with_a_repeated_name :
  let w := Sample.started PipelineMode.LOOP [1%nat; 2%nat; 1%nat] in
  _name_to_index (layout Sample.env w) !! "Capture" = Some [0%nat; 2%nat] /\
  _ordered_items (layout Sample.env w)
  = [(0%nat, "Capture"); (1%nat, "Detect"); (2%nat, "Capture")].
Proof. vm_compute. split; reflexivity. Qed.

